(** * Garbage collection of the value log (db/blob_vlog_gc.cc)

    A shallow embedding of the value-log garbage collector of the
    WiscKey-style store built on LevelDB: the commit callback that guards
    handle rewrites, [PickGC], [Collect], [Rewrite], and the background
    scheduling around them ([MaybeScheduleGC], [BGCall], [BackgroundGC],
    [RecordBGError], [ManualGC]).

    Conventions.
    - [uint32_t] and [uint64_t] values are [N] with the wrap-around written
      out ([u32], [u64]).
    - [std::map] and [std::set] members are [gmap] and [gset].
    - The members of [ValueLogImpl] form one record that is threaded through
      every member function.  The calls a member function makes on its
      collaborators (files, the LSM, the manifest, the scheduler) are recorded,
      in program order, in the [trace_] field.
    - A run that executes an integer division by zero, dereferences a
      past-the-end iterator, fails an assertion or does not leave a loop ends
      in [Crash] with that [Fault]; every other run ends in [Ret].
    - Other threads act between two calls of the functions modelled here; the
      [TEST_SYNC_POINT] hooks are test instrumentation and do nothing.
    - The collaborators whose code is not in db/blob_vlog_gc.cc (the LSM, the
      handle encoding, [ValueBatch], the vlog iterator, [LogAndApply]) are
      modelled from their description, each where it is defined.  The calls on a
      file whose status the collector does not look at ([AddBatch], [Sync],
      [Finish], [Close]) are made whatever they report; what they report and
      what the file then holds is the environment's ([file_outcome]). *)

From Stdlib Require Import NArith ZArith Lia List String Ascii Bool.
From stdpp Require Import gmap strings list fin_maps.

Local Open Scope N_scope.

(** ** Machine integers *)

Definition u32 (x : N) : N := x mod 2 ^ 32.
Definition u64 (x : N) : N := x mod 2 ^ 64.

(** A value narrowed to [int]: 32 bits, two's complement. *)
Definition i32 (x : Z) : Z := ((x + 2 ^ 31) mod 2 ^ 32 - 2 ^ 31)%Z.

(** ** leveldb::Status *)

Inductive Status : Set :=
| OK | NotFound | Corruption | NotSupported | InvalidArgument | IOError | NonFatal.

Definition ok (s : Status) : bool :=
  match s with OK => true | _ => false end.
Definition IsNotFound (s : Status) : bool :=
  match s with NotFound => true | _ => false end.
Definition IsNonFatal (s : Status) : bool :=
  match s with NonFatal => true | _ => false end.

#[global] Instance Status_eq_dec : EqDecision Status.
Proof. solve_decision. Defined.

(** What can go wrong in a run beyond a returned [Status]. *)
Inductive Fault : Set :=
| DivisionByZero
| PastTheEnd
| AssertionFailed
| NoProgress.

Inductive Result (A : Type) : Type :=
| Ret (a : A)
| Crash (f : Fault).
Arguments Ret {A} a.
Arguments Crash {A} f.

(** ** ValueHandle and its encoding *)

Record ValueHandle : Set := {
  table_ : N;   (* number of the vlog file *)
  offset_ : N;  (* uint32_t *)
  size_ : N     (* uint32_t *)
}.

#[global] Instance ValueHandle_eq_dec : EqDecision ValueHandle.
Proof. solve_decision. Defined.

(** [ValueHandle()] *)
Definition ValueHandle_default : ValueHandle :=
  {| table_ := 0; offset_ := 0; size_ := 0 |}.

Definition valid_handle (h : ValueHandle) : Prop :=
  table_ h < 2 ^ 64 ∧ offset_ h < 2 ^ 32 ∧ size_ h < 2 ^ 32.

Definition byte (n : N) : ascii := ascii_of_N (n mod 256).

(** Modelled from the spec: the variable-length integer encoding of
    util/coding (absent): little-endian, 7 bits per byte, continuation bit in
    the most significant bit.  [fuel] bounds the continuation bytes. *)
Fixpoint PutVarint64 (fuel : nat) (v : N) : string :=
  match fuel with
  | O => String (byte v) EmptyString
  | S f =>
      if v <? 128 then String (byte v) EmptyString
      else String (byte (v mod 128 + 128)) (PutVarint64 f (v / 128))
  end.

Fixpoint GetVarint64 (fuel : nat) (input : string) : option (N * string) :=
  match input with
  | EmptyString => None
  | String c rest =>
      let b := N_of_ascii c in
      if b <? 128 then Some (b, rest)
      else
        match fuel with
        | O => None
        | S f =>
            match GetVarint64 f rest with
            | Some (v, r) => Some (b - 128 + 128 * v, r)
            | None => None
            end
        end
  end.

(** Modelled from the spec: fixed32, four bytes, little-endian. *)
Definition PutFixed32 (v : N) : string :=
  String (byte v) (String (byte (v / 2 ^ 8))
    (String (byte (v / 2 ^ 16)) (String (byte (v / 2 ^ 24)) EmptyString))).

Definition GetFixed32 (input : string) : option (N * string) :=
  match input with
  | String b0 (String b1 (String b2 (String b3 rest))) =>
      Some (N_of_ascii b0 + 2 ^ 8 * N_of_ascii b1 + 2 ^ 16 * N_of_ascii b2
            + 2 ^ 24 * N_of_ascii b3, rest)
  | _ => None
  end.

(** Modelled from the spec: [ValueHandle::EncodeTo] of table/format (absent),
    [varint(file_number) · fixed32(offset) · fixed32(size)]; the destination
    string receives the encoding of this handle. *)
Definition EncodeTo (h : ValueHandle) : string :=
  (PutVarint64 9 (table_ h) +:+ PutFixed32 (offset_ h) +:+ PutFixed32 (size_ h))%string.

Definition parse_handle (input : string) : option ValueHandle :=
  match GetVarint64 9 input with
  | None => None
  | Some (t, r1) =>
      match GetFixed32 r1 with
      | None => None
      | Some (o, r2) =>
          match GetFixed32 r2 with
          | None => None
          | Some (sz, _) => Some {| table_ := t; offset_ := o; size_ := sz |}
          end
      end
  end.

(** Modelled from the spec: [ValueHandle::DecodeFrom] of table/format
    (absent).  The callers in blob_vlog_gc.cc ignore its status, so the model
    returns the contents of the handle after the call: the decoded fields, or
    the previous contents [old] when the input is not an encoded handle. *)
Definition DecodeFrom (input : string) (old : ValueHandle) : ValueHandle :=
  match parse_handle input with
  | Some h => h
  | None => old
  end.

(** ** The LSM: DBImpl *)

Inductive ValueType : Set := kTypeDeletion | kTypeValue | kTypeValueHandle.

#[global] Instance ValueType_eq_dec : EqDecision ValueType.
Proof. solve_decision. Defined.

(** One update of a WriteBatch: a tag, a key and a value. *)
Abbreviation WriteBatch := (list (ValueType * string * string)).

Definition WriteBatchInternal_Put (b : WriteBatch) (key value : string)
    (t : ValueType) : WriteBatch :=
  b ++ [(t, key, value)].

(** Modelled from the spec: the LSM engine (db/db_impl, absent), through the
    interface the collector uses: point reads that return the stored bytes
    and their value-type tag, batch writes gated by a commit callback, a WAL
    sync and the latest sequence number.  [lsm_read_error] holds the keys
    whose lookup fails with an I/O error; [lsm_write_status] and
    [lsm_sync_status] are the outcomes of the engine's own write and sync. *)
Record DBImpl : Type := {
  lsm_table : gmap string (ValueType * string);
  lsm_sequence : N;
  lsm_read_error : gset string;
  lsm_write_status : Status;
  lsm_sync_status : Status
}.

(** [DBImpl::Get(options, key, &value, &valueType)]: the out-parameters keep
    their previous contents unless the lookup succeeds. *)
Definition DBImpl_Get (db : DBImpl) (key : string) (value : string)
    (valueType : ValueType) : Status * string * ValueType :=
  if decide (key ∈ lsm_read_error db) then (IOError, value, valueType)
  else
    match lsm_table db !! key with
    | None => (NotFound, value, valueType)
    | Some (kTypeDeletion, _) => (NotFound, value, valueType)
    | Some (t, v) => (OK, v, t)
    end.

(** [DB::Get(options, key, &value)]. *)
Definition DB_Get (db : DBImpl) (key : string) (value : string) : Status * string :=
  let '(s, v, _) := DBImpl_Get db key value kTypeValue in (s, v).

Definition apply_update (tbl : gmap string (ValueType * string))
    (u : ValueType * string * string) : gmap string (ValueType * string) :=
  let '(t, k, v) := u in <[k := (t, v)]> tbl.

Definition DBImpl_LatestSequence (db : DBImpl) : N := lsm_sequence db.
Definition DBImpl_Sync (db : DBImpl) : Status := lsm_sync_status db.

(** The WriteCallback interface. *)
Class WriteCallback (C : Type) : Type := {
  Callback : C → DBImpl → Status;
  AllowGrouping : C → bool
}.

(** Modelled from the spec: [DBImpl::Write(options, updates, callback)].  The
    callback runs under the commit lock on the current contents; when it
    returns a status other than OK the batch is silently dropped, and the
    writer gets OK (as [TEST(DBIMPL_TEST, WriteCallback)] of
    db/value_log_test.cc expects after a callback that returns NotFound). *)
Definition DBImpl_Write {C} `{WriteCallback C} (db : DBImpl)
    (updates : WriteBatch) (callback : C) : Status * DBImpl :=
  let s := Callback callback db in
  if negb (ok s) then (OK, db)
  else if negb (ok (lsm_write_status db)) then (lsm_write_status db, db)
  else
    (OK, {| lsm_table := foldl apply_update (lsm_table db) updates;
            lsm_sequence := u64 (lsm_sequence db + N.of_nat (length updates));
            lsm_read_error := lsm_read_error db;
            lsm_write_status := lsm_write_status db;
            lsm_sync_status := lsm_sync_status db |}).

(** ** ValueLogGCWriteCallback *)

Record ValueLogGCWriteCallback : Type := {
  key_ : string;
  handle_ : ValueHandle
}.

Definition ValueLogGCWriteCallback_Callback (cb : ValueLogGCWriteCallback)
    (db : DBImpl) : Status :=
  let '(s, value) := DB_Get db (key_ cb) EmptyString in
  if negb (ok s) then s
  else
    let current := DecodeFrom value ValueHandle_default in
    if negb (bool_decide (current = handle_ cb)) then InvalidArgument
    else OK.

#[global] Instance ValueLogGCWriteCallback_WriteCallback :
  WriteCallback ValueLogGCWriteCallback := {|
  Callback := ValueLogGCWriteCallback_Callback;
  AllowGrouping := fun _ => false
|}.

(** ** ValueBatch *)

Definition len (s : string) : N := N.of_nat (String.length s).

(** [SizeOfVariant32] of db/value_log_test.cc: [while (v >>= 7) size++]. *)
Fixpoint SizeOfVariant32_loop (fuel : nat) (v size : N) : N :=
  match fuel with
  | O => size
  | S f =>
      let v' := N.shiftr v 7 in
      if v' =? 0 then size else SizeOfVariant32_loop f v' (size + 1)
  end.

Definition SizeOfVariant32 (v : N) : N := SizeOfVariant32_loop 5 v 1.

(** [SizeOf] of db/value_log_test.cc: the bytes one record occupies. *)
Definition SizeOf (key val : string) : N :=
  SizeOfVariant32 (u32 (len key)) + SizeOfVariant32 (u32 (len val))
  + len key + len val.

(** Modelled from the spec: [ValueBatch] of table/vlog (absent), a buffer of
    records whose handles become absolute once [Finalize] assigns the file
    number and the base offset. *)
Record ValueBatch : Type := {
  vb_records : list (string * string);
  vb_number : N;
  vb_offset : N
}.

Definition ValueBatch_empty : ValueBatch :=
  {| vb_records := []; vb_number := 0; vb_offset := 0 |}.

Definition ValueBatch_Put (key value : string) (vb : ValueBatch) : ValueBatch :=
  {| vb_records := vb_records vb ++ [(key, value)];
     vb_number := vb_number vb; vb_offset := vb_offset vb |}.

Definition ValueBatch_Finalize (num base : N) (vb : ValueBatch) : ValueBatch :=
  {| vb_records := vb_records vb; vb_number := num; vb_offset := base |}.

(** The records of a file or of a finalized batch with the handle of each:
    records are laid out back to back from [off]. *)
Fixpoint handles_from (num off : N) (recs : list (string * string))
    : list (string * string * ValueHandle) :=
  match recs with
  | [] => []
  | (k, v) :: rest =>
      (k, v, {| table_ := num; offset_ := off; size_ := u32 (SizeOf k v) |})
      :: handles_from num (u32 (off + SizeOf k v)) rest
  end.

Definition ValueBatch_handles (vb : ValueBatch)
    : list (string * string * ValueHandle) :=
  handles_from (vb_number vb) (vb_offset vb) (vb_records vb).

Fixpoint batch_bytes (recs : list (string * string)) : N :=
  match recs with
  | [] => 0
  | (k, v) :: rest => SizeOf k v + batch_bytes rest
  end.

(** ** The state of a garbage collection *)

Record GarbageCollection : Type := {
  number : N;
  value_batch : ValueBatch;
  rewrites : list (WriteBatch * ValueLogGCWriteCallback);
  total_size : N;
  total_entries : N;
  discard_size : N;
  discard_entries : N;
  obsolete_sequence : N
}.

(** [GarbageCollection()] with [number] set, as [PickGC] returns it. *)
Definition GarbageCollection_new (num : N) : GarbageCollection :=
  {| number := num; value_batch := ValueBatch_empty; rewrites := [];
     total_size := 0; total_entries := 0; discard_size := 0;
     discard_entries := 0; obsolete_sequence := 0 |}.

(** ** ValueLogImpl *)

Record Options : Type := {
  blob_gc_interval : Z;
  blob_gc_size_discard_threshold : N;
  blob_gc_num_discard_threshold : N
}.

Record VLogFileMeta : Type := {
  meta_number : N;
  file_size : N
}.

Record BlobVersionEdit : Type := {
  added : list VLogFileMeta;
  deleted : list (N * N)
}.

#[global] Instance VLogFileMeta_eq_dec : EqDecision VLogFileMeta.
Proof. solve_decision. Defined.

#[global] Instance BlobVersionEdit_eq_dec : EqDecision BlobVersionEdit.
Proof. solve_decision. Defined.

(** The calls made on collaborators, in program order. *)
Inductive Event : Type :=
| EvIterOpen (num : N)                      (* NewVLogFileIterator gave an iterator *)
| EvLSMGet (key : string)                   (* db_->Get in Collect *)
| EvNewFile (num : N) (s : Status)          (* env_->NewAppendableRandomAccessFile *)
| EvAddBatch (num : N) (bytes : N)          (* builder->AddBatch *)
| EvFileSync (num : N)                      (* file->Sync *)
| EvFinish (num : N)                        (* builder->Finish *)
| EvFileClose (num : N)                     (* file->Close *)
| EvRegister (num : N)                      (* ro_files_.emplace *)
| EvLSMWrite (key : string) (h : ValueHandle) (s : Status)  (* db->Write *)
| EvLSMSync (s : Status)                    (* db_->Sync *)
| EvVersionEdit (edit : BlobVersionEdit) (s : Status)       (* LogAndApply *)
| EvSchedule.                               (* env_->Schedule(&BGWork) *)

#[global] Instance Event_eq_dec : EqDecision Event.
Proof. solve_decision. Defined.

(** What the four calls that write a new file report, and the records that
    are in the file afterwards when one of them fails. *)
Record FileOutcome : Type := {
  add_batch_status : Status;   (* builder->AddBatch *)
  file_sync_status : Status;   (* file->Sync *)
  finish_status : Status;      (* builder->Finish *)
  file_close_status : Status;  (* file->Close *)
  records_reached : nat
}.

Definition file_calls_ok (o : FileOutcome) : bool :=
  ok (add_batch_status o) && ok (file_sync_status o) && ok (finish_status o)
  && ok (file_close_status o).

(** The records a file holds once [recs] have been written to it. *)
Definition written (o : FileOutcome) (recs : list (string * string))
    : list (string * string) :=
  if file_calls_ok o then recs else take (records_reached o) recs.

(** What the environment decides: the clock (seconds), the outcome of
    creating a file, the outcome of writing a file, the outcome of appending
    to the manifest, and the contents of the uninitialised local [valueType]
    of [Collect]. *)
Record Env : Type := {
  now : Z;
  new_file_status : N → Status;
  file_outcome : N → FileOutcome;
  manifest_status : Status;
  stack_valueType : ValueType
}.

Record ValueLogImpl : Type := {
  options_ : Options;
  env_ : Env;
  db_ : DBImpl;
  vlog_files_ : gmap N (list (string * string));  (* the .vlog files on disk *)
  vlog_file_number_ : N;                          (* current maximum file number *)
  shutdown_ : bool;
  rwfile_ : N;                                    (* number of the file being built *)
  ro_files_ : gmap N VLogFileMeta;                (* read-only vlog files *)
  pending_outputs_ : gset N;                      (* GC thread is writing to these files *)
  obsolete_files_ : gmap N N;                     (* <file_number, sequence> *)
  gc_pointer_ : N;
  manual_gc_ : bool;
  manual_gc_number : N;
  bg_garbage_collection_ : bool;
  gc_last_run_ : Z;
  bg_error_ : Status;
  trace_ : list Event
}.

Definition set_db_ (x : DBImpl) (st : ValueLogImpl) : ValueLogImpl :=
  {| options_ := options_ st; env_ := env_ st; db_ := x;
     vlog_files_ := vlog_files_ st; vlog_file_number_ := vlog_file_number_ st;
     shutdown_ := shutdown_ st; rwfile_ := rwfile_ st; ro_files_ := ro_files_ st;
     pending_outputs_ := pending_outputs_ st; obsolete_files_ := obsolete_files_ st;
     gc_pointer_ := gc_pointer_ st; manual_gc_ := manual_gc_ st;
     manual_gc_number := manual_gc_number st;
     bg_garbage_collection_ := bg_garbage_collection_ st;
     gc_last_run_ := gc_last_run_ st; bg_error_ := bg_error_ st;
     trace_ := trace_ st |}.

Definition set_vlog_files_ (x : gmap N (list (string * string)))
    (st : ValueLogImpl) : ValueLogImpl :=
  {| options_ := options_ st; env_ := env_ st; db_ := db_ st;
     vlog_files_ := x; vlog_file_number_ := vlog_file_number_ st;
     shutdown_ := shutdown_ st; rwfile_ := rwfile_ st; ro_files_ := ro_files_ st;
     pending_outputs_ := pending_outputs_ st; obsolete_files_ := obsolete_files_ st;
     gc_pointer_ := gc_pointer_ st; manual_gc_ := manual_gc_ st;
     manual_gc_number := manual_gc_number st;
     bg_garbage_collection_ := bg_garbage_collection_ st;
     gc_last_run_ := gc_last_run_ st; bg_error_ := bg_error_ st;
     trace_ := trace_ st |}.

Definition set_vlog_file_number_ (x : N) (st : ValueLogImpl) : ValueLogImpl :=
  {| options_ := options_ st; env_ := env_ st; db_ := db_ st;
     vlog_files_ := vlog_files_ st; vlog_file_number_ := x;
     shutdown_ := shutdown_ st; rwfile_ := rwfile_ st; ro_files_ := ro_files_ st;
     pending_outputs_ := pending_outputs_ st; obsolete_files_ := obsolete_files_ st;
     gc_pointer_ := gc_pointer_ st; manual_gc_ := manual_gc_ st;
     manual_gc_number := manual_gc_number st;
     bg_garbage_collection_ := bg_garbage_collection_ st;
     gc_last_run_ := gc_last_run_ st; bg_error_ := bg_error_ st;
     trace_ := trace_ st |}.

Definition set_ro_files_ (x : gmap N VLogFileMeta) (st : ValueLogImpl)
    : ValueLogImpl :=
  {| options_ := options_ st; env_ := env_ st; db_ := db_ st;
     vlog_files_ := vlog_files_ st; vlog_file_number_ := vlog_file_number_ st;
     shutdown_ := shutdown_ st; rwfile_ := rwfile_ st; ro_files_ := x;
     pending_outputs_ := pending_outputs_ st; obsolete_files_ := obsolete_files_ st;
     gc_pointer_ := gc_pointer_ st; manual_gc_ := manual_gc_ st;
     manual_gc_number := manual_gc_number st;
     bg_garbage_collection_ := bg_garbage_collection_ st;
     gc_last_run_ := gc_last_run_ st; bg_error_ := bg_error_ st;
     trace_ := trace_ st |}.

Definition set_pending_outputs_ (x : gset N) (st : ValueLogImpl) : ValueLogImpl :=
  {| options_ := options_ st; env_ := env_ st; db_ := db_ st;
     vlog_files_ := vlog_files_ st; vlog_file_number_ := vlog_file_number_ st;
     shutdown_ := shutdown_ st; rwfile_ := rwfile_ st; ro_files_ := ro_files_ st;
     pending_outputs_ := x; obsolete_files_ := obsolete_files_ st;
     gc_pointer_ := gc_pointer_ st; manual_gc_ := manual_gc_ st;
     manual_gc_number := manual_gc_number st;
     bg_garbage_collection_ := bg_garbage_collection_ st;
     gc_last_run_ := gc_last_run_ st; bg_error_ := bg_error_ st;
     trace_ := trace_ st |}.

Definition set_obsolete_files_ (x : gmap N N) (st : ValueLogImpl) : ValueLogImpl :=
  {| options_ := options_ st; env_ := env_ st; db_ := db_ st;
     vlog_files_ := vlog_files_ st; vlog_file_number_ := vlog_file_number_ st;
     shutdown_ := shutdown_ st; rwfile_ := rwfile_ st; ro_files_ := ro_files_ st;
     pending_outputs_ := pending_outputs_ st; obsolete_files_ := x;
     gc_pointer_ := gc_pointer_ st; manual_gc_ := manual_gc_ st;
     manual_gc_number := manual_gc_number st;
     bg_garbage_collection_ := bg_garbage_collection_ st;
     gc_last_run_ := gc_last_run_ st; bg_error_ := bg_error_ st;
     trace_ := trace_ st |}.

Definition set_gc_pointer_ (x : N) (st : ValueLogImpl) : ValueLogImpl :=
  {| options_ := options_ st; env_ := env_ st; db_ := db_ st;
     vlog_files_ := vlog_files_ st; vlog_file_number_ := vlog_file_number_ st;
     shutdown_ := shutdown_ st; rwfile_ := rwfile_ st; ro_files_ := ro_files_ st;
     pending_outputs_ := pending_outputs_ st; obsolete_files_ := obsolete_files_ st;
     gc_pointer_ := x; manual_gc_ := manual_gc_ st;
     manual_gc_number := manual_gc_number st;
     bg_garbage_collection_ := bg_garbage_collection_ st;
     gc_last_run_ := gc_last_run_ st; bg_error_ := bg_error_ st;
     trace_ := trace_ st |}.

Definition set_manual_gc_ (x : bool) (st : ValueLogImpl) : ValueLogImpl :=
  {| options_ := options_ st; env_ := env_ st; db_ := db_ st;
     vlog_files_ := vlog_files_ st; vlog_file_number_ := vlog_file_number_ st;
     shutdown_ := shutdown_ st; rwfile_ := rwfile_ st; ro_files_ := ro_files_ st;
     pending_outputs_ := pending_outputs_ st; obsolete_files_ := obsolete_files_ st;
     gc_pointer_ := gc_pointer_ st; manual_gc_ := x;
     manual_gc_number := manual_gc_number st;
     bg_garbage_collection_ := bg_garbage_collection_ st;
     gc_last_run_ := gc_last_run_ st; bg_error_ := bg_error_ st;
     trace_ := trace_ st |}.

Definition set_manual_gc_number (x : N) (st : ValueLogImpl) : ValueLogImpl :=
  {| options_ := options_ st; env_ := env_ st; db_ := db_ st;
     vlog_files_ := vlog_files_ st; vlog_file_number_ := vlog_file_number_ st;
     shutdown_ := shutdown_ st; rwfile_ := rwfile_ st; ro_files_ := ro_files_ st;
     pending_outputs_ := pending_outputs_ st; obsolete_files_ := obsolete_files_ st;
     gc_pointer_ := gc_pointer_ st; manual_gc_ := manual_gc_ st;
     manual_gc_number := x;
     bg_garbage_collection_ := bg_garbage_collection_ st;
     gc_last_run_ := gc_last_run_ st; bg_error_ := bg_error_ st;
     trace_ := trace_ st |}.

Definition set_bg_garbage_collection_ (x : bool) (st : ValueLogImpl)
    : ValueLogImpl :=
  {| options_ := options_ st; env_ := env_ st; db_ := db_ st;
     vlog_files_ := vlog_files_ st; vlog_file_number_ := vlog_file_number_ st;
     shutdown_ := shutdown_ st; rwfile_ := rwfile_ st; ro_files_ := ro_files_ st;
     pending_outputs_ := pending_outputs_ st; obsolete_files_ := obsolete_files_ st;
     gc_pointer_ := gc_pointer_ st; manual_gc_ := manual_gc_ st;
     manual_gc_number := manual_gc_number st;
     bg_garbage_collection_ := x;
     gc_last_run_ := gc_last_run_ st; bg_error_ := bg_error_ st;
     trace_ := trace_ st |}.

Definition set_gc_last_run_ (x : Z) (st : ValueLogImpl) : ValueLogImpl :=
  {| options_ := options_ st; env_ := env_ st; db_ := db_ st;
     vlog_files_ := vlog_files_ st; vlog_file_number_ := vlog_file_number_ st;
     shutdown_ := shutdown_ st; rwfile_ := rwfile_ st; ro_files_ := ro_files_ st;
     pending_outputs_ := pending_outputs_ st; obsolete_files_ := obsolete_files_ st;
     gc_pointer_ := gc_pointer_ st; manual_gc_ := manual_gc_ st;
     manual_gc_number := manual_gc_number st;
     bg_garbage_collection_ := bg_garbage_collection_ st;
     gc_last_run_ := x; bg_error_ := bg_error_ st;
     trace_ := trace_ st |}.

Definition set_bg_error_ (x : Status) (st : ValueLogImpl) : ValueLogImpl :=
  {| options_ := options_ st; env_ := env_ st; db_ := db_ st;
     vlog_files_ := vlog_files_ st; vlog_file_number_ := vlog_file_number_ st;
     shutdown_ := shutdown_ st; rwfile_ := rwfile_ st; ro_files_ := ro_files_ st;
     pending_outputs_ := pending_outputs_ st; obsolete_files_ := obsolete_files_ st;
     gc_pointer_ := gc_pointer_ st; manual_gc_ := manual_gc_ st;
     manual_gc_number := manual_gc_number st;
     bg_garbage_collection_ := bg_garbage_collection_ st;
     gc_last_run_ := gc_last_run_ st; bg_error_ := x;
     trace_ := trace_ st |}.

Definition set_trace_ (x : list Event) (st : ValueLogImpl) : ValueLogImpl :=
  {| options_ := options_ st; env_ := env_ st; db_ := db_ st;
     vlog_files_ := vlog_files_ st; vlog_file_number_ := vlog_file_number_ st;
     shutdown_ := shutdown_ st; rwfile_ := rwfile_ st; ro_files_ := ro_files_ st;
     pending_outputs_ := pending_outputs_ st; obsolete_files_ := obsolete_files_ st;
     gc_pointer_ := gc_pointer_ st; manual_gc_ := manual_gc_ st;
     manual_gc_number := manual_gc_number st;
     bg_garbage_collection_ := bg_garbage_collection_ st;
     gc_last_run_ := gc_last_run_ st; bg_error_ := bg_error_ st;
     trace_ := x |}.

(** Record one call on a collaborator. *)
Definition emit (e : Event) (st : ValueLogImpl) : ValueLogImpl :=
  set_trace_ (trace_ st ++ [e]) st.

(** *** Members declared in blob_vlog_impl.h *)

Definition CurrentFileNumber (st : ValueLogImpl) : N := vlog_file_number_ st.

(** [return ++vlog_file_number_;] *)
Definition NewFileNumber (st : ValueLogImpl) : N * ValueLogImpl :=
  let n := u64 (vlog_file_number_ st + 1) in
  (n, set_vlog_file_number_ n st).

(** Modelled from the spec: [NewVLogFileIterator] (blob_vlog_impl.cc, absent):
    a sequential iterator over the records of file [num], each with the
    offset and size [GetValueHandle] reports; no iterator (nullptr) when
    there is no such file. *)
Definition NewVLogFileIterator (num : N) (st : ValueLogImpl)
    : option (list (string * string * ValueHandle)) :=
  match vlog_files_ st !! num with
  | None => None
  | Some recs => Some (handles_from num 0 recs)
  end.

(** [std::map::emplace]: nothing happens when the key is present. *)
Definition emplace {V} (k : N) (v : V) (m : gmap N V) : gmap N V :=
  match m !! k with
  | Some _ => m
  | None => <[k := v]> m
  end.

(** Modelled from the spec: [LogAndApply] (blob_vlog_impl.cc, absent): write
    the edit to the manifest log and sync; then merge [added] into the live
    files and [deleted] into the obsolete files. *)
Definition LogAndApply (edit : BlobVersionEdit) (st : ValueLogImpl)
    : Status * ValueLogImpl :=
  let s := manifest_status (env_ st) in
  let st1 := emit (EvVersionEdit edit s) st in
  if negb (ok s) then (s, st1)
  else
    let ro := foldl (fun m f => <[meta_number f := f]> m) (ro_files_ st1) (added edit) in
    let ob := foldl (fun m d => <[fst d := snd d]> m) (obsolete_files_ st1) (deleted edit) in
    (OK, set_obsolete_files_ ob (set_ro_files_ ro st1)).

(** *** blob_vlog_gc.cc *)

Definition RecordBGError (s : Status) (st : ValueLogImpl) : ValueLogImpl :=
  set_bg_error_ s st.

(** [std::map::lower_bound]: the least key that is not below [n]. *)
Definition least_from (n : N) (keys : list N) : option N :=
  foldr (fun k acc =>
           if decide (n ≤ k)
           then Some (match acc with Some k' => N.min k k' | None => k end)
           else acc) None keys.

Definition lower_bound {V} (m : gmap N V) (n : N) : option N :=
  least_from n (map_to_list m).*1.

(** The [while (true)] loop of [PickGC]; [None] when [fuel] iterations did
    not leave it. *)
Fixpoint PickGC_loop (fuel : nat) (ro : gmap N VLogFileMeta) (ob : gmap N N)
    (num : N) : option (option N) :=
  match fuel with
  | O => None
  | S f =>
      match lower_bound ro num with
      | None => Some None
      | Some k =>
          match ob !! k with
          | None => Some (Some k)
          | Some _ => PickGC_loop f ro ob (u64 (k + 1))
          end
      end
  end.

Definition PickGC (num : N) (st : ValueLogImpl)
    : option (option GarbageCollection) :=
  match PickGC_loop (S (size (ro_files_ st))) (ro_files_ st) (obsolete_files_ st) num with
  | None => None
  | Some None => Some None
  | Some (Some k) => Some (Some (GarbageCollection_new k))
  end.

(** The locals of [Collect] that live across iterations. *)
Record CollectLocals : Type := {
  c_s : Status;
  c_handle_encoding : string;
  c_valueType : ValueType;
  c_handle : ValueHandle;
  c_current : ValueHandle
}.

(** [iter->GetValueHandle(&current)]: offset and size of the record. *)
Definition GetValueHandle (item : ValueHandle) (current : ValueHandle)
    : ValueHandle :=
  {| table_ := table_ current; offset_ := offset_ item; size_ := size_ item |}.

Definition count_total (sz : N) (gc : GarbageCollection) : GarbageCollection :=
  {| number := number gc; value_batch := value_batch gc; rewrites := rewrites gc;
     total_size := u32 (total_size gc + sz);
     total_entries := u32 (total_entries gc + 1);
     discard_size := discard_size gc; discard_entries := discard_entries gc;
     obsolete_sequence := obsolete_sequence gc |}.

Definition count_discard (sz : N) (gc : GarbageCollection) : GarbageCollection :=
  {| number := number gc; value_batch := value_batch gc; rewrites := rewrites gc;
     total_size := total_size gc; total_entries := total_entries gc;
     discard_size := u32 (discard_size gc + sz);
     discard_entries := u32 (discard_entries gc + 1);
     obsolete_sequence := obsolete_sequence gc |}.

Definition keep_entry (key value : string) (handle : ValueHandle)
    (gc : GarbageCollection) : GarbageCollection :=
  {| number := number gc;
     value_batch := ValueBatch_Put key value (value_batch gc);
     rewrites := rewrites gc ++ [([], {| key_ := key; handle_ := handle |})];
     total_size := total_size gc; total_entries := total_entries gc;
     discard_size := discard_size gc; discard_entries := discard_entries gc;
     obsolete_sequence := obsolete_sequence gc |}.

(** The [for (iter->SeekToFirst(); iter->Valid(); iter->Next())] loop. *)
Fixpoint Collect_loop (items : list (string * string * ValueHandle))
    (loc : CollectLocals) (gc : GarbageCollection) (st : ValueLogImpl)
    : CollectLocals * GarbageCollection * ValueLogImpl :=
  match items with
  | [] => (loc, gc, st)
  | (key, value, item) :: rest =>
      let '(s, handle_encoding, valueType) :=
        DBImpl_Get (db_ st) key (c_handle_encoding loc) (c_valueType loc) in
      let st1 := emit (EvLSMGet key) st in
      if negb (ok s) && negb (IsNotFound s) then
        ({| c_s := IOError; c_handle_encoding := handle_encoding;
            c_valueType := valueType; c_handle := c_handle loc;
            c_current := c_current loc |}, gc, st1)
      else
        let current := GetValueHandle item (c_current loc) in
        let gc1 := count_total (size_ current) gc in
        let handle :=
          if bool_decide (valueType = kTypeValueHandle)
          then DecodeFrom handle_encoding (c_handle loc)
          else c_handle loc in
        let loc1 := {| c_s := s; c_handle_encoding := handle_encoding;
                       c_valueType := valueType; c_handle := handle;
                       c_current := current |} in
        if IsNotFound s || negb (bool_decide (valueType = kTypeValueHandle))
           || negb (bool_decide (handle = current))
        then Collect_loop rest loc1 (count_discard (size_ current) gc1) st1
        else Collect_loop rest loc1 (keep_entry key value handle gc1) st1
  end.

Definition Collect (gc : GarbageCollection) (st : ValueLogImpl)
    : Status * GarbageCollection * ValueLogImpl :=
  let num := number gc in
  if (CurrentFileNumber st <=? num) || (num =? 0) then (NonFatal, gc, st)
  else
    match NewVLogFileIterator num st with
    | None => (NonFatal, gc, st)
    | Some items =>
        let st1 := emit (EvIterOpen num) st in
        let loc0 := {| c_s := OK; c_handle_encoding := EmptyString;
                       c_valueType := stack_valueType (env_ st);
                       c_handle := ValueHandle_default;
                       c_current := {| table_ := num; offset_ := 0; size_ := 0 |} |} in
        let '(loc, gc1, st2) := Collect_loop items loc0 gc st1 in
        (c_s loc, gc1, st2)
    end.

(** [RewriteLSMHandler]: [iter] is an index into [gc->rewrites], [end] its
    length. *)
Record RewriteLSMHandler : Type := {
  h_handle_encoding : string;
  h_iter : nat;
  h_s : Status
}.

(** [RewriteLSMHandler::operator()]: the bool tells [Iterate] to go on. *)
Definition RewriteLSMHandler_call (key value : string) (handle : ValueHandle)
    (h : RewriteLSMHandler) (rw : list (WriteBatch * ValueLogGCWriteCallback))
    (st : ValueLogImpl)
    : Result (bool * RewriteLSMHandler
              * list (WriteBatch * ValueLogGCWriteCallback) * ValueLogImpl) :=
  if shutdown_ st then
    Ret (false, {| h_handle_encoding := h_handle_encoding h; h_iter := h_iter h;
                   h_s := IOError |}, rw, st)
  else
    let handle_encoding := EncodeTo handle in
    match rw !! h_iter h with
    | None => Crash PastTheEnd
    | Some (batch, cb) =>
        let batch1 := WriteBatchInternal_Put batch key handle_encoding kTypeValueHandle in
        let rw1 := <[h_iter h := (batch1, cb)]> rw in
        let '(s, db1) := DBImpl_Write (db_ st) batch1 cb in
        let st1 := emit (EvLSMWrite key handle s) (set_db_ db1 st) in
        if negb (ok s) then
          Ret (false, {| h_handle_encoding := handle_encoding; h_iter := h_iter h;
                         h_s := IOError |}, rw1, st1)
        else
          let h1 := {| h_handle_encoding := handle_encoding; h_iter := S (h_iter h);
                       h_s := s |} in
          if bool_decide (S (h_iter h) = length rw1) then Ret (false, h1, rw1, st1)
          else Ret (true, h1, rw1, st1)
    end.

(** Modelled from the spec: [ValueBatch::Iterate] (table/vlog, absent): the
    handler is called on every record of the batch, in order, until it asks
    to stop. *)
Fixpoint Iterate_loop (items : list (string * string * ValueHandle))
    (h : RewriteLSMHandler) (rw : list (WriteBatch * ValueLogGCWriteCallback))
    (st : ValueLogImpl)
    : Result (RewriteLSMHandler * list (WriteBatch * ValueLogGCWriteCallback)
              * ValueLogImpl) :=
  match items with
  | [] => Ret (h, rw, st)
  | (key, value, handle) :: rest =>
      match RewriteLSMHandler_call key value handle h rw st with
      | Crash f => Crash f
      | Ret (continue, h1, rw1, st1) =>
          if continue then Iterate_loop rest h1 rw1 st1 else Ret (h1, rw1, st1)
      end
  end.

Definition ValueBatch_Iterate (vb : ValueBatch) (h : RewriteLSMHandler)
    (rw : list (WriteBatch * ValueLogGCWriteCallback)) (st : ValueLogImpl)
    : Result (Status * RewriteLSMHandler
              * list (WriteBatch * ValueLogGCWriteCallback) * ValueLogImpl) :=
  match Iterate_loop (ValueBatch_handles vb) h rw st with
  | Crash f => Crash f
  | Ret (h1, rw1, st1) => Ret (OK, h1, rw1, st1)
  end.

(** [gc->discard * 100 / gc->total] on [uint32_t]. *)
Definition discard_percent (discard total : N) : N := u32 (discard * 100) / total.

Definition below_threshold (o : Options) (gc : GarbageCollection) : bool :=
  (discard_percent (discard_size gc) (total_size gc) <? blob_gc_size_discard_threshold o)
  && (discard_percent (discard_entries gc) (total_entries gc)
      <? blob_gc_num_discard_threshold o).

Definition set_obsolete_sequence (x : N) (gc : GarbageCollection)
    : GarbageCollection :=
  {| number := number gc; value_batch := value_batch gc; rewrites := rewrites gc;
     total_size := total_size gc; total_entries := total_entries gc;
     discard_size := discard_size gc; discard_entries := discard_entries gc;
     obsolete_sequence := x |}.

Definition set_batches (vb : ValueBatch)
    (rw : list (WriteBatch * ValueLogGCWriteCallback)) (gc : GarbageCollection)
    : GarbageCollection :=
  {| number := number gc; value_batch := vb; rewrites := rw;
     total_size := total_size gc; total_entries := total_entries gc;
     discard_size := discard_size gc; discard_entries := discard_entries gc;
     obsolete_sequence := obsolete_sequence gc |}.

(** Step 1 of the copy: the finalized batch goes to the new file [num], which
    is synced, finished, closed and then added to [ro_files_] in advance.
    The Status of [AddBatch], [Sync], [Finish] and [Close] is discarded: the
    four calls are made whatever they report, and the file holds what the
    environment let through. *)
Definition write_new_vlog (num : N) (vb : ValueBatch) (st : ValueLogImpl)
    : VLogFileMeta * ValueLogImpl :=
  let bytes := u32 (batch_bytes (vb_records vb)) in
  let recs := written (file_outcome (env_ st) num) (vb_records vb) in
  let st1 := emit (EvAddBatch num bytes)
               (set_vlog_files_ (<[num := recs]> (vlog_files_ st)) st) in
  let st2 := emit (EvFileClose num) (emit (EvFinish num) (emit (EvFileSync num) st1)) in
  let f := {| meta_number := num; file_size := bytes |} in
  (f, emit (EvRegister num) (set_ro_files_ (emplace num f (ro_files_ st2)) st2)).

(** Steps 2 and 3 of the copy: the handles of the finalized batch [vb] are
    rewritten in the LSM, the LSM is synced, and the version edit adds the new
    file [f] and marks the collected file obsolete. *)
Definition rewrite_to_LSM (f : VLogFileMeta) (vb : ValueBatch)
    (gc : GarbageCollection) (st : ValueLogImpl)
    : Result (Status * GarbageCollection * ValueLogImpl) :=
  (* 2. rewrite to LSM *)
  let handler := {| h_handle_encoding := EmptyString; h_iter := O; h_s := OK |} in
  match ValueBatch_Iterate vb handler (rewrites gc) st with
  | Crash e => Crash e
  | Ret (s1, handler1, rw1, st5) =>
      let gc1 := set_batches vb rw1 gc in
      if negb (ok s1) || negb (ok (h_s handler1)) then Ret (IOError, gc1, st5)
      else
        let s2 := DBImpl_Sync (db_ st5) in
        let st6 := emit (EvLSMSync s2) st5 in
        if negb (ok s2) then Ret (s2, gc1, st6)
        else
          (* 3. mark old file as obsolete *)
          let gc2 := set_obsolete_sequence (DBImpl_LatestSequence (db_ st6)) gc1 in
          let edit := {| added := [f];
                         deleted := [(number gc2, obsolete_sequence gc2)] |} in
          let '(s3, st7) := LogAndApply edit st6 in
          Ret (s3, gc2, st7)
  end.

Definition Rewrite (gc : GarbageCollection) (st : ValueLogImpl)
    : Result (Status * GarbageCollection * ValueLogImpl) :=
  (* the two Log calls evaluate both ratios *)
  if (total_size gc =? 0) || (total_entries gc =? 0) then Crash DivisionByZero
  else if below_threshold (options_ st) gc then Ret (NonFatal, gc, st)
  else if discard_entries gc =? total_entries gc then
    let gc1 := set_obsolete_sequence (DBImpl_LatestSequence (db_ st)) gc in
    let edit := {| added := [];
                   deleted := [(number gc1, obsolete_sequence gc1)] |} in
    let '(s, st1) := LogAndApply edit st in
    Ret (s, gc1, st1)
  else
    let '(num, st1) := NewFileNumber st in
    let s := new_file_status (env_ st1) num in
    let st2 := emit (EvNewFile num s) st1 in
    if negb (ok s) then Ret (s, gc, st2)
    else
      let st3 := set_pending_outputs_ ({[num]} ∪ pending_outputs_ st2) st2 in
      (* 1. write to ValueLog *)
      let vb := ValueBatch_Finalize num 0 (value_batch gc) in
      let '(f, st4) := write_new_vlog num vb st3 in
      rewrite_to_LSM f vb gc st4.

Definition fatal (s : Status) : bool := negb (ok s) && negb (IsNonFatal s).

(** The block of [BackgroundGC] under [rwlock_]: the pick and the update of
    [manual_gc_] or [gc_pointer_].  [None] when [PickGC] does not return. *)
Definition BackgroundGC_pick (st : ValueLogImpl)
    : option (option GarbageCollection * ValueLogImpl) :=
  if manual_gc_ st then
    match PickGC (manual_gc_number st) st with
    | None => None
    | Some gc => Some (gc, set_manual_gc_ false st)
    end
  else
    match PickGC (gc_pointer_ st) st with
    | None => None
    | Some gc =>
        Some (gc, set_gc_pointer_
                    (match gc with Some g => u64 (number g + 1) | None => 0 end) st)
    end.

Definition BackgroundGC (st : ValueLogImpl) : Result ValueLogImpl :=
  match BackgroundGC_pick st with
  | None => Crash NoProgress
  | Some (None, st1) => Ret (RecordBGError NonFatal st1)
  | Some (Some gc, st1) =>
      let '(s, gc1, st2) := Collect gc st1 in
      if fatal s then Ret (RecordBGError s st2)
      else
        match Rewrite gc1 st2 with
        | Crash e => Crash e
        | Ret (s1, _, st3) =>
            if fatal s1 then Ret (RecordBGError s1 st3)
            else Ret (RecordBGError s1 (set_gc_last_run_ (now (env_ st3)) st3))
        end
  end.

Definition MaybeScheduleGC (st : ValueLogImpl) : ValueLogImpl :=
  if bg_garbage_collection_ st then st
  else if shutdown_ st then st
  else if fatal (bg_error_ st) then st
  else
    (* std::chrono::duration<int> *)
    let duration := i32 (now (env_ st) - gc_last_run_ st) in
    if manual_gc_ st || (blob_gc_interval (options_ st) <? duration)%Z then
      emit EvSchedule (set_bg_garbage_collection_ true st)
    else st.

Definition BGCall (st : ValueLogImpl) : Result ValueLogImpl :=
  if negb (bg_garbage_collection_ st) then Crash AssertionFailed
  else
    let r :=
      if shutdown_ st then Ret st
      else if fatal (bg_error_ st) then Ret st
      else BackgroundGC st in
    match r with
    | Crash e => Crash e
    | Ret st1 => Ret (MaybeScheduleGC (set_bg_garbage_collection_ false st1))
    end.

(** [BGWork] is the entry point handed to the scheduler. *)
Definition BGWork (st : ValueLogImpl) : Result ValueLogImpl := BGCall st.

Definition ManualGC (num : N) (st : ValueLogImpl) : ValueLogImpl :=
  MaybeScheduleGC (set_manual_gc_number num (set_manual_gc_ true st)).

(** Modelled from the spec: [BlobDB::VLogBGError] (db/blob_db.cc, absent)
    reports the background status of the value log. *)
Definition VLogBGError (st : ValueLogImpl) : Status := bg_error_ st.

(** ** Vocabulary of the properties *)

(** The pending batch and the rewrites go in pairs: the i-th rewrite is an
    empty [WriteBatch] with the callback for the key of the i-th record. *)
Definition paired (recs : list (string * string))
    (rw : list (WriteBatch * ValueLogGCWriteCallback)) : Prop :=
  Forall2 (fun r p => fst p = [] ∧ key_ (snd p) = fst r) recs rw.

(** The four counters of a collection hold [uint32_t] values. *)
Definition counters_in_range (gc : GarbageCollection) : Prop :=
  total_size gc < 2 ^ 32 ∧ total_entries gc < 2 ^ 32
  ∧ discard_size gc < 2 ^ 32 ∧ discard_entries gc < 2 ^ 32.

(** Every Handle entry of the LSM carries an encoded handle. *)
Definition handles_decodable (db : DBImpl) : Prop :=
  map_Forall (fun _ e => fst e = kTypeValueHandle → is_Some (parse_handle (snd e)))
             (lsm_table db).

(** The handle of a record of file [num] as the iterator reports it. *)
Definition current_of (num : N) (it : string * string * ValueHandle) : ValueHandle :=
  {| table_ := num; offset_ := offset_ (snd it); size_ := size_ (snd it) |}.

(** A record is dead when the LSM has no entry for its key (none, or a
    deletion), or an entry that is not a Handle, or a Handle other than the
    record's own. *)
Definition dead (db : DBImpl) (num : N) (it : string * string * ValueHandle) : bool :=
  match lsm_table db !! fst (fst it) with
  | None => true
  | Some (kTypeValueHandle, v) =>
      negb (bool_decide (parse_handle v = Some (current_of num it)))
  | Some (_, _) => true
  end.

Definition live (db : DBImpl) (num : N) (it : string * string * ValueHandle) : bool :=
  negb (dead db num it).

(** The records the loop of [Collect] classifies: those before the first
    record whose lookup fails with an error. *)
Fixpoint scanned (db : DBImpl) (items : list (string * string * ValueHandle))
    : list (string * string * ValueHandle) :=
  match items with
  | [] => []
  | it :: rest =>
      if decide (fst (fst it) ∈ lsm_read_error db) then [] else it :: scanned db rest
  end.

Fixpoint size_sum (items : list (string * string * ValueHandle)) : N :=
  match items with
  | [] => 0
  | it :: rest => size_ (snd it) + size_sum rest
  end.

Definition count (items : list (string * string * ValueHandle)) : N :=
  N.of_nat (length items).

Definition record_of (it : string * string * ValueHandle) : string * string :=
  (fst (fst it), snd (fst it)).

Definition rewrite_of (num : N) (it : string * string * ValueHandle)
    : WriteBatch * ValueLogGCWriteCallback :=
  ([], {| key_ := fst (fst it); handle_ := current_of num it |}).

(** What [Collect] has done to [gc] once it has classified the records [sc]
    of file [num]: every record is counted in the totals, the dead ones in
    the discards, and the live ones are in the pending batch, each with the
    callback for its key and handle. *)
Record collected (db : DBImpl) (num : N) (sc : list (string * string * ValueHandle))
    (gc gc' : GarbageCollection) : Prop := {
  col_number : number gc' = number gc;
  col_sequence : obsolete_sequence gc' = obsolete_sequence gc;
  col_total_entries : total_entries gc' = u32 (total_entries gc + count sc);
  col_total_size : total_size gc' = u32 (total_size gc + size_sum sc);
  col_discard_entries :
    discard_entries gc'
    = u32 (discard_entries gc + count (List.filter (dead db num) sc));
  col_discard_size :
    discard_size gc'
    = u32 (discard_size gc + size_sum (List.filter (dead db num) sc));
  col_batch :
    vb_records (value_batch gc')
    = vb_records (value_batch gc) ++ map record_of (List.filter (live db num) sc);
  col_rewrites :
    rewrites gc'
    = rewrites gc ++ map (rewrite_of num) (List.filter (live db num) sc)
}.

(** ** A small database used to exercise the statements

    File 1 holds three records.  Key [c] was deleted, [b] was overwritten by
    a small value kept in the LSM, [a] still points at its record. *)
Module Scenario.

Definition key_a : string := "a".
Definition key_b : string := "b".
Definition key_c : string := "c".

Definition file_1 : list (string * string) :=
  [(key_c, "z"%string); (key_b, "y"%string); (key_a, "x"%string)].

Definition h_a : ValueHandle := {| table_ := 1; offset_ := 8; size_ := 4 |}.
Definition h_c : ValueHandle := {| table_ := 1; offset_ := 0; size_ := 4 |}.

Definition lsm : DBImpl :=
  {| lsm_table := {[ key_a := (kTypeValueHandle, EncodeTo h_a);
                     key_b := (kTypeValue, "zz"%string);
                     key_c := (kTypeDeletion, EmptyString) ]};
     lsm_sequence := 7; lsm_read_error := ∅;
     lsm_write_status := OK; lsm_sync_status := OK |}.

(** All four calls on a new file succeed. *)
Definition file_written : FileOutcome :=
  {| add_batch_status := OK; file_sync_status := OK; finish_status := OK;
     file_close_status := OK; records_reached := 0 |}.

Definition env : Env :=
  {| now := 1000; new_file_status := fun _ => OK;
     file_outcome := fun _ => file_written; manifest_status := OK;
     stack_valueType := kTypeValue |}.

Definition options : Options :=
  {| blob_gc_interval := 600; blob_gc_size_discard_threshold := 50;
     blob_gc_num_discard_threshold := 50 |}.

(** File 2 is being built; nothing has been collected yet. *)
Definition st0 : ValueLogImpl :=
  {| options_ := options; env_ := env; db_ := lsm;
     vlog_files_ := {[ 1 := file_1 ]};
     vlog_file_number_ := 2; shutdown_ := false; rwfile_ := 2;
     ro_files_ := {[ 1 := {| meta_number := 1; file_size := 12 |} ]};
     pending_outputs_ := ∅; obsolete_files_ := ∅; gc_pointer_ := 0;
     manual_gc_ := false; manual_gc_number := 0;
     bg_garbage_collection_ := true; gc_last_run_ := 0; bg_error_ := OK;
     trace_ := [] |}.

(** What [Collect] makes of file 1. *)
Definition collected_1 : GarbageCollection :=
  snd (fst (Collect (GarbageCollection_new 1) st0)).

(** The same store when the sync of the LSM fails. *)
Definition st_sync_fails : ValueLogImpl :=
  set_db_ {| lsm_table := lsm_table lsm; lsm_sequence := lsm_sequence lsm;
             lsm_read_error := lsm_read_error lsm;
             lsm_write_status := OK; lsm_sync_status := IOError |} st0.

(** The store after a fatal background error, and while shutting down. *)
Definition st_fatal : ValueLogImpl := set_bg_error_ IOError st0.

Definition st_idle : ValueLogImpl := set_bg_garbage_collection_ false st0.

(** The store after a run that ended NonFatal. *)
Definition st_nonfatal : ValueLogImpl := set_bg_error_ NonFatal st0.

(** A collection over ten records, 60 000 000 bytes in all, of which one
    record of 50 000 000 bytes is discarded. *)
Definition gc_large : GarbageCollection :=
  {| number := 1; value_batch := ValueBatch_empty; rewrites := [];
     total_size := 60000000; total_entries := 10;
     discard_size := 50000000; discard_entries := 1; obsolete_sequence := 0 |}.

(** File 1 when its last record is the one of the deleted key. *)
Definition st_deleted_last : ValueLogImpl :=
  set_vlog_files_ {[ 1 := [(key_b, "y"%string); (key_c, "z"%string)] ]} st0.

End Scenario.

(** *** The order of the calls made by Rewrite *)

(** The copy into the new file [num], up to its registration in
    [ro_files_]. *)
Definition copy_events (num bytes : N) : list Event :=
  [EvNewFile num OK; EvAddBatch num bytes; EvFileSync num; EvFinish num;
   EvFileClose num; EvRegister num].

(** A handle rewrite that points into the first [bytes] bytes of file [num]. *)
Definition is_rewrite (num bytes : N) (e : Event) : Prop :=
  match e with
  | EvLSMWrite _ h _ => table_ h = num ∧ offset_ h + size_ h ≤ bytes
  | _ => False
  end.

Definition rewrite_ok (e : Event) : Prop :=
  match e with
  | EvLSMWrite _ _ OK => True
  | _ => False
  end.

(** Rewrite gets as far as creating the new file. *)
Definition reaches_copy (gc : GarbageCollection) (st : ValueLogImpl) : Prop :=
  total_size gc ≠ 0 ∧ total_entries gc ≠ 0
  ∧ below_threshold (options_ st) gc = false
  ∧ discard_entries gc ≠ total_entries gc
  ∧ new_file_status (env_ st) (u64 (vlog_file_number_ st + 1)) = OK.

(** The members Rewrite's LSM phase leaves alone: all but [db_] and [trace_]. *)
Definition same_but_lsm (st st' : ValueLogImpl) : Prop :=
  st' = set_trace_ (trace_ st') (set_db_ (db_ st') st).

(** *** What PickGC is to return *)

(** [k] is the least number of a read-only file that is not below [n] and
    not obsolete. *)
Definition least_candidate (st : ValueLogImpl) (n k : N) : Prop :=
  is_Some (ro_files_ st !! k) ∧ n ≤ k ∧ obsolete_files_ st !! k = None
  ∧ ∀ k', is_Some (ro_files_ st !! k') → n ≤ k' →
          obsolete_files_ st !! k' = None → k ≤ k'.

(** Every read-only file from [n] on is obsolete. *)
Definition no_candidate (st : ValueLogImpl) (n : N) : Prop :=
  ∀ k', is_Some (ro_files_ st !! k') → n ≤ k' → is_Some (obsolete_files_ st !! k').

(** File numbers stay clear of the largest [uint64_t]. *)
Definition numbers_in_range (st : ValueLogImpl) : Prop :=
  map_Forall (fun k _ => k < 2 ^ 64 - 1) (ro_files_ st).

(** The members guarded by [mutex_], with the shutdown flag, the number of
    the file being built, and the state of the pick. *)
Definition scheduling (st : ValueLogImpl)
    : bool * N * N * bool * N * bool * Z * Status :=
  (shutdown_ st, rwfile_ st, gc_pointer_ st, manual_gc_ st, manual_gc_number st,
   bg_garbage_collection_ st, gc_last_run_ st, bg_error_ st).

Definition is_version_edit (e : Event) : bool :=
  match e with
  | EvVersionEdit _ _ => true
  | _ => false
  end.

(** ** More of blob_vlog_impl.h *)

(** [MarkFileNumberUsed] *)
Definition MarkFileNumberUsed (num : N) (st : ValueLogImpl) : ValueLogImpl :=
  if CurrentFileNumber st <? num then set_vlog_file_number_ num st else st.

(** *** VLogRWFile

    The file being built, with its reference count.  [refs_] is a
    [std::atomic<int>]: a 32-bit signed value that wraps.  The calls on the
    file, its builder and its reader are recorded in [calls_]; the object is
    one built on a file (a non-null [file_]). *)

Inductive FileCall : Set :=
| CallAddBatch          (* builder_->AddBatch *)
| CallAdd               (* builder_->Add *)
| CallIncreaseOffset    (* reader_->IncreaseOffset(builder_->Offset()) *)
| CallFlush             (* builder_->Flush *)
| CallSync              (* file_->Sync *)
| CallFinish            (* builder_->Finish *)
| CallClose             (* file_->Close *)
| CallNewIterator.      (* reader_->NewIterator *)

Record VLogRWFile : Set := {
  refs_ : Z;
  closed_ : bool;
  number_ : N;
  calls_ : list FileCall
}.

(** The constructor, on a file. *)
Definition VLogRWFile_new (num : N) : VLogRWFile :=
  {| refs_ := 0; closed_ := false; number_ := num; calls_ := [] |}.

Definition set_refs_ (x : Z) (f : VLogRWFile) : VLogRWFile :=
  {| refs_ := x; closed_ := closed_ f; number_ := number_ f; calls_ := calls_ f |}.

Definition call (cs : list FileCall) (f : VLogRWFile) : VLogRWFile :=
  {| refs_ := refs_ f; closed_ := closed_ f; number_ := number_ f;
     calls_ := calls_ f ++ cs |}.

(** [void Ref() { ++refs_; }] *)
Definition Ref (f : VLogRWFile) : VLogRWFile := set_refs_ (i32 (refs_ f + 1)) f.

(** [Unref]: [None] when the object has deleted itself; the destructor
    asserts [closed_]. *)
Definition Unref (f : VLogRWFile) : Result (option VLogRWFile) :=
  let f1 := set_refs_ (i32 (refs_ f - 1)) f in
  if (refs_ f1 <? 0)%Z then Crash AssertionFailed
  else if (refs_ f1 <=? 0)%Z then
    if closed_ f1 then Ret None else Crash AssertionFailed
  else Ret (Some f1).

Definition not_closed (f : VLogRWFile) (k : VLogRWFile) : Result (option VLogRWFile) :=
  if closed_ f then Crash AssertionFailed else Ret (Some k).

Definition VLogRWFile_Write (f : VLogRWFile) : Result (option VLogRWFile) :=
  not_closed f (call [CallAddBatch; CallIncreaseOffset] f).

Definition VLogRWFile_Add (f : VLogRWFile) : Result (option VLogRWFile) :=
  not_closed f (call [CallAdd; CallIncreaseOffset] f).

Definition VLogRWFile_Flush (f : VLogRWFile) : Result (option VLogRWFile) :=
  not_closed f (call [CallFlush] f).

Definition VLogRWFile_Sync (f : VLogRWFile) : Result (option VLogRWFile) :=
  not_closed f (call [CallSync] f).

Definition VLogRWFile_Finish (f : VLogRWFile) : Result (option VLogRWFile) :=
  not_closed f
    {| refs_ := refs_ f; closed_ := true; number_ := number_ f;
       calls_ := calls_ f ++ [CallSync; CallFinish; CallClose] |}.

(** [NewIterator]: a reference is taken for the iterator, whose cleanup
    ([UnrefCleanup]) gives it back. *)
Definition VLogRWFile_NewIterator (f : VLogRWFile) : VLogRWFile :=
  call [CallNewIterator] (Ref f).

Definition UnrefCleanup (f : VLogRWFile) : Result (option VLogRWFile) := Unref f.

(** What is done to a file, one call after the other. *)
Inductive FileOp : Set :=
| OpRef | OpUnref | OpWrite | OpAdd | OpFlush | OpSync | OpFinish
| OpNewIterator | OpIteratorCleanup.

Definition file_step (op : FileOp) (f : VLogRWFile) : Result (option VLogRWFile) :=
  match op with
  | OpRef => Ret (Some (Ref f))
  | OpUnref => Unref f
  | OpWrite => VLogRWFile_Write f
  | OpAdd => VLogRWFile_Add f
  | OpFlush => VLogRWFile_Flush f
  | OpSync => VLogRWFile_Sync f
  | OpFinish => VLogRWFile_Finish f
  | OpNewIterator => Ret (Some (VLogRWFile_NewIterator f))
  | OpIteratorCleanup => UnrefCleanup f
  end.

(** A call on an object that has deleted itself is a use after free, which
    the run reports as a dereference past the end. *)
Fixpoint file_run (ops : list FileOp) (f : VLogRWFile) : Result (option VLogRWFile) :=
  match ops with
  | [] => Ret (Some f)
  | op :: rest =>
      match file_step op f with
      | Crash e => Crash e
      | Ret None => match rest with [] => Ret None | _ => Crash PastTheEnd end
      | Ret (Some f1) => file_run rest f1
      end
  end.

(** The references an operation takes (+1) or gives back (-1). *)
Definition ref_delta (op : FileOp) : Z :=
  match op with
  | OpRef | OpNewIterator => 1
  | OpUnref | OpIteratorCleanup => -1
  | _ => 0
  end.

Fixpoint ref_net (ops : list FileOp) : Z :=
  match ops with
  | [] => 0
  | op :: rest => ref_delta op + ref_net rest
  end.

Definition is_ref_op (op : FileOp) : bool :=
  match op with
  | OpRef | OpNewIterator | OpUnref | OpIteratorCleanup => true
  | _ => false
  end.

(** Along [ops], started with [r] references, the count stays within
    [[1, 2^31 - 1]]. *)
Fixpoint refs_held (r : Z) (ops : list FileOp) : Prop :=
  match ops with
  | [] => True
  | op :: rest =>
      (1 <= r + ref_delta op < 2 ^ 31)%Z ∧ refs_held (r + ref_delta op) rest
  end.

Definition is_data_op (op : FileOp) : bool :=
  match op with
  | OpWrite | OpAdd | OpFlush | OpSync => true
  | _ => false
  end.

(** The life of a file: the engine takes its reference, [k] iterators are
    opened, records are written, the engine finishes the file and gives its
    reference back, and the iterators are released. *)
Definition lifecycle (k : nat) (data : list FileOp) : list FileOp :=
  OpRef :: repeat OpNewIterator k ++ data ++ [OpFinish; OpUnref]
  ++ repeat OpIteratorCleanup k.

(** The same when the engine gives its reference back without [Finish]. *)
Definition lifecycle_unfinished (k : nat) (data : list FileOp) : list FileOp :=
  OpRef :: repeat OpNewIterator k ++ data ++ [OpUnref]
  ++ repeat OpIteratorCleanup k.

(** [BGCall] run [n] times, each on the state the one before left. *)
Fixpoint BGCall_times (n : nat) (st : ValueLogImpl) : Result ValueLogImpl :=
  match n with
  | O => Ret st
  | S m =>
      match BGCall st with
      | Crash e => Crash e
      | Ret st1 => BGCall_times m st1
      end
  end.

(** What reaches the collector: a manual request from a user thread, or the
    scheduler running the task. *)
Inductive Request : Set :=
| ReqManualGC (num : N)
| ReqBGCall.

Definition request_step (r : Request) (st : ValueLogImpl) : Result ValueLogImpl :=
  match r with
  | ReqManualGC num => Ret (ManualGC num st)
  | ReqBGCall => BGCall st
  end.

(** The requests served one after the other. *)
Fixpoint requests (rs : list Request) (st : ValueLogImpl) : Result ValueLogImpl :=
  match rs with
  | [] => Ret st
  | r :: rest =>
      match request_step r st with
      | Crash e => Crash e
      | Ret st1 => requests rest st1
      end
  end.

(** The store can schedule: no shutdown and no fatal background error. *)
Definition healthy (st : ValueLogImpl) : Prop :=
  shutdown_ st = false ∧ (bg_error_ st = OK ∨ bg_error_ st = NonFatal).

(** The keys [Collect] looks up over the records [items]: one after the
    other, up to and including the first whose lookup fails with an error. *)
Fixpoint looked_up (db : DBImpl) (items : list (string * string * ValueHandle))
    : list string :=
  match items with
  | [] => []
  | it :: rest =>
      fst (fst it)
      :: (if decide (fst (fst it) ∈ lsm_read_error db) then [] else looked_up db rest)
  end.

(** The status of a point read of [key]. *)
Definition Get_status (db : DBImpl) (key : string) : Status :=
  fst (fst (DBImpl_Get db key EmptyString kTypeValue)).

(** [Collect] gets as far as opening file [number gc]. *)
Definition collectable (gc : GarbageCollection) (st : ValueLogImpl) : Prop :=
  number gc < CurrentFileNumber st ∧ number gc ≠ 0
  ∧ is_Some (vlog_files_ st !! number gc).

(** The records of file [num] as its iterator yields them. *)
Definition records_of (num : N) (st : ValueLogImpl)
    : list (string * string * ValueHandle) :=
  match NewVLogFileIterator num st with
  | Some items => items
  | None => []
  end.

(** Key [k] resolves to [v]: its LSM entry is a Handle, and the record the
    handle addresses in its value-log file is the record [(k, v)]. *)
Definition resolves (st : ValueLogImpl) (k v : string) : Prop :=
  ∃ e h recs,
    lsm_table (db_ st) !! k = Some (kTypeValueHandle, e)
    ∧ parse_handle e = Some h
    ∧ vlog_files_ st !! table_ h = Some recs
    ∧ (k, v, h) ∈ handles_from (table_ h) 0 recs.

(** Every value-log file is shorter than 2^32 bytes, so that a [uint32_t]
    offset addresses one record. *)
Definition files_addressable (st : ValueLogImpl) : Prop :=
  map_Forall (fun _ recs => batch_bytes recs < 2 ^ 32) (vlog_files_ st).

(** The files on disk have numbers up to the current maximum file number. *)
Definition disk_below_current (st : ValueLogImpl) : Prop :=
  map_Forall (fun k _ => k ≤ vlog_file_number_ st) (vlog_files_ st).

(** From [st] to [st'] every key keeps its value: a key that resolved to a
    value resolves to the same value, and an entry that is not a Handle (an
    inline value, a deletion, no entry) is the same entry. *)
Definition keeps_values (st st' : ValueLogImpl) : Prop :=
  (∀ k v, resolves st k v → resolves st' k v)
  ∧ (∀ k, (∀ e, lsm_table (db_ st) !! k ≠ Some (kTypeValueHandle, e)) →
          lsm_table (db_ st') !! k = lsm_table (db_ st) !! k).

(** The LSM, the files on disk, the file-number counter and the environment
    are the same. *)
Definition same_data (st st' : ValueLogImpl) : Prop :=
  db_ st' = db_ st ∧ vlog_files_ st' = vlog_files_ st
  ∧ vlog_file_number_ st' = vlog_file_number_ st
  ∧ env_ st' = env_ st.

(** The store is well formed: Handle entries decode, files are addressable,
    and no file on disk is numbered above the counter. *)
Definition store_ok (st : ValueLogImpl) : Prop :=
  handles_decodable (db_ st) ∧ files_addressable st ∧ disk_below_current st.

(** ** More stores to exercise the statements *)
Module Cases.

(** The store of the scenario while the engine shuts down. *)
Definition st_shutdown : ValueLogImpl :=
  {| options_ := Scenario.options; env_ := Scenario.env; db_ := Scenario.lsm;
     vlog_files_ := {[ 1 := Scenario.file_1 ]};
     vlog_file_number_ := 2; shutdown_ := true; rwfile_ := 2;
     ro_files_ := {[ 1 := {| meta_number := 1; file_size := 12 |} ]};
     pending_outputs_ := ∅; obsolete_files_ := ∅; gc_pointer_ := 0;
     manual_gc_ := false; manual_gc_number := 0;
     bg_garbage_collection_ := true; gc_last_run_ := 0; bg_error_ := OK;
     trace_ := [] |}.

(** Key [a] has been overwritten by an inline value after file 1 was
    collected. *)
Definition st_overwritten : ValueLogImpl :=
  set_db_ {| lsm_table := <[Scenario.key_a := (kTypeValue, "new"%string)]>
                            (lsm_table Scenario.lsm);
             lsm_sequence := 8; lsm_read_error := ∅;
             lsm_write_status := OK; lsm_sync_status := OK |} Scenario.st0.

(** A store without read-only files. *)
Definition st_no_files : ValueLogImpl := set_ro_files_ ∅ Scenario.st0.

(** File 1 holds one record, that of key [a], which is live. *)
Definition st_clean : ValueLogImpl :=
  set_db_ {| lsm_table :=
               {[ Scenario.key_a :=
                    (kTypeValueHandle,
                     EncodeTo {| table_ := 1; offset_ := 0; size_ := 4 |}) ]};
             lsm_sequence := 7; lsm_read_error := ∅;
             lsm_write_status := OK; lsm_sync_status := OK |}
    (set_vlog_files_ {[ 1 := [(Scenario.key_a, "x"%string)] ]} Scenario.st0).

End Cases.

(** * Properties *)

Ltac divlia := zify; Z.to_euclidean_division_equations; lia.

Ltac split6 := split; [| split; [| split; [| split; [| split]]]].

(** ** Wrap-around *)

Lemma u32_lt (x : N) : u32 x < 2 ^ 32.
Proof. unfold u32. apply N.mod_upper_bound. lia. Qed.

Lemma u32_small (x : N) : x < 2 ^ 32 → u32 x = x.
Proof. intros. unfold u32. by apply N.mod_small. Qed.

Lemma u32_add_l (a b : N) : u32 (u32 a + b) = u32 (a + b).
Proof. unfold u32. by rewrite N.Div0.add_mod_idemp_l. Qed.

(** ** The handle encoding round-trips *)

Lemma append_String (c : ascii) (s r : string) :
  String c s +:+ r = String c (s +:+ r).
Proof. reflexivity. Qed.

Lemma append_empty (r : string) : "" +:+ r = r.
Proof. reflexivity. Qed.

Lemma N_of_ascii_byte (n : N) : N_of_ascii (byte n) = n mod 256.
Proof.
  unfold byte. apply N_ascii_embedding. apply N.mod_upper_bound. lia.
Qed.

Lemma GetVarint64_PutVarint64 (f : nat) :
  ∀ (v : N) (rest : string),
    v < 128 ^ N.of_nat (S f) →
    GetVarint64 f (PutVarint64 f v +:+ rest) = Some (v, rest).
Proof.
  induction f as [|f IH]; intros v rest Hv.
  - cbn [PutVarint64]. rewrite append_String, append_empty. cbn [GetVarint64].
    rewrite N_of_ascii_byte. change (128 ^ N.of_nat 1) with 128 in Hv.
    rewrite N.mod_small by lia.
    destruct (N.ltb_spec v 128); [done | lia].
  - cbn [PutVarint64].
    destruct (N.ltb_spec v 128) as [Hlt | Hge].
    + rewrite append_String, append_empty. cbn [GetVarint64].
      rewrite N_of_ascii_byte, N.mod_small by lia.
      destruct (N.ltb_spec v 128); [done | lia].
    + rewrite append_String. cbn [GetVarint64]. rewrite N_of_ascii_byte.
      rewrite (N.mod_small (v mod 128 + 128)) by divlia.
      destruct (N.ltb_spec (v mod 128 + 128) 128) as [Hc | _]; [divlia |].
      rewrite IH.
      * f_equal. f_equal. divlia.
      * apply N.Div0.div_lt_upper_bound.
        rewrite <- N.pow_succ_r', <- Nat2N.inj_succ. exact Hv.
Qed.

Lemma GetFixed32_PutFixed32 (v : N) (rest : string) :
  v < 2 ^ 32 → GetFixed32 (PutFixed32 v +:+ rest) = Some (v, rest).
Proof.
  intros Hv. unfold PutFixed32. rewrite !append_String, append_empty.
  cbn [GetFixed32]. rewrite !N_of_ascii_byte. f_equal. f_equal.
  change 256 with (2 ^ 8).
  pose proof (N.div_mod v (2 ^ 8)) as E0.
  pose proof (N.div_mod (v / 2 ^ 8) (2 ^ 8)) as E1.
  pose proof (N.div_mod (v / 2 ^ 8 / 2 ^ 8) (2 ^ 8)) as E2.
  rewrite !N.Div0.div_div in *.
  change (2 ^ 8 * 2 ^ 8) with (2 ^ 16) in *.
  change (2 ^ 16 * 2 ^ 8) with (2 ^ 24) in *.
  assert (v / 2 ^ 24 < 2 ^ 8) as Htop.
  { apply N.Div0.div_lt_upper_bound. change (2 ^ 24 * 2 ^ 8) with (2 ^ 32). lia. }
  rewrite (N.mod_small (v / 2 ^ 24)) by lia.
  lia.
Qed.

Lemma parse_handle_EncodeTo (h : ValueHandle) :
  valid_handle h → parse_handle (EncodeTo h) = Some h.
Proof.
  intros (Ht & Ho & Hs). unfold parse_handle, EncodeTo.
  rewrite GetVarint64_PutVarint64.
  - rewrite GetFixed32_PutFixed32 by done.
    replace (PutFixed32 (size_ h)) with (PutFixed32 (size_ h) +:+ "")
      by (unfold PutFixed32; reflexivity).
    rewrite GetFixed32_PutFixed32 by done. by destruct h.
  - eapply N.lt_le_trans; [exact Ht |]. by vm_compute.
Qed.

Lemma DecodeFrom_EncodeTo (h old : ValueHandle) :
  valid_handle h → DecodeFrom (EncodeTo h) old = h.
Proof. intros Hv. unfold DecodeFrom. by rewrite parse_handle_EncodeTo. Qed.

(** ** The commit callback *)

Lemma DB_Get_found (db : DBImpl) (k v0 v : string) (t : ValueType) :
  k ∉ lsm_read_error db → t ≠ kTypeDeletion →
  lsm_table db !! k = Some (t, v) → DB_Get db k v0 = (OK, v).
Proof.
  intros Hr Ht Hk. unfold DB_Get, DBImpl_Get.
  rewrite decide_False by done. rewrite Hk. by destruct t.
Qed.

Lemma DB_Get_missing (db : DBImpl) (k v0 : string) :
  k ∉ lsm_read_error db →
  (lsm_table db !! k = None ∨ ∃ v, lsm_table db !! k = Some (kTypeDeletion, v)) →
  DB_Get db k v0 = (NotFound, v0).
Proof.
  intros Hr Hk. unfold DB_Get, DBImpl_Get. rewrite decide_False by done.
  destruct Hk as [-> | [v ->]]; reflexivity.
Qed.

(** The callback looks at nothing but the entry of its key. *)
Lemma Callback_local (cb : ValueLogGCWriteCallback) (db1 db2 : DBImpl) :
  lsm_table db1 !! key_ cb = lsm_table db2 !! key_ cb →
  lsm_read_error db1 = lsm_read_error db2 →
  Callback cb db1 = Callback cb db2.
Proof.
  intros Ht Hr. cbn. unfold ValueLogGCWriteCallback_Callback, DB_Get, DBImpl_Get.
  by rewrite Ht, Hr.
Qed.

Lemma DBImpl_Write_rejected (db : DBImpl) (updates : WriteBatch)
    (cb : ValueLogGCWriteCallback) :
  Callback cb db ≠ OK → DBImpl_Write db updates cb = (OK, db).
Proof.
  intros Hs. unfold DBImpl_Write. by destruct (Callback cb db).
Qed.

(** *** A rejected rewrite leaves the key alone, through the whole of Rewrite *)

Lemma handles_from_paired (num : N) (recs : list (string * string)) :
  ∀ (off : N) (rw : list (WriteBatch * ValueLogGCWriteCallback)),
    paired recs rw →
    Forall2 (fun it p => fst p = [] ∧ key_ (snd p) = fst (fst it))
            (handles_from num off recs) rw.
Proof.
  induction recs as [|[k v] recs IH]; intros off rw Hp; inversion Hp; subst.
  - constructor.
  - cbn [handles_from]. constructor; [done |]. by apply IH.
Qed.

Lemma DBImpl_Write_other (db : DBImpl) (key value k : string)
    (cb : ValueLogGCWriteCallback) (s : Status) (db1 : DBImpl) :
  DBImpl_Write db [(kTypeValueHandle, key, value)] cb = (s, db1) →
  lsm_read_error db1 = lsm_read_error db ∧
  (lsm_table db1 !! k = lsm_table db !! k ∨ (key = k ∧ Callback cb db = OK)).
Proof.
  unfold DBImpl_Write. intros Hw.
  destruct (Callback cb db) eqn:Hc; cbn in Hw;
    try (injection Hw as <- <-; by auto).
  destruct (lsm_write_status db); cbn in Hw; injection Hw as <- <-; cbn; auto.
  split; [done |].
  destruct (decide (key = k)) as [-> | Hne]; [by right |].
  left. by rewrite lookup_insert_ne.
Qed.

Lemma Iterate_loop_preserves (k : string) :
  ∀ (items : list (string * string * ValueHandle)) (h : RewriteLSMHandler)
    (rw : list (WriteBatch * ValueLogGCWriteCallback)) (st : ValueLogImpl)
    h' rw' st',
    Forall2 (fun it p => fst p = [] ∧ key_ (snd p) = fst (fst it))
            items (drop (h_iter h) rw) →
    (∀ p, p ∈ rw → key_ (snd p) = k → Callback (snd p) (db_ st) ≠ OK) →
    Iterate_loop items h rw st = Ret (h', rw', st') →
    lsm_table (db_ st') !! k = lsm_table (db_ st) !! k
    ∧ lsm_read_error (db_ st') = lsm_read_error (db_ st).
Proof.
  induction items as [|[[key v] hd] rest IH]; intros h rw st h' rw' st' Hp Hcb Hrun.
  - cbn in Hrun. by injection Hrun as _ _ <-.
  - cbn [Iterate_loop] in Hrun. unfold RewriteLSMHandler_call in Hrun.
    destruct (shutdown_ st); [by injection Hrun as _ _ <- |].
    apply Forall2_cons_inv_l in Hp as (p & tl & [Hb Hk] & Htl & Hdrop).
    assert (Hi : rw !! h_iter h = Some p).
    { pose proof (lookup_drop rw (h_iter h) 0) as Hl.
      rewrite Hdrop, Nat.add_0_r in Hl. by rewrite <- Hl. }
    rewrite Hi in Hrun. destruct p as [batch cb]. cbn in Hb, Hk. subst batch.
    cbn [WriteBatchInternal_Put app] in Hrun.
    destruct (DBImpl_Write (db_ st) [(kTypeValueHandle, key, EncodeTo hd)] cb)
      as [s db1] eqn:Hw.
    apply (DBImpl_Write_other _ _ _ k) in Hw as [Herr Htab].
    assert (Htab' : lsm_table db1 !! k = lsm_table (db_ st) !! k).
    { destruct Htab as [? | [-> Hok]]; [done |].
      exfalso. apply (Hcb ([], cb)); [by eapply list_elem_of_lookup_2 | done | done]. }
    destruct (ok s); cbn [negb] in Hrun.
    + case_bool_decide; [by injection Hrun as _ _ <- |].
      eapply IH in Hrun as [Ht Hr].
      * cbn in Ht, Hr. by rewrite Ht, Hr.
      * cbn [h_iter]. rewrite drop_insert_lt by lia.
        assert (Hd : drop (S (h_iter h)) rw = tl).
        { replace (S (h_iter h)) with (h_iter h + 1)%nat by lia.
          by rewrite <- drop_drop, Hdrop. }
        by rewrite Hd.
      * intros p Hin Hpk. cbn [db_ emit set_db_ set_trace_].
        apply list_elem_of_lookup in Hin as [j Hj].
        destruct (decide (j = h_iter h)) as [-> | Hne].
        -- rewrite list_lookup_insert_eq in Hj
             by (by eapply lookup_lt_Some). injection Hj as <-. cbn [snd] in *.
           rewrite (Callback_local cb db1 (db_ st)) by (by subst).
           eapply (Hcb (_, cb)); [eapply list_elem_of_lookup_2; exact Hi | done].
        -- rewrite list_lookup_insert_ne in Hj by done.
           rewrite (Callback_local (snd p) db1 (db_ st)) by (by rewrite ?Hpk).
           eapply Hcb; [eapply list_elem_of_lookup_2; exact Hj | done].
    + by injection Hrun as _ _ <-.
Qed.

Lemma db_LogAndApply (edit : BlobVersionEdit) (st : ValueLogImpl) :
  db_ (snd (LogAndApply edit st)) = db_ st.
Proof. unfold LogAndApply. by destruct (ok (manifest_status (env_ st))). Qed.

Lemma Rewrite_preserves_overwritten (k : string) (gc : GarbageCollection)
    (st : ValueLogImpl) (s : Status) (gc' : GarbageCollection) (st' : ValueLogImpl) :
  paired (vb_records (value_batch gc)) (rewrites gc) →
  (∀ p, p ∈ rewrites gc → key_ (snd p) = k → Callback (snd p) (db_ st) ≠ OK) →
  Rewrite gc st = Ret (s, gc', st') →
  lsm_table (db_ st') !! k = lsm_table (db_ st) !! k
  ∧ lsm_read_error (db_ st') = lsm_read_error (db_ st).
Proof.
  intros Hp Hcb. unfold Rewrite.
  destruct ((total_size gc =? 0) || (total_entries gc =? 0)); [done |].
  destruct (below_threshold (options_ st) gc); [by intros [= _ _ <-] |].
  destruct (discard_entries gc =? total_entries gc).
  { match goal with |- context [LogAndApply ?e ?s0] =>
      pose proof (db_LogAndApply e s0) as Hdb;
      destruct (LogAndApply e s0) as [s1 st1] end.
    intros [= _ _ <-]. cbn in Hdb. by rewrite Hdb. }
  cbn [NewFileNumber].
  destruct (ok (new_file_status _ _)); cbn [negb]; [| by intros [= _ _ <-]].
  cbn [write_new_vlog]. unfold rewrite_to_LSM, ValueBatch_Iterate, ValueBatch_handles.
  cbn [ValueBatch_Finalize vb_records vb_number vb_offset].
  match goal with |- context [Iterate_loop ?i ?h ?r ?s0] =>
    destruct (Iterate_loop i h r s0) as [[[h1 rw1] st5] | e] eqn:Hit end; [| done].
  apply (Iterate_loop_preserves k) in Hit as [Ht Hr];
    [| by apply handles_from_paired | exact Hcb].
  cbn in Ht, Hr. cbn [ok negb orb].
  destruct (ok (h_s h1)); cbn [negb]; [| by intros [= _ _ <-]].
  destruct (ok (DBImpl_Sync (db_ st5))); cbn [negb]; [| by intros [= _ _ <-]].
  match goal with |- context [LogAndApply ?e ?s0] =>
    pose proof (db_LogAndApply e s0) as Hdb;
    destruct (LogAndApply e s0) as [s3 st7] end.
  intros [= _ _ <-]. cbn in Hdb. by rewrite Hdb.
Qed.

Lemma DB_Get_local (db1 db2 : DBImpl) (k v0 : string) :
  lsm_table db1 !! k = lsm_table db2 !! k →
  lsm_read_error db1 = lsm_read_error db2 →
  DB_Get db1 k v0 = DB_Get db2 k v0.
Proof. intros Ht Hr. unfold DB_Get, DBImpl_Get. by rewrite Ht, Hr. Qed.

(** C1, as the code has it.  The callback of a handle rewrite for key [k]
    with pre-GC handle [h] re-reads [k].  When the lookup fails the lookup's
    own status is returned, NotFound for an absent or deleted key; when the
    bytes stored for [k] do not decode to [h], in particular when [k] holds a
    Handle entry for another handle, it returns InvalidArgument; when [k]
    holds the Handle entry [h] it returns OK.  Whenever the status is not OK
    the batch is silently dropped: the write leaves the LSM as it was and
    the writer gets OK.  So when the callbacks for [k] reject what the user stored, a read of [k]
    after Rewrite gives what it gave before. *)
Theorem Callback_compare_and_swap (db : DBImpl) (k : string) (h : ValueHandle)
    (updates : WriteBatch) :
  valid_handle h →
  k ∉ lsm_read_error db →
  let cb := {| key_ := k; handle_ := h |} in
  ((lsm_table db !! k = None ∨ ∃ v, lsm_table db !! k = Some (kTypeDeletion, v)) →
     Callback cb db = NotFound) ∧
  (∀ t v, lsm_table db !! k = Some (t, v) → t ≠ kTypeDeletion →
     DecodeFrom v ValueHandle_default ≠ h → Callback cb db = InvalidArgument) ∧
  (∀ h', valid_handle h' → h' ≠ h →
     lsm_table db !! k = Some (kTypeValueHandle, EncodeTo h') →
     Callback cb db = InvalidArgument) ∧
  (lsm_table db !! k = Some (kTypeValueHandle, EncodeTo h) → Callback cb db = OK) ∧
  (Callback cb db ≠ OK →
     DBImpl_Write db updates cb = (OK, db) ∧
     ∀ v0, DB_Get (snd (DBImpl_Write db updates cb)) k v0 = DB_Get db k v0) ∧
  (∀ gc st s gc' st',
     db_ st = db →
     paired (vb_records (value_batch gc)) (rewrites gc) →
     (∀ p, p ∈ rewrites gc → key_ (snd p) = k → Callback (snd p) db ≠ OK) →
     Rewrite gc st = Ret (s, gc', st') →
     ∀ v0, DB_Get (db_ st') k v0 = DB_Get db k v0).
Proof.
  intros Hh Hr cb.
  assert (Hdec : ∀ t v, lsm_table db !! k = Some (t, v) → t ≠ kTypeDeletion →
            DecodeFrom v ValueHandle_default ≠ h → Callback cb db = InvalidArgument).
  { intros t v Hk Ht Hne. cbn. unfold ValueLogGCWriteCallback_Callback. cbn.
    rewrite (DB_Get_found db k "" v t) by done. cbn.
    by rewrite bool_decide_eq_false_2. }
  split; [| split; [| split; [| split; [| split]]]].
  - intros Hk. cbn. unfold ValueLogGCWriteCallback_Callback. cbn.
    by rewrite DB_Get_missing.
  - exact Hdec.
  - intros h' Hh' Hne Hk. apply (Hdec _ _ Hk); [done |].
    by rewrite DecodeFrom_EncodeTo.
  - intros Hk. cbn. unfold ValueLogGCWriteCallback_Callback. cbn.
    rewrite (DB_Get_found db k "" (EncodeTo h) kTypeValueHandle) by done. cbn.
    rewrite DecodeFrom_EncodeTo by done. by rewrite bool_decide_eq_true_2.
  - intros Hne. split; [by apply DBImpl_Write_rejected |].
    intros v0. by rewrite DBImpl_Write_rejected.
  - intros gc st s gc' st' <- Hp Hcb Hrun v0.
    destruct (Rewrite_preserves_overwritten k gc st s gc' st' Hp Hcb Hrun) as [Ht He].
    by apply DB_Get_local.
Qed.


(** The rewrite of [a], which still holds its pre-GC handle, is let through. *)
Lemma Callback_compare_and_swap_witness :
  valid_handle Scenario.h_a
  ∧ (Scenario.key_a ∉ lsm_read_error Scenario.lsm)
  ∧ Callback {| key_ := Scenario.key_a; handle_ := Scenario.h_a |} Scenario.lsm = OK.
Proof.
  assert (Hv : valid_handle Scenario.h_a) by compute_done.
  assert (Hr : (Scenario.key_a ∉ lsm_read_error Scenario.lsm)) by compute_done.
  split; [exact Hv | split; [exact Hr |]].
  apply (Callback_compare_and_swap Scenario.lsm Scenario.key_a Scenario.h_a [] Hv Hr).
  compute_done.
Defined.

(** C1 as the specification words it fails on a deleted key: the callback
    for [c] returns the NotFound of its lookup, not InvalidArgument. *)
Lemma Callback_deleted_key_counterexample :
  let h := Scenario.h_c in
  lsm_table Scenario.lsm !! Scenario.key_c ≠ Some (kTypeValueHandle, EncodeTo h)
  ∧ Callback {| key_ := Scenario.key_c; handle_ := h |} Scenario.lsm = NotFound
  ∧ Callback {| key_ := Scenario.key_c; handle_ := h |} Scenario.lsm ≠ InvalidArgument.
Proof. cbv zeta. split; [compute_done | split; compute_done]. Qed.


(** A small value whose bytes are those of the pre-GC handle passes the
    check of the callback, which does not look at the value type: the rewrite
    is written over it. *)
Example Callback_accepts_lookalike :
  let db := {| lsm_table := {[ Scenario.key_a := (kTypeValue, EncodeTo Scenario.h_a) ]};
               lsm_sequence := 9; lsm_read_error := ∅;
               lsm_write_status := OK; lsm_sync_status := OK |} in
  Callback {| key_ := Scenario.key_a; handle_ := Scenario.h_a |} db = OK.
Proof. reflexivity. Qed.

(** ** Rewrite: the order of the calls *)

Lemma length_handles_from (num : N) (recs : list (string * string)) :
  ∀ off, length (handles_from num off recs) = length recs.
Proof.
  induction recs as [|[k v] recs IH]; intros off; cbn; [done |]. by rewrite IH.
Qed.


Lemma same_but_lsm_refl (st : ValueLogImpl) : same_but_lsm st st.
Proof. unfold same_but_lsm. by destruct st. Qed.

Lemma same_but_lsm_step (st st' : ValueLogImpl) (db : DBImpl) (e : Event) :
  same_but_lsm (emit e (set_db_ db st)) st' → same_but_lsm st st'.
Proof. unfold same_but_lsm. intros ->. reflexivity. Qed.

Lemma Iterate_loop_trace (num bytes : N) :
  ∀ (items : list (string * string * ValueHandle)) (h : RewriteLSMHandler)
    (rw : list (WriteBatch * ValueLogGCWriteCallback)) (st : ValueLogImpl),
    (h_iter h + length items = length rw)%nat →
    Forall (fun it => is_rewrite num bytes (EvLSMWrite (fst (fst it)) (snd it) OK)) items →
    ∃ h' rw' st' writes,
      Iterate_loop items h rw st = Ret (h', rw', st')
      ∧ trace_ st' = trace_ st ++ writes
      ∧ Forall (is_rewrite num bytes) writes
      ∧ same_but_lsm st st'
      ∧ (items = [] → h' = h ∧ writes = [])
      ∧ (ok (h_s h') = true → items ≠ [] →
           length writes = length items ∧ Forall rewrite_ok writes).
Proof.
  induction items as [|[[key v] hd] rest IH]; intros h rw st Hlen Hrange.
  - exists h, rw, st, [].
    split6; [done | by rewrite app_nil_r | done | apply same_but_lsm_refl | done | done].
  - apply Forall_cons in Hrange as [Hhd Hrest]. cbn [length] in Hlen.
    cbn [Iterate_loop]. unfold RewriteLSMHandler_call.
    destruct (shutdown_ st) eqn:Hsh.
    { eexists _, rw, st, [].
      split6; [done | by rewrite app_nil_r | done | apply same_but_lsm_refl
              | done | done]. }
    destruct (rw !! h_iter h) as [[batch cb] |] eqn:Hi.
    2: { apply lookup_ge_None in Hi. lia. }
    destruct (DBImpl_Write (db_ st) _ cb) as [s db1] eqn:Hw.
    destruct (ok s) eqn:Hok; cbn [negb].
    + destruct s; try discriminate Hok.
      case_bool_decide as Hend; rewrite length_insert in Hend.
      * assert (rest = []) as -> by (apply length_zero_iff_nil; lia).
        eexists _, _, _, [EvLSMWrite key hd OK].
        split6; [done | done | by constructor
                | eapply same_but_lsm_step; apply same_but_lsm_refl | done |].
        intros _ _. split; [done |]. by constructor.
      * match goal with |- context [Iterate_loop rest ?h1 ?rw1 ?st1] =>
          destruct (IH h1 rw1 st1)
            as (h' & rw' & st' & writes & Hrun & Htr & Hw' & Hsame & Hnil & Hall)
        end.
        { cbn [h_iter]. rewrite length_insert. lia. }
        { done. }
        exists h', rw', st', (EvLSMWrite key hd OK :: writes).
        rewrite Hrun.
        split6; [done | rewrite Htr; cbn; by rewrite <- app_assoc | by constructor
                | by eapply same_but_lsm_step | done |].
        intros Hok' _. destruct rest as [| it rest'].
        { exfalso. cbn [length] in Hlen. lia. }
        destruct (Hall Hok') as [Hl Hf]; [done |].
        split; [cbn [length]; by rewrite Hl | by constructor].
    + eexists _, _, _, [EvLSMWrite key hd s].
      split6; [done | done | by constructor
              | eapply same_but_lsm_step; apply same_but_lsm_refl | done |].
      cbn. intros Hc. discriminate Hc.
Qed.

Lemma LogAndApply_trace (edit : BlobVersionEdit) (st : ValueLogImpl) :
  trace_ (snd (LogAndApply edit st))
  = trace_ st ++ [EvVersionEdit edit (fst (LogAndApply edit st))].
Proof.
  unfold LogAndApply. destruct (manifest_status (env_ st)); reflexivity.
Qed.

Lemma LogAndApply_pending (edit : BlobVersionEdit) (st : ValueLogImpl) :
  pending_outputs_ (snd (LogAndApply edit st)) = pending_outputs_ st.
Proof. unfold LogAndApply. by destruct (ok (manifest_status (env_ st))). Qed.

Lemma foldl_insert_is_Some (fs : list VLogFileMeta) :
  ∀ (m : gmap N VLogFileMeta) (k : N),
    is_Some (m !! k) →
    is_Some (foldl (fun m f => <[meta_number f := f]> m) m fs !! k).
Proof.
  induction fs as [|f fs IH]; intros m k Hk; cbn; [done |].
  apply IH. destruct (decide (meta_number f = k)) as [-> | Hne].
  - rewrite lookup_insert_eq. by eexists.
  - by rewrite lookup_insert_ne.
Qed.

Lemma ro_files_LogAndApply (edit : BlobVersionEdit) (st : ValueLogImpl) (k : N) :
  is_Some (ro_files_ st !! k) →
  is_Some (ro_files_ (snd (LogAndApply edit st)) !! k).
Proof.
  intros Hk. unfold LogAndApply.
  destruct (ok (manifest_status (env_ st))); cbn; [| done].
  by apply foldl_insert_is_Some.
Qed.

Lemma emplace_is_Some {V} (k : N) (v : V) (m : gmap N V) :
  is_Some (emplace k v m !! k).
Proof.
  unfold emplace. destruct (m !! k) eqn:Hk; [by rewrite Hk |].
  rewrite lookup_insert_eq. by eexists.
Qed.

Lemma Rewrite_copy_run (bound : N) (gc : GarbageCollection) (st : ValueLogImpl) :
  reaches_copy gc st →
  paired (vb_records (value_batch gc)) (rewrites gc) →
  let num := u64 (vlog_file_number_ st + 1) in
  let bytes := u32 (batch_bytes (vb_records (value_batch gc))) in
  Forall (fun it => is_rewrite num bound (EvLSMWrite (fst (fst it)) (snd it) OK))
         (handles_from num 0 (vb_records (value_batch gc))) →
  ∃ s gc' st' writes tail,
    Rewrite gc st = Ret (s, gc', st')
    ∧ trace_ st' = trace_ st ++ copy_events num bytes ++ writes ++ tail
    ∧ Forall (is_rewrite num bound) writes
    ∧ num ∈ pending_outputs_ st'
    ∧ is_Some (ro_files_ st' !! num)
    ∧ ((tail = [] ∧ s = IOError)
       ∨ (tail = [EvLSMSync s] ∧ s ≠ OK)
       ∨ (tail = [EvLSMSync OK;
                  EvVersionEdit
                    {| added := [{| meta_number := num; file_size := bytes |}];
                       deleted := [(number gc, lsm_sequence (db_ st'))] |} s]
          ∧ length writes = length (rewrites gc)
          ∧ Forall rewrite_ok writes)).
Proof.
  intros (Hts & Hte & Hbelow & Hde & Hnew) Hp num bytes Hrange.
  unfold Rewrite.
  destruct (N.eqb_spec (total_size gc) 0); [done |].
  destruct (N.eqb_spec (total_entries gc) 0); [done |]. cbn [orb].
  rewrite Hbelow.
  destruct (N.eqb_spec (discard_entries gc) (total_entries gc)); [done |].
  cbn [NewFileNumber]. cbn [env_ emit set_trace_ set_vlog_file_number_].
  rewrite Hnew. fold num. cbn [ok negb].
  cbn [write_new_vlog]. unfold rewrite_to_LSM, ValueBatch_Iterate, ValueBatch_handles.
  cbn [ValueBatch_Finalize vb_records vb_number vb_offset]. fold bytes.
  match goal with |- context [Iterate_loop ?i ?h ?r ?s0] =>
    destruct (Iterate_loop_trace num bound i h r s0)
      as (h1 & rw1 & st5 & writes & Hrun & Htr & Hwr & Hsame & Hnil & Hall)
  end.
  { cbn [h_iter]. rewrite length_handles_from. cbn. by eapply Forall2_length. }
  { exact Hrange. }
  rewrite Hrun. cbn [ok negb orb].
  assert (Hpend : num ∈ pending_outputs_ st5).
  { rewrite Hsame. cbn. apply elem_of_union_l. by apply elem_of_singleton. }
  assert (Hro : is_Some (ro_files_ st5 !! num)).
  { rewrite Hsame. cbn. apply emplace_is_Some. }
  cbn in Htr. rewrite <- !app_assoc in Htr. cbn in Htr.
  destruct (ok (h_s h1)) eqn:Hok; cbn [negb].
  2: { exists IOError, (set_batches
                          (ValueBatch_Finalize num 0 (value_batch gc)) rw1 gc),
         st5, writes, [].
       split6; [done | by rewrite app_nil_r | done | done | done | by left]. }
  destruct (ok (DBImpl_Sync (db_ st5))) eqn:Hsync; cbn [negb].
  2: { eexists (DBImpl_Sync (db_ st5)), _, _, writes, [EvLSMSync _].
       split6; [done | cbn; rewrite Htr; by rewrite <- !app_assoc | done | done
               | done |].
       right; left. split; [done |]. intros Hc. by rewrite Hc in Hsync. }
  destruct (DBImpl_Sync (db_ st5)) eqn:Hs2; try discriminate Hsync.
  match goal with |- context [LogAndApply ?e ?s0] =>
    pose proof (LogAndApply_trace e s0) as Hlt;
    pose proof (LogAndApply_pending e s0) as Hlp;
    pose proof (db_LogAndApply e s0) as Hldb;
    pose proof (ro_files_LogAndApply e s0 num) as Hlro;
    destruct (LogAndApply e s0) as [s3 st7] eqn:Hla
  end.
  cbn [fst snd] in *.
  exists s3. eexists _, st7, writes, _.
  split6; [done | | done | | |].
  - rewrite Hlt. cbn. rewrite Htr. rewrite <- !app_assoc. cbn. reflexivity.
  - rewrite Hlp. exact Hpend.
  - apply Hlro. exact Hro.
  - right; right. rewrite Hldb. cbn. split; [reflexivity |].
    destruct (vb_records (value_batch gc)) as [| r recs] eqn:Hrecs.
    + apply Forall2_nil_inv_l in Hp. rewrite Hp.
      destruct (Hnil eq_refl) as [_ ->]. done.
    + destruct Hall as [Hl Hf]; [done | by destruct r |].
      split; [| done]. rewrite Hl, length_handles_from.
      by eapply Forall2_length.
Qed.


(** ** Collect *)

Lemma counters_count_total (sz : N) (gc : GarbageCollection) :
  counters_in_range gc → counters_in_range (count_total sz gc).
Proof. intros (? & ? & ? & ?). repeat split; cbn; auto using u32_lt. Qed.

Lemma counters_count_discard (sz : N) (gc : GarbageCollection) :
  counters_in_range gc → counters_in_range (count_discard sz gc).
Proof. intros (? & ? & ? & ?). repeat split; cbn; auto using u32_lt. Qed.

Lemma counters_keep_entry (k v : string) (h : ValueHandle) (gc : GarbageCollection) :
  counters_in_range gc → counters_in_range (keep_entry k v h gc).
Proof. intros (? & ? & ? & ?). repeat split; cbn; auto. Qed.

Lemma collected_nil db num gc : counters_in_range gc → collected db num [] gc gc.
Proof.
  intros (? & ? & ? & ?).
  split; cbn; rewrite ?N.add_0_r, ?u32_small, ?app_nil_r; done.
Qed.

Lemma collected_dead db num it sc gc gc' :
  dead db num it = true →
  collected db num sc
    (count_discard (size_ (snd it)) (count_total (size_ (snd it)) gc)) gc' →
  collected db num (it :: sc) gc gc'.
Proof.
  intros Hd [H1 H2 H3 H4 H5 H6 H7 H8]. cbn in *.
  split; cbn [List.filter]; unfold live in *; rewrite ?Hd; cbn [negb]; try done.
  - rewrite H3, u32_add_l. f_equal. unfold count. cbn [length]. lia.
  - rewrite H4, u32_add_l. f_equal. cbn [size_sum]. lia.
  - rewrite H5, u32_add_l. f_equal. unfold count. cbn [length]. lia.
  - rewrite H6, u32_add_l. f_equal. cbn [size_sum]. lia.
Qed.

Lemma collected_live db num it sc gc gc' :
  dead db num it = false →
  collected db num sc
    (keep_entry (fst (fst it)) (snd (fst it)) (current_of num it)
       (count_total (size_ (snd it)) gc)) gc' →
  collected db num (it :: sc) gc gc'.
Proof.
  intros Hd [H1 H2 H3 H4 H5 H6 H7 H8]. cbn in *.
  split; cbn [List.filter]; unfold live in *; rewrite ?Hd; cbn [negb]; try done.
  - rewrite H3, u32_add_l. f_equal. unfold count. cbn [length]. lia.
  - rewrite H4, u32_add_l. f_equal. cbn [size_sum]. lia.
  - rewrite H7. cbn. by rewrite <- app_assoc.
  - rewrite H8. cbn. by rewrite <- app_assoc.
Qed.

(** The verdict on a record depends on the record and on the LSM alone:
    what the locals hold from earlier iterations never reaches it. *)
Lemma Collect_loop_spec (num : N) :
  ∀ (items : list (string * string * ValueHandle)) (loc : CollectLocals)
    (gc : GarbageCollection) (st : ValueLogImpl),
    table_ (c_current loc) = num →
    counters_in_range gc →
    handles_decodable (db_ st) →
    collected (db_ st) num (scanned (db_ st) items) gc
      (snd (fst (Collect_loop items loc gc st))).
Proof.
  induction items as [|[[key value] item] rest IH]; intros loc gc st Hnum Hrange Hdec.
  - by apply collected_nil.
  - cbn [Collect_loop scanned fst snd]. unfold DBImpl_Get.
    destruct (decide (key ∈ lsm_read_error (db_ st))) as [Herr | Herr].
    { cbn. by apply collected_nil. }
    assert (Hcur : GetValueHandle item (c_current loc)
                   = current_of num (key, value, item)).
    { unfold GetValueHandle, current_of. by rewrite Hnum. }
    destruct (lsm_table (db_ st) !! key) as [[t v] |] eqn:Hk.
    + destruct t; cbn [ok IsNotFound negb andb orb].
      * apply collected_dead; [unfold dead; cbn; by rewrite Hk |].
        rewrite Hcur. apply (IH _ _ (emit (EvLSMGet key) st)); [done | | done].
        by apply counters_count_discard, counters_count_total.
      * rewrite bool_decide_eq_false_2 by done. cbn [negb orb].
        apply collected_dead; [unfold dead; cbn; by rewrite Hk |].
        rewrite Hcur. apply (IH _ _ (emit (EvLSMGet key) st)); [done | | done].
        by apply counters_count_discard, counters_count_total.
      * rewrite (bool_decide_eq_true_2 (kTypeValueHandle = kTypeValueHandle)) by done.
        cbn [negb orb].
        destruct (Hdec key (kTypeValueHandle, v) Hk eq_refl) as [hd Hparse].
        cbn [snd] in Hparse. unfold DecodeFrom. rewrite Hparse, Hcur.
        case_bool_decide as Heq; cbn [negb].
        -- subst hd. apply collected_live.
           { unfold dead; cbn. rewrite Hk, Hparse. by rewrite bool_decide_eq_true_2. }
           apply (IH _ _ (emit (EvLSMGet key) st)); [done | | done].
           by apply counters_keep_entry, counters_count_total.
        -- apply collected_dead.
           { unfold dead; cbn. rewrite Hk, Hparse.
             rewrite bool_decide_eq_false_2; [done | congruence]. }
           apply (IH _ _ (emit (EvLSMGet key) st)); [done | | done].
           by apply counters_count_discard, counters_count_total.
    + cbn [ok IsNotFound negb andb orb].
      apply collected_dead; [unfold dead; cbn; by rewrite Hk |].
      rewrite Hcur. apply (IH _ _ (emit (EvLSMGet key) st)); [done | | done].
      by apply counters_count_discard, counters_count_total.
Qed.

Lemma scanned_all (db : DBImpl) (items : list (string * string * ValueHandle)) :
  lsm_read_error db = ∅ → scanned db items = items.
Proof.
  intros He. induction items as [|it rest IH]; [done |].
  cbn [scanned]. rewrite decide_False by (rewrite He; set_solver).
  by rewrite IH.
Qed.

(** C3.  When [Collect] opens the candidate file [number gc], the records it
    classifies are those before the first failed lookup, all of them when no
    lookup fails.  Each of them is counted in [total_entries] and
    [total_size]; it is counted in [discard_entries] and [discard_size]
    exactly when it is dead: the LSM has no entry for its key, or an entry
    that is not a Handle, or a Handle other than the one the iterator reports.
    Every other record is appended to the pending batch together with a
    callback for its key and that handle. *)
Theorem Collect_classifies (gc : GarbageCollection) (st : ValueLogImpl)
    (items : list (string * string * ValueHandle)) :
  counters_in_range gc →
  handles_decodable (db_ st) →
  number gc ≠ 0 →
  number gc < CurrentFileNumber st →
  NewVLogFileIterator (number gc) st = Some items →
  collected (db_ st) (number gc) (scanned (db_ st) items) gc
    (snd (fst (Collect gc st)))
  ∧ (lsm_read_error (db_ st) = ∅ → scanned (db_ st) items = items).
Proof.
  intros Hrange Hdec Hnz Hlt Hit. split; [| apply scanned_all].
  unfold Collect. rewrite Hit.
  destruct (N.leb_spec (CurrentFileNumber st) (number gc)); [lia |].
  destruct (N.eqb_spec (number gc) 0); [done |]. cbn [orb].
  match goal with |- context [Collect_loop ?i ?l ?g ?s0] =>
    pose proof (Collect_loop_spec (number gc) i l g s0 eq_refl Hrange Hdec) as Hc;
    destruct (Collect_loop i l g s0) as [[loc1 gc1] st2] end.
  exact Hc.
Qed.

(** File 1 of the scenario: three records counted, [c] and [b] discarded,
    [a] kept. *)
Lemma Collect_classifies_witness :
  let gc := GarbageCollection_new 1 in
  let items := handles_from 1 0 Scenario.file_1 in
  counters_in_range gc
  ∧ handles_decodable (db_ Scenario.st0)
  ∧ number gc ≠ 0
  ∧ number gc < CurrentFileNumber Scenario.st0
  ∧ NewVLogFileIterator (number gc) Scenario.st0 = Some items
  ∧ collected (db_ Scenario.st0) 1 items gc (snd (fst (Collect gc Scenario.st0))).
Proof.
  cbv zeta.
  assert (H1 : counters_in_range (GarbageCollection_new 1)) by compute_done.
  assert (H2 : handles_decodable (db_ Scenario.st0)) by compute_done.
  assert (H3 : number (GarbageCollection_new 1) ≠ 0) by compute_done.
  assert (H4 : number (GarbageCollection_new 1) < CurrentFileNumber Scenario.st0)
    by compute_done.
  assert (H5 : NewVLogFileIterator (number (GarbageCollection_new 1)) Scenario.st0
               = Some (handles_from 1 0 Scenario.file_1))
    by compute_done.
  repeat (split; [assumption |]).
  exact (proj1 (Collect_classifies _ _ _ H1 H2 H3 H4 H5)).
Defined.


(** [Collect] keeps the pending batch and the rewrites in pairs. *)
Lemma Collect_loop_paired :
  ∀ (items : list (string * string * ValueHandle)) (loc : CollectLocals)
    (gc : GarbageCollection) (st : ValueLogImpl),
    paired (vb_records (value_batch gc)) (rewrites gc) →
    paired (vb_records (value_batch (snd (fst (Collect_loop items loc gc st)))))
           (rewrites (snd (fst (Collect_loop items loc gc st)))).
Proof.
  induction items as [|[[key value] item] rest IH]; intros loc gc st Hp; [done |].
  cbn [Collect_loop].
  destruct (DBImpl_Get (db_ st) key _ _) as [[s enc] vt].
  destruct (negb (ok s) && negb (IsNotFound s)); [done |].
  match goal with |- context [if ?c then _ else _] => destruct c end.
  - apply IH. exact Hp.
  - apply IH. cbn. apply Forall2_app; [exact Hp |]. by constructor.
Qed.

Lemma Collect_paired (gc : GarbageCollection) (st : ValueLogImpl) :
  paired (vb_records (value_batch gc)) (rewrites gc) →
  paired (vb_records (value_batch (snd (fst (Collect gc st)))))
         (rewrites (snd (fst (Collect gc st)))).
Proof.
  intros Hp. unfold Collect.
  destruct ((CurrentFileNumber st <=? number gc) || (number gc =? 0)); [done |].
  destruct (NewVLogFileIterator (number gc) st) as [items |]; [| done].
  match goal with |- context [Collect_loop ?i ?l ?g ?s0] =>
    pose proof (Collect_loop_paired i l g s0 Hp) as Hc;
    destruct (Collect_loop i l g s0) as [[loc1 gc1] st2] end.
  exact Hc.
Qed.


(** The status [Collect] returns is the one of its last lookup: NotFound when
    the last record of the file belongs to a deleted key, which a background
    run then records in place of going on to Rewrite. *)
Example Collect_returns_last_lookup :
  fst (fst (Collect (GarbageCollection_new 1) Scenario.st_deleted_last)) = NotFound
  ∧ match BackgroundGC Scenario.st_deleted_last with
    | Ret st' => bg_error_ st' = NotFound
    | Crash _ => False
    end.
Proof. split; reflexivity. Qed.

(** ** Rewrite: the threshold *)

Lemma handles_from_bounded (num : N) (recs : list (string * string)) :
  ∀ off,
    off < 2 ^ 32 →
    Forall (fun it => is_rewrite num (2 ^ 33) (EvLSMWrite (fst (fst it)) (snd it) OK))
           (handles_from num off recs).
Proof.
  induction recs as [|[k v] recs IH]; intros off Hoff; cbn [handles_from].
  - constructor.
  - constructor; [| apply IH, u32_lt].
    cbn. split; [done |]. pose proof (u32_lt (SizeOf k v)). lia.
Qed.

Lemma below_threshold_spec (o : Options) (gc : GarbageCollection) :
  below_threshold o gc = true ↔
  u32 (discard_size gc * 100) / total_size gc < blob_gc_size_discard_threshold o
  ∧ u32 (discard_entries gc * 100) / total_entries gc
    < blob_gc_num_discard_threshold o.
Proof.
  unfold below_threshold, discard_percent.
  rewrite andb_true_iff, !N.ltb_lt. done.
Qed.

Lemma Rewrite_zero_total (gc : GarbageCollection) (st : ValueLogImpl) :
  total_size gc = 0 ∨ total_entries gc = 0 → Rewrite gc st = Crash DivisionByZero.
Proof.
  intros [H | H]; unfold Rewrite; rewrite H; cbn; [done |].
  by rewrite orb_true_r.
Qed.

Lemma Rewrite_below (gc : GarbageCollection) (st : ValueLogImpl) :
  total_size gc ≠ 0 → total_entries gc ≠ 0 →
  below_threshold (options_ st) gc = true →
  Rewrite gc st = Ret (NonFatal, gc, st).
Proof.
  intros Hs He Hb. unfold Rewrite.
  destruct (N.eqb_spec (total_size gc) 0); [done |].
  destruct (N.eqb_spec (total_entries gc) 0); [done |]. cbn [orb].
  by rewrite Hb.
Qed.

Lemma Rewrite_proceeds (gc : GarbageCollection) (st : ValueLogImpl) :
  total_size gc ≠ 0 → total_entries gc ≠ 0 →
  paired (vb_records (value_batch gc)) (rewrites gc) →
  below_threshold (options_ st) gc = false →
  ∃ s gc' st' e evs,
    Rewrite gc st = Ret (s, gc', st')
    ∧ trace_ st' = trace_ st ++ e :: evs
    ∧ ((discard_entries gc = total_entries gc ∧ evs = []
        ∧ e = EvVersionEdit
                {| added := [];
                   deleted := [(number gc, DBImpl_LatestSequence (db_ st))] |} s)
       ∨ (discard_entries gc ≠ total_entries gc
          ∧ ∃ s0, e = EvNewFile (u64 (vlog_file_number_ st + 1)) s0)).
Proof.
  intros Hs He Hp Hb.
  destruct (decide (discard_entries gc = total_entries gc)) as [Hall | Hsome].
  - unfold Rewrite.
    destruct (N.eqb_spec (total_size gc) 0); [done |].
    destruct (N.eqb_spec (total_entries gc) 0); [done |]. cbn [orb].
    rewrite Hb. rewrite (proj2 (N.eqb_eq _ _) Hall).
    match goal with |- context [LogAndApply ?e ?s0] =>
      pose proof (LogAndApply_trace e s0) as Hlt;
      destruct (LogAndApply e s0) as [s1 st1]
    end.
    cbn [fst snd] in Hlt. eexists s1, _, st1, _, [].
    split; [reflexivity |]. split; [exact Hlt |]. left. by cbn.
  - destruct (decide (new_file_status (env_ st) (u64 (vlog_file_number_ st + 1)) = OK))
      as [Hnew | Hnew].
    + destruct (Rewrite_copy_run (2 ^ 33) gc st) as
        (s & gc' & st' & writes & tail & Hrun & Htr & _); [done | done | |].
      { apply handles_from_bounded. lia. }
      exists s, gc', st'. eexists _, _. split; [exact Hrun |].
      split; [exact Htr |]. right. split; [done |]. by eexists.
    + unfold Rewrite.
      destruct (N.eqb_spec (total_size gc) 0); [done |].
      destruct (N.eqb_spec (total_entries gc) 0); [done |]. cbn [orb].
      rewrite Hb. destruct (N.eqb_spec (discard_entries gc) (total_entries gc)); [done |].
      cbn [NewFileNumber]. cbn [env_ emit set_trace_ set_vlog_file_number_].
      destruct (new_file_status (env_ st) (u64 (vlog_file_number_ st + 1))) eqn:Hst;
        [done | ..]; cbn [ok negb];
        (eexists _, _, _, _, []; split; [reflexivity |]; split; [reflexivity |];
         right; split; [done |]; by eexists).
Qed.

(** What the threshold test of Rewrite decides.  With [total_size] and
    [total_entries] not zero, Rewrite returns NonFatal without creating a
    file, writing to the LSM or emitting a version edit (the whole state is
    as before) exactly when both discard ratios, computed as the code does on
    [uint32_t], are below their thresholds.  Otherwise it proceeds: its first
    call is the version edit that deletes the file when every entry is
    discarded, and the creation of the new file when some entry stays.  The
    ratio is the integer part of the true percentage as long as
    [discard * 100] fits 32 bits. *)
Theorem Rewrite_threshold (gc : GarbageCollection) (st : ValueLogImpl) :
  total_size gc ≠ 0 →
  total_entries gc ≠ 0 →
  paired (vb_records (value_batch gc)) (rewrites gc) →
  let size_ratio := u32 (discard_size gc * 100) / total_size gc in
  let num_ratio := u32 (discard_entries gc * 100) / total_entries gc in
  let below :=
    size_ratio < blob_gc_size_discard_threshold (options_ st)
    ∧ num_ratio < blob_gc_num_discard_threshold (options_ st) in
  (below ↔ Rewrite gc st = Ret (NonFatal, gc, st))
  ∧ (¬ below →
     ∃ s gc' st' e evs,
       Rewrite gc st = Ret (s, gc', st')
       ∧ trace_ st' = trace_ st ++ e :: evs
       ∧ ((discard_entries gc = total_entries gc ∧ evs = []
           ∧ e = EvVersionEdit
                   {| added := [];
                      deleted := [(number gc, DBImpl_LatestSequence (db_ st))] |} s)
          ∨ (discard_entries gc ≠ total_entries gc
             ∧ ∃ s0, e = EvNewFile (u64 (vlog_file_number_ st + 1)) s0)))
  ∧ (discard_size gc * 100 < 2 ^ 32 →
     size_ratio = discard_size gc * 100 / total_size gc)
  ∧ (discard_entries gc * 100 < 2 ^ 32 →
     num_ratio = discard_entries gc * 100 / total_entries gc).
Proof.
  intros Hs He Hp size_ratio num_ratio below.
  assert (Hspec : below_threshold (options_ st) gc = true ↔ below)
    by apply below_threshold_spec.
  assert (Hproceed : ¬ below →
     ∃ s gc' st' e evs,
       Rewrite gc st = Ret (s, gc', st')
       ∧ trace_ st' = trace_ st ++ e :: evs
       ∧ ((discard_entries gc = total_entries gc ∧ evs = []
           ∧ e = EvVersionEdit
                   {| added := [];
                      deleted := [(number gc, DBImpl_LatestSequence (db_ st))] |} s)
          ∨ (discard_entries gc ≠ total_entries gc
             ∧ ∃ s0, e = EvNewFile (u64 (vlog_file_number_ st + 1)) s0))).
  { intros Hnb. apply Rewrite_proceeds; try done.
    destruct (below_threshold (options_ st) gc); [| done].
    exfalso. by apply Hnb, Hspec. }
  split; [| split; [exact Hproceed | split]].
  - split.
    + intros Hb. apply Rewrite_below; try done. by apply Hspec.
    + intros Hrun. destruct (decide below) as [Hb | Hnb]; [done |].
      destruct (Hproceed Hnb) as (s & gc' & st' & e & evs & Hrun' & Htr & _).
      rewrite Hrun in Hrun'. injection Hrun' as <- <- <-.
      apply (f_equal length) in Htr. rewrite length_app in Htr. cbn in Htr. lia.
  - intros Hsmall. unfold size_ratio. by rewrite u32_small.
  - intros Hsmall. unfold num_ratio. by rewrite u32_small.
Qed.

Lemma Rewrite_threshold_witness :
  total_size Scenario.collected_1 ≠ 0
  ∧ total_entries Scenario.collected_1 ≠ 0
  ∧ paired (vb_records (value_batch Scenario.collected_1))
           (rewrites Scenario.collected_1)
  ∧ ∃ s gc' st' e evs,
      Rewrite Scenario.collected_1 Scenario.st0 = Ret (s, gc', st')
      ∧ trace_ st' = trace_ Scenario.st0 ++ e :: evs.
Proof.
  assert (H1 : total_size Scenario.collected_1 ≠ 0) by compute_done.
  assert (H2 : total_entries Scenario.collected_1 ≠ 0) by compute_done.
  assert (H3 : paired (vb_records (value_batch Scenario.collected_1))
                      (rewrites Scenario.collected_1))
    by (unfold paired; compute_done).
  split; [exact H1 | split; [exact H2 | split; [exact H3 |]]].
  destruct (proj1 (proj2 (Rewrite_threshold Scenario.collected_1 Scenario.st0 H1 H2 H3)))
    as (s & gc' & st' & e & evs & Hrun & Htr & _).
  - compute_done.
  - by exists s, gc', st', e, evs.
Defined.

(** C4.  The ratios are computed on [uint32_t], where [discard * 100] wraps
    from 42 949 673 on.  For a collection over 60 000 000 bytes of which
    50 000 000 are discarded the percentage, 83, reaches the threshold of 50;
    the code computes 11, and with the entries ratio at 10 Rewrite returns
    NonFatal and does nothing. *)
Theorem Rewrite_threshold_overflows :
  let gc := Scenario.gc_large in
  let o := options_ Scenario.st0 in
  total_size gc ≠ 0 ∧ total_entries gc ≠ 0
  ∧ blob_gc_size_discard_threshold o ≤ discard_size gc * 100 / total_size gc
  ∧ discard_size gc * 100 / total_size gc = 83
  ∧ discard_percent (discard_size gc) (total_size gc) = 11
  ∧ Rewrite gc Scenario.st0 = Ret (NonFatal, gc, Scenario.st0).
Proof.
  cbv zeta.
  split; [discriminate |]. split; [discriminate |].
  split; [vm_compute; discriminate |].
  split; [reflexivity |]. split; [reflexivity |].
  apply Rewrite_below; [discriminate | discriminate | reflexivity].
Qed.

(** ** Rewrite: a collection that counted nothing *)

(** C5.  Rewrite has no guard for a collection that counted nothing: the
    ratios are computed first.  In the scenario the first background run
    rewrites file 1 into file 3; the next run picks file 3, whose number is
    the current maximum, so [Collect] returns NonFatal with all counters at
    zero, the run goes on to Rewrite, and Rewrite divides by zero. *)
Theorem BackgroundGC_divides_by_zero :
  match BackgroundGC Scenario.st0 with
  | Ret st1 => bg_error_ st1 = OK ∧ BackgroundGC st1 = Crash DivisionByZero
  | Crash _ => False
  end.
Proof. vm_compute. split; reflexivity. Qed.

(** ** PickGC *)

Lemma least_from_spec (n : N) (keys : list N) :
  match least_from n keys with
  | None => ∀ k, k ∈ keys → k < n
  | Some m => m ∈ keys ∧ n ≤ m ∧ ∀ k, k ∈ keys → n ≤ k → m ≤ k
  end.
Proof.
  induction keys as [|x keys IH].
  - intros k Hk. by apply elem_of_nil in Hk.
  - unfold least_from; cbn [foldr]; fold (least_from n keys).
    destruct (decide (n ≤ x)) as [Hx | Hx].
    + destruct (least_from n keys) as [m |].
      * destruct IH as (Hm & Hnm & Hmin). split; [| split].
        -- destruct (N.min_spec x m) as [[_ ->] | [_ ->]];
             [apply list_elem_of_here | by apply list_elem_of_further].
        -- lia.
        -- intros k Hk Hnk. apply elem_of_cons in Hk as [-> | Hk]; [lia |].
           specialize (Hmin k Hk Hnk). lia.
      * split; [apply list_elem_of_here | split; [done |]].
        intros k Hk Hnk. apply elem_of_cons in Hk as [-> | Hk]; [done |].
        specialize (IH k Hk). lia.
    + destruct (least_from n keys) as [m |].
      * destruct IH as (Hm & Hnm & Hmin). split; [| split; [done |]].
        -- by apply list_elem_of_further.
        -- intros k Hk Hnk. apply elem_of_cons in Hk as [-> | Hk]; [lia |].
           by apply Hmin.
      * intros k Hk. apply elem_of_cons in Hk as [-> | Hk]; [lia | by apply IH].
Qed.

Lemma elem_of_keys {V} (m : gmap N V) (k : N) :
  k ∈ (map_to_list m).*1 ↔ is_Some (m !! k).
Proof.
  rewrite list_elem_of_fmap. split.
  - intros [[k' v] [-> Hin]]. apply elem_of_map_to_list in Hin. by eexists.
  - intros [v Hv]. exists (k, v). split; [done |]. by apply elem_of_map_to_list.
Qed.

Lemma lower_bound_spec {V} (m : gmap N V) (n : N) :
  match lower_bound m n with
  | None => ∀ k, is_Some (m !! k) → k < n
  | Some k => is_Some (m !! k) ∧ n ≤ k ∧ ∀ k', is_Some (m !! k') → n ≤ k' → k ≤ k'
  end.
Proof.
  unfold lower_bound. pose proof (least_from_spec n (map_to_list m).*1) as H.
  destruct (least_from n (map_to_list m).*1) as [k |].
  - destruct H as (Hk & Hnk & Hmin). split; [by apply elem_of_keys | split; [done |]].
    intros k' Hk' Hn. apply Hmin; [by apply elem_of_keys | done].
  - intros k Hk. apply H. by apply elem_of_keys.
Qed.

Lemma PickGC_loop_spec (st : ValueLogImpl) :
  numbers_in_range st →
  ∀ (fuel : nat) (n : N),
    (size (filter (fun k : N => (n ≤ k)%N) (dom (ro_files_ st))) < fuel)%nat →
    ∃ r, PickGC_loop fuel (ro_files_ st) (obsolete_files_ st) n = Some r
         ∧ match r with
           | Some k => least_candidate st n k
           | None => no_candidate st n
           end.
Proof.
  intros Hrange. induction fuel as [|fuel IH]; intros n Hsize; [lia |].
  cbn [PickGC_loop]. pose proof (lower_bound_spec (ro_files_ st) n) as Hlb.
  destruct (lower_bound (ro_files_ st) n) as [k |].
  - destruct Hlb as (Hk & Hnk & Hmin).
    destruct (obsolete_files_ st !! k) as [seq |] eqn:Hob.
    + assert (Hu : u64 (k + 1) = k + 1).
      { destruct Hk as [f Hf]. specialize (Hrange k f Hf). cbn in Hrange.
        unfold u64. apply N.mod_small. lia. }
      rewrite Hu.
      destruct (IH (k + 1)) as (r & Hrun & Hr).
      { assert (filter (fun k' => k + 1 ≤ k') (dom (ro_files_ st))
                ⊂ filter (fun k' => n ≤ k') (dom (ro_files_ st))) as Hsub.
        { split.
          - intros x. rewrite !elem_of_filter. intros [? ?]. split; [lia | done].
          - intros Hc. specialize (Hc k). rewrite !elem_of_filter in Hc.
            destruct Hc as [Hc _]; [split; [done | by apply elem_of_dom] | lia]. }
        apply subset_size in Hsub. lia. }
      exists r. split; [done |]. destruct r as [c |].
      * destruct Hr as (Hc & Hkc & Hcob & Hcmin).
        split; [done | split; [lia | split; [done |]]].
        intros k' Hk' Hnk' Hob'. apply Hcmin; [done | | done].
        specialize (Hmin k' Hk' Hnk').
        assert (k' ≠ k) by (intros ->; by rewrite Hob in Hob'). lia.
      * intros k' Hk' Hnk'. destruct (decide (k' = k)) as [-> | Hne].
        -- rewrite Hob. by eexists.
        -- apply Hr; [done |]. specialize (Hmin k' Hk' Hnk'). lia.
    + exists (Some k). split; [done |].
      split; [done | split; [done | split; [done |]]].
      intros k' Hk' Hnk' _. by apply Hmin.
  - exists None. split; [done |]. intros k' Hk' Hnk'. specialize (Hlb k' Hk'). lia.
Qed.

Lemma PickGC_spec (n : N) (st : ValueLogImpl) :
  numbers_in_range st →
  ∃ r, PickGC n st = Some r
       ∧ match r with
         | Some gc => gc = GarbageCollection_new (number gc)
                      ∧ least_candidate st n (number gc)
         | None => no_candidate st n
         end.
Proof.
  intros Hrange. unfold PickGC.
  destruct (PickGC_loop_spec st Hrange (S (size (ro_files_ st))) n) as (r & Hrun & Hr).
  { rewrite <- size_dom.
    assert (size (filter (fun k : N => (n ≤ k)%N) (dom (ro_files_ st)))
            ≤ size (dom (ro_files_ st)))%nat; [| lia].
    apply subseteq_size. intros x. rewrite elem_of_filter. by intros [_ ?]. }
  rewrite Hrun. destruct r as [k |].
  - exists (Some (GarbageCollection_new k)). by cbn.
  - by exists None.
Qed.

(** ** What the phases leave alone *)

Lemma Collect_loop_frame :
  ∀ (items : list (string * string * ValueHandle)) (loc : CollectLocals)
    (gc : GarbageCollection) (st : ValueLogImpl),
    snd (Collect_loop items loc gc st)
    = set_trace_ (trace_ (snd (Collect_loop items loc gc st))) st.
Proof.
  induction items as [|[[key value] item] rest IH]; intros loc gc st.
  - cbn. by destruct st.
  - cbn [Collect_loop].
    destruct (DBImpl_Get (db_ st) key _ _) as [[s enc] vt].
    destruct (negb (ok s) && negb (IsNotFound s)); [reflexivity |].
    match goal with |- context [if ?c then _ else _] => destruct c end;
      match goal with |- context [Collect_loop rest ?l ?g ?s0] =>
        rewrite (IH l g s0) at 1 end; reflexivity.
Qed.

Lemma Collect_frame (gc : GarbageCollection) (st : ValueLogImpl) :
  snd (Collect gc st) = set_trace_ (trace_ (snd (Collect gc st))) st.
Proof.
  unfold Collect.
  destruct ((CurrentFileNumber st <=? number gc) || (number gc =? 0));
    [by destruct st |].
  destruct (NewVLogFileIterator (number gc) st) as [items |]; [| by destruct st].
  match goal with |- context [Collect_loop ?i ?l ?g ?s0] =>
    pose proof (Collect_loop_frame i l g s0) as Hf;
    destruct (Collect_loop i l g s0) as [[loc1 gc1] st2] end.
  cbn [snd] in *. rewrite Hf at 1. reflexivity.
Qed.

Lemma Iterate_loop_frame :
  ∀ (items : list (string * string * ValueHandle)) (h : RewriteLSMHandler)
    (rw : list (WriteBatch * ValueLogGCWriteCallback)) (st : ValueLogImpl)
    h' rw' st',
    Iterate_loop items h rw st = Ret (h', rw', st') → same_but_lsm st st'.
Proof.
  induction items as [|[[key v] hd] rest IH]; intros h rw st h' rw' st' Hrun.
  - cbn in Hrun. injection Hrun as _ _ <-. apply same_but_lsm_refl.
  - cbn [Iterate_loop] in Hrun. unfold RewriteLSMHandler_call in Hrun.
    destruct (shutdown_ st); [injection Hrun as _ _ <-; apply same_but_lsm_refl |].
    destruct (rw !! h_iter h) as [[batch cb] |]; [| done].
    destruct (DBImpl_Write (db_ st) _ cb) as [s db1].
    destruct (negb (ok s)).
    + injection Hrun as _ _ <-. eapply same_but_lsm_step, same_but_lsm_refl.
    + case_bool_decide.
      * injection Hrun as _ _ <-. eapply same_but_lsm_step, same_but_lsm_refl.
      * apply IH in Hrun. by eapply same_but_lsm_step.
Qed.

Lemma scheduling_LogAndApply (edit : BlobVersionEdit) (st : ValueLogImpl) :
  scheduling (snd (LogAndApply edit st)) = scheduling st.
Proof. unfold LogAndApply. by destruct (ok (manifest_status (env_ st))). Qed.

Lemma Rewrite_scheduling (gc : GarbageCollection) (st : ValueLogImpl)
    (s : Status) (gc' : GarbageCollection) (st' : ValueLogImpl) :
  Rewrite gc st = Ret (s, gc', st') → scheduling st' = scheduling st.
Proof.
  unfold Rewrite.
  destruct ((total_size gc =? 0) || (total_entries gc =? 0)); [done |].
  destruct (below_threshold (options_ st) gc); [by intros [= _ _ <-] |].
  destruct (discard_entries gc =? total_entries gc).
  { match goal with |- context [LogAndApply ?e ?s0] =>
      pose proof (scheduling_LogAndApply e s0) as Hl;
      destruct (LogAndApply e s0) as [s1 st1] end.
    by intros [= _ _ <-]. }
  cbn [NewFileNumber].
  destruct (ok (new_file_status _ _)); cbn [negb]; [| by intros [= _ _ <-]].
  cbn [write_new_vlog]. unfold rewrite_to_LSM, ValueBatch_Iterate.
  match goal with |- context [Iterate_loop ?i ?h ?r ?s0] =>
    destruct (Iterate_loop i h r s0) as [[[h1 rw1] st5] | e] eqn:Hit end; [| done].
  apply Iterate_loop_frame in Hit. cbn [ok negb orb].
  assert (Hs5 : scheduling st5 = scheduling st) by (by rewrite Hit).
  destruct (ok (h_s h1)); cbn [negb]; [| by intros [= _ _ <-]].
  destruct (ok (DBImpl_Sync (db_ st5))); cbn [negb]; [| by intros [= _ _ <-]].
  match goal with |- context [LogAndApply ?e ?s0] =>
    pose proof (scheduling_LogAndApply e s0) as Hl;
    destruct (LogAndApply e s0) as [s3 st7] end.
  intros [= _ _ <-]. cbn [snd] in Hl. by rewrite Hl.
Qed.

(** ** No phase of a run reads [bg_error_] *)

Lemma Collect_loop_bg_error (e : Status) :
  ∀ (items : list (string * string * ValueHandle)) (loc : CollectLocals)
    (gc : GarbageCollection) (st : ValueLogImpl),
    Collect_loop items loc gc (set_bg_error_ e st)
    = (let '(l, g, st') := Collect_loop items loc gc st in (l, g, set_bg_error_ e st')).
Proof.
  induction items as [|[[key value] item] rest IH]; intros loc gc st; [done |].
  cbn [Collect_loop]. change (db_ (set_bg_error_ e st)) with (db_ st).
  destruct (DBImpl_Get (db_ st) key _ _) as [[s enc] vt].
  destruct (negb (ok s) && negb (IsNotFound s)); [reflexivity |].
  match goal with |- context [if ?c then _ else _] => destruct c end;
    match goal with |- context [Collect_loop rest ?l ?g (emit ?ev st)] =>
      exact (IH l g (emit ev st)) end.
Qed.

Lemma Collect_bg_error (e : Status) (gc : GarbageCollection) (st : ValueLogImpl) :
  Collect gc (set_bg_error_ e st)
  = (let '(s, g, st') := Collect gc st in (s, g, set_bg_error_ e st')).
Proof.
  unfold Collect. change (CurrentFileNumber (set_bg_error_ e st)) with (CurrentFileNumber st).
  destruct ((CurrentFileNumber st <=? number gc) || (number gc =? 0)); [done |].
  change (NewVLogFileIterator (number gc) (set_bg_error_ e st))
    with (NewVLogFileIterator (number gc) st).
  destruct (NewVLogFileIterator (number gc) st) as [items |]; [| done].
  match goal with |- context [Collect_loop ?i ?l ?g (emit ?ev st)] =>
    pose proof (Collect_loop_bg_error e i l g (emit ev st)) as Hc;
    destruct (Collect_loop i l g (emit ev st)) as [[loc1 gc1] st2] end.
  change (emit (EvIterOpen (number gc)) (set_bg_error_ e st))
    with (set_bg_error_ e (emit (EvIterOpen (number gc)) st)).
  change (env_ (set_bg_error_ e st)) with (env_ st).
  by rewrite Hc.
Qed.

Lemma Iterate_loop_bg_error (e : Status) :
  ∀ (items : list (string * string * ValueHandle)) (h : RewriteLSMHandler)
    (rw : list (WriteBatch * ValueLogGCWriteCallback)) (st : ValueLogImpl),
    Iterate_loop items h rw (set_bg_error_ e st)
    = match Iterate_loop items h rw st with
      | Ret (h', rw', st') => Ret (h', rw', set_bg_error_ e st')
      | Crash f => Crash f
      end.
Proof.
  induction items as [|[[key v] hd] rest IH]; intros h rw st; [done |].
  cbn [Iterate_loop]. unfold RewriteLSMHandler_call.
  change (shutdown_ (set_bg_error_ e st)) with (shutdown_ st).
  change (db_ (set_bg_error_ e st)) with (db_ st).
  destruct (shutdown_ st); [done |].
  destruct (rw !! h_iter h) as [[batch cb] |]; [| done].
  destruct (DBImpl_Write (db_ st) _ cb) as [s db1].
  destruct (negb (ok s)); [done |].
  case_bool_decide; [done |].
  match goal with |- context [Iterate_loop rest ?h1 ?rw1 (emit ?ev (set_db_ ?d st))] =>
    exact (IH h1 rw1 (emit ev (set_db_ d st))) end.
Qed.

Lemma LogAndApply_bg_error (e : Status) (edit : BlobVersionEdit) (st : ValueLogImpl) :
  LogAndApply edit (set_bg_error_ e st)
  = (fst (LogAndApply edit st), set_bg_error_ e (snd (LogAndApply edit st))).
Proof.
  unfold LogAndApply. change (env_ (set_bg_error_ e st)) with (env_ st).
  by destruct (ok (manifest_status (env_ st))).
Qed.

Lemma rewrite_to_LSM_bg_error (e : Status) (f : VLogFileMeta) (vb : ValueBatch)
    (gc : GarbageCollection) (st : ValueLogImpl) :
  rewrite_to_LSM f vb gc (set_bg_error_ e st)
  = match rewrite_to_LSM f vb gc st with
    | Ret (s, g, st') => Ret (s, g, set_bg_error_ e st')
    | Crash x => Crash x
    end.
Proof.
  unfold rewrite_to_LSM, ValueBatch_Iterate. rewrite Iterate_loop_bg_error.
  destruct (Iterate_loop _ _ _ st) as [[[h1 rw1] st5] | x]; [| done].
  cbn [ok negb orb]. destruct (ok (h_s h1)); cbn [negb]; [| done].
  change (db_ (set_bg_error_ e st5)) with (db_ st5).
  destruct (ok (DBImpl_Sync (db_ st5))); cbn [negb]; [| done].
  change (emit (EvLSMSync (DBImpl_Sync (db_ st5))) (set_bg_error_ e st5))
    with (set_bg_error_ e (emit (EvLSMSync (DBImpl_Sync (db_ st5))) st5)).
  rewrite LogAndApply_bg_error.
  change (db_ (set_bg_error_ e (emit (EvLSMSync (DBImpl_Sync (db_ st5))) st5)))
    with (db_ (emit (EvLSMSync (DBImpl_Sync (db_ st5))) st5)).
  by destruct (LogAndApply _ _).
Qed.

Lemma Rewrite_bg_error (e : Status) (gc : GarbageCollection) (st : ValueLogImpl) :
  Rewrite gc (set_bg_error_ e st)
  = match Rewrite gc st with
    | Ret (s, g, st') => Ret (s, g, set_bg_error_ e st')
    | Crash x => Crash x
    end.
Proof.
  unfold Rewrite. change (options_ (set_bg_error_ e st)) with (options_ st).
  destruct ((total_size gc =? 0) || (total_entries gc =? 0)); [done |].
  destruct (below_threshold (options_ st) gc); [done |].
  destruct (discard_entries gc =? total_entries gc).
  { rewrite LogAndApply_bg_error. change (db_ (set_bg_error_ e st)) with (db_ st).
    by destruct (LogAndApply _ st). }
  cbn [NewFileNumber]. cbn [env_ emit set_trace_ set_vlog_file_number_ set_bg_error_
                            vlog_file_number_].
  destruct (ok (new_file_status _ _)); cbn [negb]; [| done].
  cbn [write_new_vlog].
  match goal with |- _ = match rewrite_to_LSM ?f ?vb ?g ?s0 with _ => _ end =>
    exact (rewrite_to_LSM_bg_error e f vb g s0) end.
Qed.

Lemma BackgroundGC_bg_error (e : Status) (st : ValueLogImpl) :
  BackgroundGC (set_bg_error_ e st) = BackgroundGC st.
Proof.
  unfold BackgroundGC.
  assert (Hpick : BackgroundGC_pick (set_bg_error_ e st)
                  = match BackgroundGC_pick st with
                    | Some (g, st1) => Some (g, set_bg_error_ e st1)
                    | None => None
                    end).
  { unfold BackgroundGC_pick. change (manual_gc_ (set_bg_error_ e st)) with (manual_gc_ st).
    destruct (manual_gc_ st).
    - change (PickGC (manual_gc_number (set_bg_error_ e st)) (set_bg_error_ e st))
        with (PickGC (manual_gc_number st) st).
      by destruct (PickGC (manual_gc_number st) st).
    - change (PickGC (gc_pointer_ (set_bg_error_ e st)) (set_bg_error_ e st))
        with (PickGC (gc_pointer_ st) st).
      by destruct (PickGC (gc_pointer_ st) st). }
  rewrite Hpick. destruct (BackgroundGC_pick st) as [[[gc |] st1] |]; [| done | done].
  rewrite Collect_bg_error. destruct (Collect gc st1) as [[s gc1] st2].
  destruct (fatal s); [done |].
  rewrite Rewrite_bg_error. destruct (Rewrite gc1 st2) as [[[s1 gc2] st3] | f]; [| done].
  by destruct (fatal s1).
Qed.

(** ** The version after Rewrite *)

Lemma Rewrite_version (gc : GarbageCollection) (st : ValueLogImpl)
    (s : Status) (gc' : GarbageCollection) (st' : ValueLogImpl) :
  Rewrite gc st = Ret (s, gc', st') →
  (∀ k, is_Some (ro_files_ st' !! k) →
        is_Some (ro_files_ st !! k) ∨ k = u64 (vlog_file_number_ st + 1))
  ∧ (∀ k, k ≠ number gc → obsolete_files_ st' !! k = obsolete_files_ st !! k).
Proof.
  unfold Rewrite.
  destruct ((total_size gc =? 0) || (total_entries gc =? 0)); [done |].
  destruct (below_threshold (options_ st) gc); [intros [= _ _ <-]; by auto |].
  destruct (discard_entries gc =? total_entries gc).
  { unfold LogAndApply. destruct (ok (manifest_status (env_ st)));
      intros [= _ _ <-]; cbn; [| by auto].
    split; [by auto |]. intros k Hk. by rewrite lookup_insert_ne. }
  cbn [NewFileNumber].
  destruct (ok (new_file_status _ _)); cbn [negb]; [| intros [= _ _ <-]; by auto].
  cbn [write_new_vlog]. unfold rewrite_to_LSM, ValueBatch_Iterate.
  match goal with |- context [Iterate_loop ?i ?h ?r ?s0] =>
    destruct (Iterate_loop i h r s0) as [[[h1 rw1] st5] | e] eqn:Hit end; [| done].
  apply Iterate_loop_frame in Hit. cbn [ok negb orb].
  assert (Hro : ∀ k, is_Some (ro_files_ st5 !! k) →
            is_Some (ro_files_ st !! k) ∨ k = u64 (vlog_file_number_ st + 1)).
  { rewrite Hit. cbn. intros k. unfold emplace.
    destruct (ro_files_ st !! u64 (vlog_file_number_ st + 1)); [by auto |].
    destruct (decide (u64 (vlog_file_number_ st + 1) = k)) as [<- | Hne]; [by auto |].
    rewrite lookup_insert_ne by done. by auto. }
  assert (Hob : obsolete_files_ st5 = obsolete_files_ st) by (by rewrite Hit).
  destruct (ok (h_s h1)); cbn [negb]; [| intros [= _ _ <-]; by rewrite Hob].
  destruct (ok (DBImpl_Sync (db_ st5))); cbn [negb];
    [| intros [= _ _ <-]; cbn; by rewrite Hob].
  unfold LogAndApply. cbn [env_ emit set_trace_].
  destruct (ok (manifest_status (env_ st5))); cbn [negb];
    intros [= _ _ <-]; cbn; [| by rewrite Hob].
  split.
  - intros k.
    destruct (decide (u64 (vlog_file_number_ st + 1) = k)) as [<- | Hne]; [by auto |].
    rewrite lookup_insert_ne by done. apply Hro.
  - intros k Hk. rewrite lookup_insert_ne by done. by rewrite Hob.
Qed.

Lemma PickGC_loop_in_ro (ro : gmap N VLogFileMeta) (ob : gmap N N) :
  ∀ (fuel : nat) (n k : N),
    PickGC_loop fuel ro ob n = Some (Some k) → is_Some (ro !! k) ∧ ob !! k = None.
Proof.
  induction fuel as [|fuel IH]; intros n k; [done |]. cbn [PickGC_loop].
  pose proof (lower_bound_spec ro n) as Hlb.
  destruct (lower_bound ro n) as [c |]; [| done].
  destruct (ob !! c) eqn:Hob; [apply IH |].
  intros [= <-]. by destruct Hlb.
Qed.

Lemma PickGC_in_ro (n : N) (st : ValueLogImpl) (gc : GarbageCollection) :
  PickGC n st = Some (Some gc) →
  is_Some (ro_files_ st !! number gc) ∧ obsolete_files_ st !! number gc = None.
Proof.
  unfold PickGC.
  destruct (PickGC_loop _ _ _ n) as [[k |] |] eqn:Hl; [| done | done].
  intros [= <-]. cbn. by eapply PickGC_loop_in_ro.
Qed.

(** ** The pick of a background run *)

Lemma BackgroundGC_gc_pointer (st st1 st' : ValueLogImpl) (gc : GarbageCollection) :
  BackgroundGC_pick st = Some (Some gc, st1) →
  BackgroundGC st = Ret st' →
  gc_pointer_ st' = gc_pointer_ st1.
Proof.
  intros Hpick. unfold BackgroundGC. rewrite Hpick.
  pose proof (Collect_frame gc st1) as Hc.
  destruct (Collect gc st1) as [[s gc1] st2]. cbn [snd] in Hc.
  assert (H2 : gc_pointer_ st2 = gc_pointer_ st1) by (by rewrite Hc).
  destruct (fatal s); [by intros [= <-] |].
  destruct (Rewrite gc1 st2) as [[[s1 gc2] st3] | f] eqn:Hr; [| done].
  apply Rewrite_scheduling in Hr.
  assert (H3 : gc_pointer_ st3 = gc_pointer_ st2).
  { unfold scheduling in Hr. by injection Hr. }
  destruct (fatal s1); intros [= <-]; cbn; congruence.
Qed.

(** C6.  While no read-only file carries the largest file number, [PickGC n]
    returns, and what it returns is the candidate for the least read-only
    file number that is not below [n] and not obsolete, or no candidate when
    there is no such number.  In the automatic path a pick of [gc] moves
    [gc_pointer_] to [number gc + 1], where it still is when the run ends,
    and an empty pick ends the run at once with [gc_pointer_] reset to 0 and
    NonFatal recorded. *)
Theorem PickGC_least_candidate (n : N) (st : ValueLogImpl) :
  numbers_in_range st →
  (∃ r, PickGC n st = Some r
        ∧ match r with
          | Some gc => gc = GarbageCollection_new (number gc)
                       ∧ least_candidate st n (number gc)
          | None => no_candidate st n
          end)
  ∧ (manual_gc_ st = false →
     ∃ r, PickGC (gc_pointer_ st) st = Some r
          ∧ match r with
            | Some gc =>
                BackgroundGC_pick st
                = Some (Some gc, set_gc_pointer_ (number gc + 1) st)
                ∧ ∀ st', BackgroundGC st = Ret st' → gc_pointer_ st' = number gc + 1
            | None =>
                BackgroundGC st = Ret (RecordBGError NonFatal (set_gc_pointer_ 0 st))
            end).
Proof.
  intros Hrange. split; [by apply PickGC_spec |].
  intros Hauto.
  destruct (PickGC_spec (gc_pointer_ st) st Hrange) as (r & Hrun & Hr).
  exists r. split; [done |]. destruct r as [gc |].
  - destruct Hr as (_ & [f Hf] & _).
    assert (Hu : u64 (number gc + 1) = number gc + 1).
    { specialize (Hrange _ _ Hf). cbn in Hrange. unfold u64. apply N.mod_small. lia. }
    assert (Hpick : BackgroundGC_pick st
                    = Some (Some gc, set_gc_pointer_ (number gc + 1) st)).
    { unfold BackgroundGC_pick. by rewrite Hauto, Hrun, Hu. }
    split; [done |]. intros st' Hrun'.
    by rewrite (BackgroundGC_gc_pointer _ _ _ _ Hpick Hrun').
  - unfold BackgroundGC, BackgroundGC_pick. by rewrite Hauto, Hrun.
Qed.

Lemma PickGC_least_candidate_witness :
  numbers_in_range Scenario.st0
  ∧ ∃ r, PickGC 0 Scenario.st0 = Some r
         ∧ match r with
           | Some gc => gc = GarbageCollection_new (number gc)
                        ∧ least_candidate Scenario.st0 0 (number gc)
           | None => no_candidate Scenario.st0 0
           end.
Proof.
  assert (H : numbers_in_range Scenario.st0) by (unfold numbers_in_range; compute_done).
  split; [exact H |].
  exact (proj1 (PickGC_least_candidate 0 Scenario.st0 H)).
Defined.

(** ** Collect: the candidates it refuses *)

(** C9.  [Collect] returns NonFatal and leaves the collection and the store as
    they were, so that no record is looked up or counted, when the number of
    the candidate is 0, or is not below the current maximum file number, or
    no iterator opens for it.  The file being built is never collected by a
    background run: it is not among the read-only files [PickGC] chooses
    from, and [Collect] refuses it when its number is the current maximum. *)
Theorem Collect_rejects (gc : GarbageCollection) (st : ValueLogImpl) :
  (number gc = 0 ∨ CurrentFileNumber st ≤ number gc
   ∨ NewVLogFileIterator (number gc) st = None →
   Collect gc st = (NonFatal, gc, st))
  ∧ (rwfile_ st ∉ dom (ro_files_ st) ∨ CurrentFileNumber st ≤ rwfile_ st
     ∨ rwfile_ st = 0 →
     ∀ gc' st1,
       BackgroundGC_pick st = Some (Some gc', st1) →
       number gc' = rwfile_ st →
       Collect gc' st1 = (NonFatal, gc', st1)).
Proof.
  assert (Hrej : ∀ g s0,
            number g = 0 ∨ CurrentFileNumber s0 ≤ number g
            ∨ NewVLogFileIterator (number g) s0 = None →
            Collect g s0 = (NonFatal, g, s0)).
  { intros g s0 Hcase. unfold Collect.
    destruct (N.leb_spec (CurrentFileNumber s0) (number g)); [done |].
    destruct (N.eqb_spec (number g) 0); [done |]. cbn [orb].
    destruct Hcase as [? | [? | ->]]; [done | lia | done]. }
  split; [apply Hrej |].
  intros Hactive gc' st1 Hpick Hnum.
  assert (Hin : is_Some (ro_files_ st !! number gc')
                ∧ CurrentFileNumber st1 = CurrentFileNumber st).
  { unfold BackgroundGC_pick in Hpick. destruct (manual_gc_ st).
    - destruct (PickGC (manual_gc_number st) st) as [r |] eqn:Hp; [| done].
      injection Hpick as -> <-. split; [| done]. by eapply PickGC_in_ro.
    - destruct (PickGC (gc_pointer_ st) st) as [r |] eqn:Hp; [| done].
      injection Hpick as -> <-. split; [| done]. by eapply PickGC_in_ro. }
  destruct Hin as [Hro Hcur]. apply Hrej.
  destruct Hactive as [Hnot | [Hmax | Hzero]].
  - exfalso. apply Hnot. rewrite <- Hnum. by apply elem_of_dom.
  - right; left. rewrite Hcur, Hnum. done.
  - left. by rewrite Hnum.
Qed.

Lemma Collect_rejects_witness :
  let gc := GarbageCollection_new (rwfile_ Scenario.st0) in
  (number gc = 0 ∨ CurrentFileNumber Scenario.st0 ≤ number gc
   ∨ NewVLogFileIterator (number gc) Scenario.st0 = None)
  ∧ Collect gc Scenario.st0 = (NonFatal, gc, Scenario.st0).
Proof.
  cbv zeta.
  assert (H : number (GarbageCollection_new (rwfile_ Scenario.st0)) = 0
              ∨ CurrentFileNumber Scenario.st0
                ≤ number (GarbageCollection_new (rwfile_ Scenario.st0))
              ∨ NewVLogFileIterator
                  (number (GarbageCollection_new (rwfile_ Scenario.st0)))
                  Scenario.st0 = None).
  { right; left. compute_done. }
  split; [exact H |].
  exact (proj1 (Collect_rejects _ Scenario.st0) H).
Defined.

(** ** pending_outputs_ and the pick *)

(** C7 as the specification words it fails: when the sync of the LSM fails, Rewrite
    returns with the new file 3 in [pending_outputs_] and in [ro_files_] and
    without any version edit, and [PickGC 3] selects file 3. *)
Lemma PickGC_selects_pending_output_counterexample :
  match Rewrite Scenario.collected_1 Scenario.st_sync_fails with
  | Ret (s, _, st') =>
      3 ∈ pending_outputs_ st'
      ∧ existsb is_version_edit (trace_ st') = false
      ∧ PickGC 3 st' = Some (Some (GarbageCollection_new 3))
  | Crash _ => False
  end.
Proof. vm_compute. split; [compute_done | split; reflexivity]. Qed.

(** C7, as the code has it.  [PickGC] does not consult [pending_outputs_]; it
    selects read-only files only.  So the output [num] of a collection, which
    Rewrite puts in [pending_outputs_] and leaves there, cannot be selected
    before Rewrite adds it to [ro_files_]; once Rewrite has returned, whether
    or not the version edit was written, [PickGC num] selects it. *)
Theorem PickGC_ignores_pending_outputs (gc : GarbageCollection) (st : ValueLogImpl) :
  reaches_copy gc st →
  paired (vb_records (value_batch gc)) (rewrites gc) →
  numbers_in_range st →
  let num := u64 (vlog_file_number_ st + 1) in
  num < 2 ^ 64 - 1 →
  num ≠ number gc →
  obsolete_files_ st !! num = None →
  (∀ n p, PickGC n (set_pending_outputs_ p st) = PickGC n st)
  ∧ (∀ n st0 gc0, PickGC n st0 = Some (Some gc0) →
       is_Some (ro_files_ st0 !! number gc0))
  ∧ ∃ s gc' st',
      Rewrite gc st = Ret (s, gc', st')
      ∧ num ∈ pending_outputs_ st'
      ∧ PickGC num st' = Some (Some (GarbageCollection_new num)).
Proof.
  intros Hreach Hp Hrange num Hnum Hne Hob.
  split; [reflexivity |].
  split; [intros n st0 gc0 Hpick; by eapply PickGC_in_ro |].
  destruct (Rewrite_copy_run (2 ^ 33) gc st Hreach Hp)
    as (s & gc' & st' & writes & tail & Hrun & _ & _ & Hpend & Hro & _).
  { apply handles_from_bounded. lia. }
  exists s, gc', st'. split; [done | split; [done |]].
  destruct (Rewrite_version gc st s gc' st' Hrun) as [Hro' Hob'].
  assert (Hrange' : numbers_in_range st').
  { intros k f Hk. cbn. destruct (Hro' k) as [[f0 Hf0] | ->]; [by eexists | | done].
    exact (Hrange k f0 Hf0). }
  assert (Hfree : obsolete_files_ st' !! num = None) by (by rewrite Hob').
  destruct (PickGC_spec num st' Hrange') as (r & Hpick & Hr).
  rewrite Hpick. destruct r as [gc0 |].
  - destruct Hr as (Hnew & _ & Hle & _ & Hmin).
    assert (number gc0 = num) as Heq.
    { specialize (Hmin num Hro (N.le_refl _) Hfree). lia. }
    by rewrite Hnew, Heq.
  - exfalso. destruct (Hr num Hro (N.le_refl _)) as [x Hx]. by rewrite Hfree in Hx.
Qed.

Lemma PickGC_ignores_pending_outputs_witness :
  reaches_copy Scenario.collected_1 Scenario.st0
  ∧ paired (vb_records (value_batch Scenario.collected_1))
           (rewrites Scenario.collected_1)
  ∧ numbers_in_range Scenario.st0
  ∧ 3 < 2 ^ 64 - 1
  ∧ 3 ≠ number Scenario.collected_1
  ∧ obsolete_files_ Scenario.st0 !! 3 = None
  ∧ ∃ s gc' st',
      Rewrite Scenario.collected_1 Scenario.st0 = Ret (s, gc', st')
      ∧ 3 ∈ pending_outputs_ st'
      ∧ PickGC 3 st' = Some (Some (GarbageCollection_new 3)).
Proof.
  assert (H1 : reaches_copy Scenario.collected_1 Scenario.st0)
    by (unfold reaches_copy; compute_done).
  assert (H2 : paired (vb_records (value_batch Scenario.collected_1))
                      (rewrites Scenario.collected_1))
    by (unfold paired; compute_done).
  assert (H3 : numbers_in_range Scenario.st0)
    by (unfold numbers_in_range; compute_done).
  assert (H4 : 3 < 2 ^ 64 - 1) by compute_done.
  assert (H5 : 3 ≠ number Scenario.collected_1) by compute_done.
  assert (H6 : obsolete_files_ Scenario.st0 !! 3 = None) by compute_done.
  repeat (split; [assumption |]).
  exact (proj2 (proj2 (PickGC_ignores_pending_outputs
                         Scenario.collected_1 Scenario.st0 H1 H2 H3 H4 H5 H6))).
Defined.

(** ** The status a run records *)

(** C10.  A background run that ends leaves in [bg_error_], which
    [VLogBGError] reports, the status of that run whatever was stored before:
    NonFatal after an empty pick, the status of [Collect] when that is fatal,
    and otherwise the status [Rewrite] returned, NonFatal below the
    thresholds and OK after a rewrite that succeeded.  The run does not read
    the status stored before it. *)
Theorem BackgroundGC_records_status (st : ValueLogImpl) :
  (∀ e, BackgroundGC (set_bg_error_ e st) = BackgroundGC st)
  ∧ (∀ st1, BackgroundGC_pick st = Some (None, st1) →
       ∃ st', BackgroundGC st = Ret st' ∧ VLogBGError st' = NonFatal)
  ∧ (∀ gc st1 s gc1 st2,
       BackgroundGC_pick st = Some (Some gc, st1) →
       Collect gc st1 = (s, gc1, st2) →
       (fatal s = true → ∃ st', BackgroundGC st = Ret st' ∧ VLogBGError st' = s)
       ∧ (fatal s = false →
          ∀ s1 gc2 st3, Rewrite gc1 st2 = Ret (s1, gc2, st3) →
            ∃ st', BackgroundGC st = Ret st' ∧ VLogBGError st' = s1)
       ∧ (fatal s = false → total_size gc1 ≠ 0 → total_entries gc1 ≠ 0 →
          below_threshold (options_ st2) gc1 = true →
          ∃ st', BackgroundGC st = Ret st' ∧ VLogBGError st' = NonFatal)).
Proof.
  split; [intros e; apply BackgroundGC_bg_error |].
  split.
  - intros st1 Hpick. unfold BackgroundGC. rewrite Hpick. by eexists.
  - intros gc st1 s gc1 st2 Hpick Hcol.
    assert (Hrew : fatal s = false →
              ∀ s1 gc2 st3, Rewrite gc1 st2 = Ret (s1, gc2, st3) →
                ∃ st', BackgroundGC st = Ret st' ∧ VLogBGError st' = s1).
    { intros Hs s1 gc2 st3 Hrun. unfold BackgroundGC.
      rewrite Hpick, Hcol, Hs, Hrun. destruct (fatal s1); by eexists. }
    split; [| split; [exact Hrew |]].
    + intros Hs. unfold BackgroundGC. rewrite Hpick, Hcol, Hs. by eexists.
    + intros Hs Hts Hte Hb. eapply Hrew; [done |]. by apply Rewrite_below.
Qed.

(** A run that succeeds after a run that ended NonFatal. *)
Lemma BackgroundGC_records_status_witness :
  bg_error_ Scenario.st_nonfatal = NonFatal
  ∧
  BackgroundGC_pick Scenario.st_nonfatal
  = Some (Some (GarbageCollection_new 1), set_gc_pointer_ 2 Scenario.st_nonfatal)
  ∧ ∃ st', BackgroundGC Scenario.st_nonfatal = Ret st' ∧ VLogBGError st' = OK.
Proof.
  assert (Hpick : BackgroundGC_pick Scenario.st_nonfatal
                  = Some (Some (GarbageCollection_new 1),
                          set_gc_pointer_ 2 Scenario.st_nonfatal)) by reflexivity.
  split; [reflexivity |]. split; [exact Hpick |].
  destruct (Collect (GarbageCollection_new 1) (set_gc_pointer_ 2 Scenario.st_nonfatal))
    as [[s gc1] st2] eqn:Hcol.
  destruct (Rewrite gc1 st2) as [[[s1 gc2] st3] | f] eqn:Hrun.
  - assert (Hs : fatal s = false).
    { vm_compute in Hcol. by injection Hcol as <- _ _. }
    assert (Hs1 : s1 = OK).
    { vm_compute in Hcol. injection Hcol as _ <- <-.
      vm_compute in Hrun. by injection Hrun as <- _ _. }
    destruct (proj1 (proj2 (proj2 (proj2 (BackgroundGC_records_status Scenario.st_nonfatal))
                _ _ _ _ _ Hpick Hcol)) Hs _ _ _ Hrun) as (st' & Hbg & Herr).
    exists st'. by rewrite <- Hs1.
  - exfalso. vm_compute in Hcol. injection Hcol as _ <- <-.
    vm_compute in Hrun. discriminate Hrun.
Defined.

(** ** Scheduling *)

(** C8.  When the shutdown flag is set, or [bg_error_] is neither OK nor
    NonFatal, [MaybeScheduleGC] schedules nothing and a woken [BGCall] only
    clears [bg_garbage_collection_]: it collects nothing and schedules
    nothing.  Otherwise scheduling goes its normal way: with no run under way
    a task is scheduled exactly when a manual run is requested or the
    seconds since the last run, as the [int] the code narrows them to, exceed
    [blob_gc_interval], and a woken [BGCall] runs [BackgroundGC] and then
    tries to schedule again. *)
Theorem scheduling_gate (st : ValueLogImpl) :
  (shutdown_ st = true ∨ (bg_error_ st ≠ OK ∧ bg_error_ st ≠ NonFatal) →
   MaybeScheduleGC st = st
   ∧ (bg_garbage_collection_ st = true →
      BGCall st = Ret (set_bg_garbage_collection_ false st)))
  ∧ (shutdown_ st = false → bg_error_ st = OK ∨ bg_error_ st = NonFatal →
     (bg_garbage_collection_ st = false →
      MaybeScheduleGC st
      = if manual_gc_ st
           || (blob_gc_interval (options_ st)
               <? i32 (now (env_ st) - gc_last_run_ st))%Z
        then emit EvSchedule (set_bg_garbage_collection_ true st)
        else st)
     ∧ (bg_garbage_collection_ st = true →
        BGCall st
        = match BackgroundGC st with
          | Ret st1 => Ret (MaybeScheduleGC (set_bg_garbage_collection_ false st1))
          | Crash f => Crash f
          end)).
Proof.
  split.
  - intros Hstop.
    assert (Hgate : shutdown_ st = true ∨ fatal (bg_error_ st) = true).
    { destruct Hstop as [? | [H1 H2]]; [by left | right].
      by destruct (bg_error_ st). }
    split.
    + unfold MaybeScheduleGC. destruct (bg_garbage_collection_ st); [done |].
      destruct Hgate as [-> | Hf]; [done |].
      destruct (shutdown_ st); [done |]. by rewrite Hf.
    + intros Hbg. unfold BGCall. rewrite Hbg. cbn [negb].
      assert (Hr : (if shutdown_ st then Ret st
                    else if fatal (bg_error_ st) then Ret st else BackgroundGC st)
                   = Ret st).
      { destruct Hgate as [-> | Hf]; [done |].
        destruct (shutdown_ st); [done |]. by rewrite Hf. }
      rewrite Hr. unfold MaybeScheduleGC. cbn.
      destruct Hgate as [-> | Hf]; [done |].
      destruct (shutdown_ st); [done |]. by rewrite Hf.
  - intros Hsh Herr.
    assert (Hf : fatal (bg_error_ st) = false) by (by destruct Herr as [-> | ->]).
    split.
    + intros Hbg. unfold MaybeScheduleGC. by rewrite Hbg, Hsh, Hf.
    + intros Hbg. unfold BGCall. by rewrite Hbg, Hsh, Hf.
Qed.

Lemma scheduling_gate_witness :
  (shutdown_ Scenario.st_fatal = true
   ∨ (bg_error_ Scenario.st_fatal ≠ OK ∧ bg_error_ Scenario.st_fatal ≠ NonFatal))
  ∧ MaybeScheduleGC Scenario.st_fatal = Scenario.st_fatal
  ∧ shutdown_ Scenario.st_idle = false
  ∧ (bg_error_ Scenario.st_idle = OK ∨ bg_error_ Scenario.st_idle = NonFatal)
  ∧ bg_garbage_collection_ Scenario.st_idle = false
  ∧ MaybeScheduleGC Scenario.st_idle
    = emit EvSchedule (set_bg_garbage_collection_ true Scenario.st_idle).
Proof.
  assert (H1 : shutdown_ Scenario.st_fatal = true
               ∨ (bg_error_ Scenario.st_fatal ≠ OK
                  ∧ bg_error_ Scenario.st_fatal ≠ NonFatal)).
  { right. split; compute_done. }
  assert (H2 : shutdown_ Scenario.st_idle = false) by reflexivity.
  assert (H3 : bg_error_ Scenario.st_idle = OK ∨ bg_error_ Scenario.st_idle = NonFatal)
    by (left; reflexivity).
  assert (H4 : bg_garbage_collection_ Scenario.st_idle = false) by reflexivity.
  split; [exact H1 |].
  split; [exact (proj1 (proj1 (scheduling_gate Scenario.st_fatal) H1)) |].
  split; [exact H2 | split; [exact H3 | split; [exact H4 |]]].
  exact (proj1 (proj2 (scheduling_gate Scenario.st_idle) H2 H3) H4).
Defined.

(** * Further properties

    ** VLogRWFile: references and deletion *)

Lemma i32_small (x : Z) : (- 2 ^ 31 <= x < 2 ^ 31)%Z → i32 x = x.
Proof. intros H. unfold i32. rewrite Z.mod_small by lia. lia. Qed.

Lemma file_step_ref_op (op : FileOp) (f : VLogRWFile) :
  is_ref_op op = true →
  (1 <= refs_ f + ref_delta op < 2 ^ 31)%Z →
  (- 2 ^ 31 < refs_ f)%Z →
  ∃ f1, file_step op f = Ret (Some f1)
        ∧ refs_ f1 = (refs_ f + ref_delta op)%Z
        ∧ closed_ f1 = closed_ f ∧ number_ f1 = number_ f.
Proof.
  intros Hop Hr Hlow. destruct op; try discriminate Hop; cbn in Hr |- *.
  - eexists. split; [reflexivity |]. cbn. rewrite i32_small by lia. done.
  - unfold Unref. cbn. rewrite i32_small by lia.
    destruct (Z.ltb_spec (refs_ f - 1) 0); [lia |].
    destruct (Z.leb_spec (refs_ f - 1) 0); [lia |].
    eexists. split; [reflexivity |]. cbn. split; [lia | done].
  - eexists. split; [reflexivity |]. cbn. rewrite i32_small by lia. done.
  - unfold UnrefCleanup, Unref. cbn. rewrite i32_small by lia.
    destruct (Z.ltb_spec (refs_ f - 1) 0); [lia |].
    destruct (Z.leb_spec (refs_ f - 1) 0); [lia |].
    eexists. split; [reflexivity |]. cbn. split; [lia | done].
Qed.

(** X1.  While the count stays at 1 or more, no sequence of [Ref], [Unref],
    [NewIterator] and iterator cleanups deletes the file or fails an
    assertion; the count ends at its start plus the references taken minus
    those given back. *)
Theorem VLogRWFile_not_deleted_while_held (ops : list FileOp) :
  ∀ f : VLogRWFile,
    forallb is_ref_op ops = true →
    (0 <= refs_ f)%Z →
    refs_held (refs_ f) ops →
    ∃ f', file_run ops f = Ret (Some f')
          ∧ refs_ f' = (refs_ f + ref_net ops)%Z
          ∧ closed_ f' = closed_ f ∧ number_ f' = number_ f.
Proof.
  induction ops as [|op rest IH]; intros f Hops Hpos Hheld.
  - exists f. cbn. split; [done |]. split; [lia | done].
  - cbn in Hops. apply andb_true_iff in Hops as [Hop Hrest].
    destruct Hheld as [Hr Hheld].
    destruct (file_step_ref_op op f Hop Hr) as (f1 & Hstep & Hrefs & Hcl & Hnum); [lia |].
    cbn [file_run]. rewrite Hstep.
    rewrite <- Hrefs in Hheld.
    destruct (IH f1 Hrest) as (f' & Hrun & Hrefs' & Hcl' & Hnum'); [lia | done |].
    exists f'. split; [done |]. cbn [ref_net].
    split; [lia |]. split; congruence.
Qed.

Lemma file_run_app (p q : list FileOp) :
  ∀ f f1, file_run p f = Ret (Some f1) → file_run (p ++ q) f = file_run q f1.
Proof.
  induction p as [|op p IH]; intros f f1 Hrun.
  - cbn in Hrun. by injection Hrun as ->.
  - cbn [file_run app] in *. destruct (file_step op f) as [[f2 |] | e]; [| | done].
    + by apply IH.
    + by destruct p.
Qed.

Lemma file_run_iterators (k : nat) :
  ∀ f, (0 <= refs_ f)%Z → (refs_ f + Z.of_nat k < 2 ^ 31)%Z →
    ∃ f', file_run (repeat OpNewIterator k) f = Ret (Some f')
          ∧ refs_ f' = (refs_ f + Z.of_nat k)%Z ∧ closed_ f' = closed_ f.
Proof.
  induction k as [|k IH]; intros f Hpos Hlt.
  - exists f. cbn. split; [done |]. split; [lia | done].
  - cbn [repeat file_run file_step].
    destruct (IH (VLogRWFile_NewIterator f)) as (f' & Hrun & Hrefs & Hcl).
    { cbn. rewrite i32_small by lia. lia. }
    { cbn. rewrite i32_small by lia. lia. }
    exists f'. split; [done |]. cbn in Hrefs, Hcl. rewrite i32_small in Hrefs by lia.
    split; [lia | done].
Qed.

Lemma file_run_data (data : list FileOp) :
  ∀ f, forallb is_data_op data = true → closed_ f = false →
    ∃ f', file_run data f = Ret (Some f')
          ∧ refs_ f' = refs_ f ∧ closed_ f' = false.
Proof.
  induction data as [|op data IH]; intros f Hops Hcl.
  - by exists f.
  - cbn in Hops. apply andb_true_iff in Hops as [Hop Hrest].
    cbn [file_run].
    assert (∃ f1, file_step op f = Ret (Some f1)
                  ∧ refs_ f1 = refs_ f ∧ closed_ f1 = false) as (f1 & Hs & Hr & Hc).
    { destruct op; try discriminate Hop; cbn;
        unfold VLogRWFile_Write, VLogRWFile_Add, VLogRWFile_Flush, VLogRWFile_Sync,
          not_closed; rewrite Hcl; eexists; (split; [reflexivity |]); by cbn. }
    rewrite Hs. destruct (IH f1 Hrest Hc) as (f' & Hrun & Hr' & Hc').
    exists f'. split; [done |]. split; congruence.
Qed.

Lemma file_run_cleanups (k : nat) :
  ∀ f, refs_ f = Z.of_nat (S k) → (Z.of_nat (S k) < 2 ^ 31)%Z →
    file_run (repeat OpIteratorCleanup (S k)) f
    = if closed_ f then Ret None else Crash AssertionFailed.
Proof.
  induction k as [|k IH]; intros f Hrefs Hlt.
  - cbn. unfold UnrefCleanup, Unref. cbn. rewrite Hrefs. cbn. by destruct (closed_ f).
  - change (repeat OpIteratorCleanup (S (S k)))
      with (OpIteratorCleanup :: repeat OpIteratorCleanup (S k)).
    cbn [file_run file_step]. unfold UnrefCleanup, Unref.
    cbn [refs_ set_refs_ closed_]. rewrite Hrefs, i32_small by lia.
    destruct (Z.ltb_spec (Z.of_nat (S (S k)) - 1) 0); [lia |].
    destruct (Z.leb_spec (Z.of_nat (S (S k)) - 1) 0); [lia |].
    rewrite IH; [done | cbn; lia | lia].
Qed.

Lemma file_run_release (k : nat) (f : VLogRWFile) :
  refs_ f = Z.of_nat (S k) → (Z.of_nat (S k) < 2 ^ 31)%Z →
  file_run (OpUnref :: repeat OpIteratorCleanup k) f
  = if closed_ f then Ret None else Crash AssertionFailed.
Proof.
  intros Hrefs Hlt. destruct k as [|k].
  - cbn. unfold Unref. cbn. rewrite Hrefs. cbn. by destruct (closed_ f).
  - cbn [file_run file_step]. unfold Unref.
    cbn [refs_ set_refs_ closed_]. rewrite Hrefs, i32_small by lia.
    destruct (Z.ltb_spec (Z.of_nat (S (S k)) - 1) 0); [lia |].
    destruct (Z.leb_spec (Z.of_nat (S (S k)) - 1) 0); [lia |].
    rewrite file_run_cleanups; [done | cbn; lia | lia].
Qed.

Lemma file_run_Finish (rest : list FileOp) (f : VLogRWFile) :
  closed_ f = false →
  ∃ f1, file_run (OpFinish :: rest) f = file_run rest f1
        ∧ refs_ f1 = refs_ f ∧ closed_ f1 = true.
Proof.
  intros Hcl.
  exists {| refs_ := refs_ f; closed_ := true; number_ := number_ f;
            calls_ := calls_ f ++ [CallSync; CallFinish; CallClose] |}.
  split; [| split; reflexivity].
  cbn [file_run file_step]. unfold VLogRWFile_Finish, not_closed. by rewrite Hcl.
Qed.

(** X2.  The life of a file built by the engine.  With [k] iterators opened
    on it and any writes before [Finish], no call fails and the file deletes
    itself at the very last release, not before; if the engine gives its
    reference back without [Finish], the last release fails the assertion of
    the destructor. *)
Theorem VLogRWFile_lifecycle (k : nat) (data : list FileOp) (num : N) :
  forallb is_data_op data = true →
  (Z.of_nat k < 2 ^ 31 - 1)%Z →
  file_run (lifecycle k data) (VLogRWFile_new num) = Ret None
  ∧ file_run (lifecycle_unfinished k data) (VLogRWFile_new num)
    = Crash AssertionFailed.
Proof.
  intros Hdata Hk.
  assert (Hone : refs_ (Ref (VLogRWFile_new num)) = 1%Z) by reflexivity.
  destruct (file_run_iterators k (Ref (VLogRWFile_new num)))
    as (f1 & Hrun1 & Hrefs1 & Hcl1); [rewrite Hone; lia | rewrite Hone; lia |].
  rewrite Hone in Hrefs1. change (closed_ (Ref (VLogRWFile_new num))) with false in Hcl1.
  destruct (file_run_data data f1 Hdata Hcl1) as (f2 & Hrun2 & Hrefs2 & Hcl2).
  unfold lifecycle, lifecycle_unfinished. cbn [file_run file_step].
  rewrite !(file_run_app _ _ _ _ Hrun1), !(file_run_app _ _ _ _ Hrun2).
  split.
  - cbn [app]. destruct (file_run_Finish (OpUnref :: repeat OpIteratorCleanup k) f2 Hcl2)
      as (f3 & -> & Hrefs3 & Hcl3).
    rewrite file_run_release; [by rewrite Hcl3 | lia | lia].
  - cbn [app]. rewrite file_run_release; [by rewrite Hcl2 | lia | lia].
Qed.

(** Two iterators are opened and released on a file the engine holds. *)
Lemma VLogRWFile_not_deleted_while_held_witness :
  let ops := [OpNewIterator; OpNewIterator; OpIteratorCleanup; OpIteratorCleanup] in
  let f := Ref (VLogRWFile_new 7) in
  forallb is_ref_op ops = true
  ∧ (0 <= refs_ f)%Z
  ∧ refs_held (refs_ f) ops
  ∧ ∃ f', file_run ops f = Ret (Some f')
          ∧ refs_ f' = (refs_ f + ref_net ops)%Z
          ∧ closed_ f' = closed_ f ∧ number_ f' = number_ f.
Proof.
  cbv zeta.
  assert (H1 : forallb is_ref_op
                 [OpNewIterator; OpNewIterator; OpIteratorCleanup; OpIteratorCleanup]
               = true) by reflexivity.
  assert (H2 : (0 <= refs_ (Ref (VLogRWFile_new 7)))%Z) by (vm_compute; discriminate).
  assert (H3 : refs_held (refs_ (Ref (VLogRWFile_new 7)))
                 [OpNewIterator; OpNewIterator; OpIteratorCleanup; OpIteratorCleanup]).
  { vm_compute. repeat split; discriminate. }
  split; [exact H1 |]. split; [exact H2 |]. split; [exact H3 |].
  exact (VLogRWFile_not_deleted_while_held _ _ H1 H2 H3).
Defined.

(** A file with two iterators and three writes. *)
Lemma VLogRWFile_lifecycle_witness :
  forallb is_data_op [OpWrite; OpAdd; OpSync] = true
  ∧ (Z.of_nat 2 < 2 ^ 31 - 1)%Z
  ∧ file_run (lifecycle 2 [OpWrite; OpAdd; OpSync]) (VLogRWFile_new 7) = Ret None
  ∧ file_run (lifecycle_unfinished 2 [OpWrite; OpAdd; OpSync]) (VLogRWFile_new 7)
    = Crash AssertionFailed.
Proof.
  assert (H1 : forallb is_data_op [OpWrite; OpAdd; OpSync] = true) by reflexivity.
  assert (H2 : (Z.of_nat 2 < 2 ^ 31 - 1)%Z) by (vm_compute; reflexivity).
  split; [exact H1 |]. split; [exact H2 |].
  exact (VLogRWFile_lifecycle 2 [OpWrite; OpAdd; OpSync] 7 H1 H2).
Defined.


(** ** File numbers *)

Lemma MarkFileNumberUsed_current (num : N) (st : ValueLogImpl) :
  CurrentFileNumber (MarkFileNumberUsed num st) = N.max (CurrentFileNumber st) num.
Proof.
  unfold MarkFileNumberUsed.
  destruct (N.ltb_spec (CurrentFileNumber st) num); cbn; unfold CurrentFileNumber in *; lia.
Qed.

Lemma MarkFileNumberUsed_all (used : list N) :
  ∀ st,
    CurrentFileNumber st ≤ CurrentFileNumber (foldl (fun s n => MarkFileNumberUsed n s) st used)
    ∧ Forall (fun m => m ≤ CurrentFileNumber (foldl (fun s n => MarkFileNumberUsed n s) st used))
             used.
Proof.
  induction used as [|m used IH]; intros st; cbn [foldl].
  - split; [lia | constructor].
  - destruct (IH (MarkFileNumberUsed m st)) as [Hle Hall].
    rewrite MarkFileNumberUsed_current in Hle.
    split; [lia |]. constructor; [lia | done].
Qed.

(** X3.  A number from [NewFileNumber] is above the current maximum and above
    every number passed to [MarkFileNumberUsed] before, and becomes the
    current maximum; the next one is one more. *)
Theorem NewFileNumber_fresh (used : list N) (st : ValueLogImpl) :
  let st1 := foldl (fun s n => MarkFileNumberUsed n s) st used in
  CurrentFileNumber st1 + 1 < 2 ^ 64 - 1 →
  let n := fst (NewFileNumber st1) in
  let st2 := snd (NewFileNumber st1) in
  CurrentFileNumber st < n
  ∧ Forall (fun m => m < n) used
  ∧ CurrentFileNumber st2 = n
  ∧ fst (NewFileNumber st2) = n + 1.
Proof.
  intros st1 Hb n st2. destruct (MarkFileNumberUsed_all used st) as [Hle Hall].
  fold st1 in Hle, Hall. unfold CurrentFileNumber in *.
  generalize dependent st1. intros st1 Hb n st2 Hle Hall.
  assert (Hn : n = vlog_file_number_ st1 + 1).
  { unfold n, NewFileNumber, u64. cbn [fst]. apply N.mod_small. lia. }
  assert (H2 : vlog_file_number_ st2 = n) by reflexivity.
  clearbody n st2.
  split; [lia |]. split.
  - eapply Forall_impl; [exact Hall |]. cbn. intros m Hm. lia.
  - split; [exact H2 |].
    unfold NewFileNumber, u64. cbn [fst]. rewrite H2. apply N.mod_small. lia.
Qed.

(** ** The size helpers of the tests *)

(** X4.  [SizeOfVariant32] of a 32-bit value is the number of 7-bit groups it
    takes: 1 for 0, and otherwise the [s] between 1 and 5 with
    [128^(s-1) <= v < 128^s]. *)
Theorem SizeOfVariant32_groups (v : N) :
  v < 2 ^ 32 →
  let s := SizeOfVariant32 v in
  1 ≤ s ≤ 5
  ∧ v < 128 ^ s
  ∧ (1 ≤ v → 128 ^ (s - 1) ≤ v).
Proof.
  intros Hv s.
  assert (Hge : ∀ a, a ≠ 0 → v / a ≠ 0 → a ≤ v).
  { intros a Ha Hq. destruct (N.lt_ge_cases v a) as [Hc |]; [| done].
    apply N.div_small in Hc. done. }
  assert (Hs : (s = 1 ∧ v < 128) ∨ (s = 2 ∧ 128 ≤ v < 16384)
               ∨ (s = 3 ∧ 16384 ≤ v < 2097152)
               ∨ (s = 4 ∧ 2097152 ≤ v < 268435456)
               ∨ (s = 5 ∧ 268435456 ≤ v)).
  { unfold s, SizeOfVariant32. cbn [SizeOfVariant32_loop].
    rewrite !N.shiftr_shiftr, !N.shiftr_div_pow2.
    change (2 ^ 7) with 128. change (2 ^ (7 + 7)) with 16384.
    change (2 ^ (7 + 7 + 7)) with 2097152.
    change (2 ^ (7 + 7 + 7 + 7)) with 268435456.
    change (2 ^ (7 + 7 + 7 + 7 + 7)) with 34359738368.
    destruct (N.eqb_spec (v / 128) 0) as [H1 | H1].
    { left. split; [done |]. apply N.div_small_iff in H1; [done | lia]. }
    apply Hge in H1; [| lia]. right.
    destruct (N.eqb_spec (v / 16384) 0) as [H2 | H2].
    { left. split; [done |]. apply N.div_small_iff in H2; [lia | lia]. }
    apply Hge in H2; [| lia]. right.
    destruct (N.eqb_spec (v / 2097152) 0) as [H3 | H3].
    { left. split; [done |]. apply N.div_small_iff in H3; [lia | lia]. }
    apply Hge in H3; [| lia]. right.
    destruct (N.eqb_spec (v / 268435456) 0) as [H4 | H4].
    { left. split; [done |]. apply N.div_small_iff in H4; [lia | lia]. }
    apply Hge in H4; [| lia]. right.
    assert (v / 34359738368 = 0) as -> by (apply N.div_small; lia).
    split; [done | done]. }
  clearbody s.
  destruct Hs as [[-> H] | [[-> H] | [[-> H] | [[-> H] | [-> H]]]]].
  - change (128 ^ 1) with 128. change (128 ^ (1 - 1)) with 1. lia.
  - change (128 ^ 2) with 16384. change (128 ^ (2 - 1)) with 128. lia.
  - change (128 ^ 3) with 2097152. change (128 ^ (3 - 1)) with 16384. lia.
  - change (128 ^ 4) with 268435456. change (128 ^ (4 - 1)) with 2097152. lia.
  - change (128 ^ 5) with 34359738368. change (128 ^ (5 - 1)) with 268435456. lia.
Qed.

(** Recovery has marked files 5 and 3 as used. *)
Lemma NewFileNumber_fresh_witness :
  let st1 := foldl (fun s n => MarkFileNumberUsed n s) Scenario.st0 [5; 3] in
  CurrentFileNumber st1 + 1 < 2 ^ 64 - 1
  ∧ CurrentFileNumber Scenario.st0 < 6
  ∧ Forall (fun m => m < 6) [5; 3]
  ∧ CurrentFileNumber (snd (NewFileNumber st1)) = 6
  ∧ fst (NewFileNumber (snd (NewFileNumber st1))) = 7.
Proof.
  cbv zeta.
  assert (H1 : CurrentFileNumber
                 (foldl (fun s n => MarkFileNumberUsed n s) Scenario.st0 [5; 3]) + 1
               < 2 ^ 64 - 1) by (vm_compute; reflexivity).
  split; [exact H1 |].
  exact (NewFileNumber_fresh [5; 3] Scenario.st0 H1).
Defined.

Lemma SizeOfVariant32_groups_witness :
  300 < 2 ^ 32
  ∧ 1 ≤ SizeOfVariant32 300 ≤ 5
  ∧ 300 < 128 ^ SizeOfVariant32 300
  ∧ (1 ≤ 300 → 128 ^ (SizeOfVariant32 300 - 1) ≤ 300).
Proof.
  assert (H1 : 300 < 2 ^ 32) by (vm_compute; reflexivity).
  split; [exact H1 |].
  exact (SizeOfVariant32_groups 300 H1).
Defined.

(** ** Manual requests and scheduling *)

Lemma healthy_fatal (st : ValueLogImpl) : healthy st → fatal (bg_error_ st) = false.
Proof. intros [_ [-> | ->]]; reflexivity. Qed.

Lemma ManualGC_idle (num : N) (st : ValueLogImpl) :
  healthy st → bg_garbage_collection_ st = false →
  ManualGC num st
  = emit EvSchedule
      (set_bg_garbage_collection_ true (set_manual_gc_number num (set_manual_gc_ true st))).
Proof.
  intros Hh Hbg. unfold ManualGC, MaybeScheduleGC. cbn.
  rewrite Hbg, (proj1 Hh), (healthy_fatal st Hh). reflexivity.
Qed.

Lemma ManualGC_busy (num : N) (st : ValueLogImpl) :
  bg_garbage_collection_ st = true →
  ManualGC num st = set_manual_gc_number num (set_manual_gc_ true st).
Proof. intros Hbg. unfold ManualGC, MaybeScheduleGC. cbn. by rewrite Hbg. Qed.

(** X5.  Manual requests made before the task runs coalesce: however many
    calls of [ManualGC] are made on an idle store that can schedule, one task
    is scheduled, and it is the number of the last call that is kept. *)
Theorem ManualGC_requests_coalesce (nums : list N) (num : N) (st : ValueLogImpl) :
  healthy st →
  bg_garbage_collection_ st = false →
  foldl (fun s n => ManualGC n s) st (nums ++ [num])
  = emit EvSchedule
      (set_bg_garbage_collection_ true (set_manual_gc_number num (set_manual_gc_ true st))).
Proof.
  intros Hh Hbg. destruct nums as [|n0 nums].
  - cbn. by apply ManualGC_idle.
  - cbn [app foldl]. rewrite (ManualGC_idle n0 st Hh Hbg).
    set (st1 := emit EvSchedule _).
    assert (Hgen : ∀ l s, bg_garbage_collection_ s = true →
              foldl (fun s n => ManualGC n s) s (l ++ [num])
              = set_manual_gc_number num (set_manual_gc_ true s)).
    { induction l as [|n l IH]; intros s Hs.
      - cbn. by apply ManualGC_busy.
      - cbn [app foldl]. rewrite (ManualGC_busy n s Hs). rewrite IH by done.
        by destruct s. }
    rewrite Hgen by done. unfold st1. by destruct st.
Qed.

Lemma MaybeScheduleGC_cases (st : ValueLogImpl) :
  MaybeScheduleGC st = st
  ∨ MaybeScheduleGC st = emit EvSchedule (set_bg_garbage_collection_ true st).
Proof.
  unfold MaybeScheduleGC.
  destruct (bg_garbage_collection_ st); [by left |].
  destruct (shutdown_ st); [by left |].
  destruct (fatal (bg_error_ st)); [by left |].
  destruct (manual_gc_ st || _); [by right | by left].
Qed.

Lemma BackgroundGC_pick_state (st st1 : ValueLogImpl) (r : option GarbageCollection) :
  BackgroundGC_pick st = Some (r, st1) →
  (manual_gc_ st = true ∧ st1 = set_manual_gc_ false st
   ∧ PickGC (manual_gc_number st) st = Some r)
  ∨ (manual_gc_ st = false ∧ PickGC (gc_pointer_ st) st = Some r
     ∧ st1 = set_gc_pointer_
               (match r with Some g => u64 (number g + 1) | None => 0 end) st).
Proof.
  unfold BackgroundGC_pick. destruct (manual_gc_ st).
  - destruct (PickGC (manual_gc_number st) st); [| done].
    intros [= <- <-]. by left.
  - destruct (PickGC (gc_pointer_ st) st); [| done].
    intros [= <- <-]. by right.
Qed.

(** What a run leaves of the state of the pick. *)
Lemma BackgroundGC_after_pick (st st1 st' : ValueLogImpl)
    (r : option GarbageCollection) :
  BackgroundGC_pick st = Some (r, st1) →
  BackgroundGC st = Ret st' →
  gc_pointer_ st' = gc_pointer_ st1 ∧ manual_gc_ st' = manual_gc_ st1
  ∧ manual_gc_number st' = manual_gc_number st1
  ∧ shutdown_ st' = shutdown_ st1
  ∧ bg_garbage_collection_ st' = bg_garbage_collection_ st1.
Proof.
  intros Hpick. unfold BackgroundGC. rewrite Hpick.
  destruct r as [gc |]; [| by intros [= <-]].
  pose proof (Collect_frame gc st1) as Hc.
  destruct (Collect gc st1) as [[s gc1] st2]. cbn [snd] in Hc.
  assert (H2 : scheduling st2 = scheduling st1) by (by rewrite Hc).
  destruct (fatal s).
  { intros [= <-]. unfold scheduling in H2. injection H2 as ? ? ? ? ? ? ? ?.
    by cbn. }
  destruct (Rewrite gc1 st2) as [[[s1 gc2] st3] | f] eqn:Hr; [| done].
  apply Rewrite_scheduling in Hr. rewrite H2 in Hr.
  unfold scheduling in Hr. injection Hr as ? ? ? ? ? ? ? ?.
  destruct (fatal s1); intros [= <-]; by cbn.
Qed.

(** X6.  A manual request on a store that can schedule is served by the next
    background call: the pick starts from the requested number, whatever
    [gc_pointer_] is, and when the call returns the request is cleared and
    [gc_pointer_] is where it was. *)
Theorem ManualGC_is_served (num : N) (st : ValueLogImpl) :
  healthy st →
  let st1 := ManualGC num st in
  bg_garbage_collection_ st1 = true
  ∧ BackgroundGC_pick st1
    = match PickGC num st with
      | Some r => Some (r, set_manual_gc_ false st1)
      | None => None
      end
  ∧ ∀ st', BGCall st1 = Ret st' →
           gc_pointer_ st' = gc_pointer_ st ∧ manual_gc_ st' = false.
Proof.
  intros Hh st1.
  assert (Hst1 : st1 = set_manual_gc_number num (set_manual_gc_ true st)
                 ∨ st1 = emit EvSchedule
                           (set_bg_garbage_collection_ true
                              (set_manual_gc_number num (set_manual_gc_ true st)))
                   ).
  { unfold st1, ManualGC. apply MaybeScheduleGC_cases. }
  assert (Hflag : bg_garbage_collection_ st1 = true).
  { destruct (bg_garbage_collection_ st) eqn:Hbg.
    - unfold st1. by rewrite ManualGC_busy.
    - unfold st1. by rewrite ManualGC_idle. }
  assert (Hpick : BackgroundGC_pick st1
                  = match PickGC num st with
                    | Some r => Some (r, set_manual_gc_ false st1)
                    | None => None
                    end).
  { clearbody st1. destruct Hst1 as [-> | ->]; reflexivity. }
  split; [done |]. split; [done |].
  intros st' Hrun. unfold BGCall in Hrun. rewrite Hflag in Hrun. cbn [negb] in Hrun.
  assert (Hsh : shutdown_ st1 = false ∧ fatal (bg_error_ st1) = false
                ∧ gc_pointer_ st1 = gc_pointer_ st).
  { pose proof (healthy_fatal st Hh) as Hf. destruct Hh as [Hs _].
    clearbody st1. destruct Hst1 as [-> | ->]; by cbn. }
  destruct Hsh as (Hs1 & Hf1 & Hp1). rewrite Hs1, Hf1 in Hrun.
  destruct (BackgroundGC st1) as [st2 | f] eqn:Hbg; [| done].
  injection Hrun as <-.
  destruct (PickGC num st) as [r |] eqn:Hp.
  - destruct (BackgroundGC_after_pick _ _ _ _ Hpick Hbg) as (Hgp & Hm & _).
    cbn in Hgp, Hm.
    destruct (MaybeScheduleGC_cases (set_bg_garbage_collection_ false st2)) as [-> | ->];
      cbn; rewrite Hgp, Hm; by rewrite Hp1.
  - unfold BackgroundGC in Hbg. by rewrite Hpick in Hbg.
Qed.

(** ** A run that picks nothing *)

Lemma PickGC_no_candidate (n : N) (st : ValueLogImpl) :
  numbers_in_range st → no_candidate st 0 → PickGC n st = Some None.
Proof.
  intros Hrange Hnone. destruct (PickGC_spec n st Hrange) as (r & Hrun & Hr).
  rewrite Hrun. destruct r as [gc |]; [| done].
  destruct Hr as (_ & Hro & _ & Hob & _).
  destruct (Hnone (number gc) Hro) as [x Hx]; [lia |]. by rewrite Hob in Hx.
Qed.

(** X7.  An automatic run that picks nothing does not refresh
    [gc_last_run_]: once the seconds since the last run, as the [int] the
    code narrows them to, exceed the interval, a store that can schedule and
    has no file to collect schedules a new task at the end of every
    background call, and collects nothing. *)
Theorem BGCall_respins_without_candidates (n : nat) (st : ValueLogImpl) :
  healthy st →
  bg_garbage_collection_ st = true →
  manual_gc_ st = false →
  numbers_in_range st →
  no_candidate st 0 →
  (blob_gc_interval (options_ st) < i32 (now (env_ st) - gc_last_run_ st))%Z →
  ∃ st',
    BGCall_times (S n) st = Ret st'
    ∧ trace_ st' = trace_ st ++ repeat EvSchedule (S n)
    ∧ bg_garbage_collection_ st' = true
    ∧ gc_last_run_ st' = gc_last_run_ st
    ∧ bg_error_ st' = NonFatal
    ∧ db_ st' = db_ st ∧ ro_files_ st' = ro_files_ st.
Proof.
  revert st. induction n as [|n IH]; intros st Hh Hbg Hman Hrange Hnone Hint.
  - cbn [BGCall_times]. unfold BGCall. rewrite Hbg. cbn [negb].
    rewrite (proj1 Hh), (healthy_fatal st Hh).
    unfold BackgroundGC, BackgroundGC_pick.
    rewrite Hman, (PickGC_no_candidate _ st Hrange Hnone).
    apply Z.ltb_lt in Hint.
    unfold MaybeScheduleGC. cbn -[i32 Z.ltb].
    rewrite (proj1 Hh), Hman, Hint. cbn [orb].
    eexists. split; [reflexivity |]. by cbn.
  - change (BGCall_times (S (S n)) st)
      with (match BGCall st with Crash e => Crash e | Ret st1 => BGCall_times (S n) st1 end).
    assert (Hone : ∃ st1, BGCall st = Ret st1
              ∧ st1 = emit EvSchedule
                        (set_bg_garbage_collection_ true
                           (set_bg_garbage_collection_ false
                              (RecordBGError NonFatal (set_gc_pointer_ 0 st))))).
    { unfold BGCall. rewrite Hbg. cbn [negb].
      rewrite (proj1 Hh), (healthy_fatal st Hh).
      unfold BackgroundGC, BackgroundGC_pick.
      rewrite Hman, (PickGC_no_candidate _ st Hrange Hnone).
      apply Z.ltb_lt in Hint.
      unfold MaybeScheduleGC. cbn -[i32 Z.ltb].
      rewrite (proj1 Hh), Hman, Hint. cbn [orb].
      by eexists. }
    destruct Hone as (st1 & -> & Hst1).
    destruct (IH st1) as (st' & Hrun & Htr & Hbg' & Hlast & Herr & Hdb & Hro).
    { rewrite Hst1. split; [exact (proj1 Hh) | by right]. }
    { by rewrite Hst1. }
    { by rewrite Hst1. }
    { by rewrite Hst1. }
    { by rewrite Hst1. }
    { by rewrite Hst1. }
    exists st'. split; [done |]. rewrite Htr, Hlast, Hdb, Hro, Hst1. cbn.
    rewrite <- app_assoc. by cbn.
Qed.

(** Three requests on the idle store of the scenario. *)
Lemma ManualGC_requests_coalesce_witness :
  healthy Scenario.st_idle
  ∧ bg_garbage_collection_ Scenario.st_idle = false
  ∧ foldl (fun s n => ManualGC n s) Scenario.st_idle ([3; 7] ++ [1])
    = emit EvSchedule
        (set_bg_garbage_collection_ true
           (set_manual_gc_number 1 (set_manual_gc_ true Scenario.st_idle))).
Proof.
  assert (H1 : healthy Scenario.st_idle) by (split; [reflexivity | left; reflexivity]).
  assert (H2 : bg_garbage_collection_ Scenario.st_idle = false) by reflexivity.
  split; [exact H1 |]. split; [exact H2 |].
  exact (ManualGC_requests_coalesce [3; 7] 1 Scenario.st_idle H1 H2).
Defined.

Lemma ManualGC_is_served_witness :
  healthy Scenario.st_idle
  ∧ bg_garbage_collection_ (ManualGC 1 Scenario.st_idle) = true
  ∧ BackgroundGC_pick (ManualGC 1 Scenario.st_idle)
    = match PickGC 1 Scenario.st_idle with
      | Some r => Some (r, set_manual_gc_ false (ManualGC 1 Scenario.st_idle))
      | None => None
      end.
Proof.
  assert (H1 : healthy Scenario.st_idle) by (split; [reflexivity | left; reflexivity]).
  split; [exact H1 |].
  pose proof (ManualGC_is_served 1 Scenario.st_idle H1) as (H2 & H3 & _).
  split; [exact H2 | exact H3].
Defined.

(** Three calls on the store without read-only files. *)
Lemma BGCall_respins_without_candidates_witness :
  healthy Cases.st_no_files
  ∧ bg_garbage_collection_ Cases.st_no_files = true
  ∧ manual_gc_ Cases.st_no_files = false
  ∧ numbers_in_range Cases.st_no_files
  ∧ no_candidate Cases.st_no_files 0
  ∧ (blob_gc_interval (options_ Cases.st_no_files)
     < i32 (now (env_ Cases.st_no_files) - gc_last_run_ Cases.st_no_files))%Z
  ∧ ∃ st',
      BGCall_times 3 Cases.st_no_files = Ret st'
      ∧ trace_ st' = trace_ Cases.st_no_files ++ repeat EvSchedule 3
      ∧ bg_garbage_collection_ st' = true
      ∧ gc_last_run_ st' = gc_last_run_ Cases.st_no_files
      ∧ bg_error_ st' = NonFatal
      ∧ db_ st' = db_ Cases.st_no_files
      ∧ ro_files_ st' = ro_files_ Cases.st_no_files.
Proof.
  assert (H1 : healthy Cases.st_no_files) by (split; [reflexivity | left; reflexivity]).
  assert (H2 : bg_garbage_collection_ Cases.st_no_files = true) by reflexivity.
  assert (H3 : manual_gc_ Cases.st_no_files = false) by reflexivity.
  assert (H4 : numbers_in_range Cases.st_no_files)
    by (unfold numbers_in_range; compute_done).
  assert (H5 : no_candidate Cases.st_no_files 0).
  { intros k [x Hx]. vm_compute in Hx. discriminate Hx. }
  assert (H6 : (blob_gc_interval (options_ Cases.st_no_files)
                < i32 (now (env_ Cases.st_no_files)
                       - gc_last_run_ Cases.st_no_files))%Z)
    by (vm_compute; reflexivity).
  repeat (split; [assumption |]).
  exact (BGCall_respins_without_candidates 2 Cases.st_no_files H1 H2 H3 H4 H5 H6).
Defined.

(** ** Collect: what it reads and what it returns *)

Lemma DBImpl_Get_status (db : DBImpl) (k v : string) (t : ValueType) :
  fst (fst (DBImpl_Get db k v t)) = Get_status db k.
Proof.
  unfold Get_status, DBImpl_Get.
  destruct (decide (k ∈ lsm_read_error db)); [done |].
  destruct (lsm_table db !! k) as [[[] ?] |]; done.
Qed.

Lemma Get_status_error (db : DBImpl) (k : string) :
  negb (ok (Get_status db k)) && negb (IsNotFound (Get_status db k)) = true
  ↔ k ∈ lsm_read_error db.
Proof.
  unfold Get_status, DBImpl_Get.
  destruct (decide (k ∈ lsm_read_error db)); [done |].
  destruct (lsm_table db !! k) as [[[] ?] |]; cbn; split; (done || congruence).
Qed.

Lemma Collect_loop_reads :
  ∀ (items : list (string * string * ValueHandle)) (loc : CollectLocals)
    (gc : GarbageCollection) (st : ValueLogImpl),
    trace_ (snd (Collect_loop items loc gc st))
    = trace_ st ++ map EvLSMGet (looked_up (db_ st) items)
    ∧ c_s (fst (fst (Collect_loop items loc gc st)))
      = match last (looked_up (db_ st) items) with
        | Some k => Get_status (db_ st) k
        | None => c_s loc
        end.
Proof.
  induction items as [|[[key value] item] rest IH]; intros loc gc st.
  - cbn. by rewrite app_nil_r.
  - cbn [Collect_loop looked_up fst snd].
    pose proof (DBImpl_Get_status (db_ st) key (c_handle_encoding loc) (c_valueType loc)) as Hs.
    pose proof (Get_status_error (db_ st) key) as He.
    destruct (DBImpl_Get (db_ st) key (c_handle_encoding loc) (c_valueType loc))
      as [[s enc] vt]. cbn [fst] in Hs. subst s.
    destruct (decide (key ∈ lsm_read_error (db_ st))) as [Hin | Hin].
    + rewrite (proj2 He Hin). cbn. split; [done |].
      unfold Get_status, DBImpl_Get. by rewrite decide_True.
    + destruct (negb (ok (Get_status (db_ st) key))
                && negb (IsNotFound (Get_status (db_ st) key))) eqn:Hb.
      { exfalso. apply Hin. by apply He. }
      match goal with |- context [if ?c then Collect_loop rest ?l ?g1 ?s1
                                   else Collect_loop rest ?l ?g2 ?s1] =>
        assert (Hgen : ∀ g, trace_ (snd (Collect_loop rest l g s1))
                  = trace_ st ++ map EvLSMGet (key :: looked_up (db_ st) rest)
                  ∧ c_s (fst (fst (Collect_loop rest l g s1)))
                    = match last (key :: looked_up (db_ st) rest) with
                      | Some k => Get_status (db_ st) k
                      | None => c_s loc
                      end);
        [| destruct c; apply Hgen]
      end.
      intros g. destruct (IH
        {| c_s := Get_status (db_ st) key; c_handle_encoding := enc;
           c_valueType := vt;
           c_handle := if bool_decide (vt = kTypeValueHandle)
                       then DecodeFrom enc (c_handle loc) else c_handle loc;
           c_current := GetValueHandle item (c_current loc) |} g
        (emit (EvLSMGet key) st)) as [Ht Hc].
      rewrite Ht, Hc. cbn [db_ emit set_trace_ trace_ c_s].
      split; [by rewrite <- app_assoc |].
      destruct (looked_up (db_ st) rest) as [|k' l']; [done |].
      rewrite last_cons_cons.
      destruct (last (k' :: l')) eqn:E; [done | by apply last_None in E].
Qed.

Lemma Collect_run (gc : GarbageCollection) (st : ValueLogImpl) :
  collectable gc st →
  trace_ (snd (Collect gc st))
  = trace_ st ++ EvIterOpen (number gc)
      :: map EvLSMGet (looked_up (db_ st) (records_of (number gc) st))
  ∧ fst (fst (Collect gc st))
    = match last (looked_up (db_ st) (records_of (number gc) st)) with
      | Some k => Get_status (db_ st) k
      | None => OK
      end.
Proof.
  intros (Hlt & Hnz & [recs Hf]).
  unfold Collect, records_of, NewVLogFileIterator. rewrite Hf.
  destruct (N.leb_spec (CurrentFileNumber st) (number gc)); [lia |].
  destruct (N.eqb_spec (number gc) 0); [done |]. cbn [orb].
  match goal with |- context [Collect_loop ?i ?l ?g ?s0] =>
    pose proof (Collect_loop_reads i l g s0) as [Ht Hc];
    destruct (Collect_loop i l g s0) as [[loc1 gc1] st2] end.
  cbn [fst snd] in *. rewrite Ht, Hc. cbn. by rewrite <- app_assoc.
Qed.

(** X8.  On a file it can open, [Collect] only reads: it opens one iterator
    on the file and looks the keys of its records up in the LSM, in file
    order, stopping after the first lookup that fails with an error; every
    member of the engine is as before. *)
Theorem Collect_only_reads (gc : GarbageCollection) (st : ValueLogImpl) :
  collectable gc st →
  snd (Collect gc st)
  = set_trace_
      (trace_ st ++ EvIterOpen (number gc)
         :: map EvLSMGet (looked_up (db_ st) (records_of (number gc) st)))
      st.
Proof.
  intros (Hlt & Hnz & [recs Hf]).
  rewrite Collect_frame. f_equal.
  unfold Collect, records_of, NewVLogFileIterator. rewrite Hf.
  destruct (N.leb_spec (CurrentFileNumber st) (number gc)); [lia |].
  destruct (N.eqb_spec (number gc) 0); [done |]. cbn [orb].
  match goal with |- context [Collect_loop ?i ?l ?g ?s0] =>
    pose proof (proj1 (Collect_loop_reads i l g s0)) as Ht;
    destruct (Collect_loop i l g s0) as [[loc1 gc1] st2] end.
  cbn [snd] in *. rewrite Ht. cbn. by rewrite <- app_assoc.
Qed.

(** X9.  The status [Collect] returns is the status of the last lookup it
    made, whatever the earlier ones gave: OK for a file without records,
    NotFound when the key of the last record looked up has no entry or a
    deletion in the LSM. *)
Theorem Collect_status_of_last_lookup (gc : GarbageCollection) (st : ValueLogImpl) :
  collectable gc st →
  fst (fst (Collect gc st))
  = match last (looked_up (db_ st) (records_of (number gc) st)) with
    | Some k => Get_status (db_ st) k
    | None => OK
    end.
Proof.
  intros (Hlt & Hnz & [recs Hf]).
  unfold Collect, records_of, NewVLogFileIterator. rewrite Hf.
  destruct (N.leb_spec (CurrentFileNumber st) (number gc)); [lia |].
  destruct (N.eqb_spec (number gc) 0); [done |]. cbn [orb].
  match goal with |- context [Collect_loop ?i ?l ?g ?s0] =>
    pose proof (proj2 (Collect_loop_reads i l g s0)) as Hc;
    destruct (Collect_loop i l g s0) as [[loc1 gc1] st2] end.
  cbn [fst snd] in *. by rewrite Hc.
Qed.

Lemma BackgroundGC_pick_frame (st st1 : ValueLogImpl) (r : option GarbageCollection) :
  BackgroundGC_pick st = Some (r, st1) →
  db_ st1 = db_ st ∧ trace_ st1 = trace_ st ∧ vlog_files_ st1 = vlog_files_ st
  ∧ vlog_file_number_ st1 = vlog_file_number_ st.
Proof.
  intros H. by destruct (BackgroundGC_pick_state _ _ _ H) as [(_ & -> & _) | (_ & _ & ->)].
Qed.

(** X10.  When the last lookup of [Collect] does not return OK (the key of
    the last record has been deleted, or a lookup failed), the background run
    ends there: the status becomes the background error, which is fatal, and
    the run has only read.  Nothing is rewritten and [gc_last_run_] is not
    refreshed. *)
Theorem BackgroundGC_stops_after_Collect (st st1 : ValueLogImpl)
    (gc : GarbageCollection) (k : string) :
  BackgroundGC_pick st = Some (Some gc, st1) →
  collectable gc st →
  last (looked_up (db_ st) (records_of (number gc) st)) = Some k →
  Get_status (db_ st) k ≠ OK →
  BackgroundGC st
  = Ret (set_bg_error_ (Get_status (db_ st) k)
           (set_trace_
              (trace_ st ++ EvIterOpen (number gc)
                 :: map EvLSMGet (looked_up (db_ st) (records_of (number gc) st)))
              st1))
  ∧ fatal (Get_status (db_ st) k) = true.
Proof.
  intros Hpick Hcol Hlast Hs.
  destruct (BackgroundGC_pick_frame _ _ _ Hpick) as (Hdb & Htr & Hfiles & Hnum).
  assert (Hcol1 : collectable gc st1).
  { unfold collectable, CurrentFileNumber in *. by rewrite Hfiles, Hnum. }
  assert (Hrec : records_of (number gc) st1 = records_of (number gc) st).
  { unfold records_of, NewVLogFileIterator. by rewrite Hfiles. }
  assert (Hfatal : fatal (Get_status (db_ st) k) = true).
  { revert Hs. unfold Get_status, DBImpl_Get.
    destruct (decide (k ∈ lsm_read_error (db_ st))); [done |].
    destruct (lsm_table (db_ st) !! k) as [[[] ?] |]; done. }
  split; [| exact Hfatal].
  unfold BackgroundGC. rewrite Hpick.
  pose proof (Collect_frame gc st1) as Hst.
  destruct (Collect_run gc st1 Hcol1) as [Ht Hstat].
  rewrite Hrec, Hdb, Htr in Ht. rewrite Hrec, Hdb, Hlast in Hstat.
  destruct (Collect gc st1) as [[s gc1] st2]. cbn [fst snd] in *.
  rewrite Ht in Hst. subst s st2. by rewrite Hfatal.
Qed.

Lemma Collect_loop_accounting :
  ∀ (items : list (string * string * ValueHandle)) (loc : CollectLocals)
    (gc : GarbageCollection) (st : ValueLogImpl),
    total_entries gc < 2 ^ 32 → discard_entries gc < 2 ^ 32 →
    ∃ d r : nat,
      (d + r ≤ length items)%nat
      ∧ total_entries (snd (fst (Collect_loop items loc gc st)))
        = u32 (total_entries gc + N.of_nat (d + r))
      ∧ discard_entries (snd (fst (Collect_loop items loc gc st)))
        = u32 (discard_entries gc + N.of_nat d)
      ∧ length (rewrites (snd (fst (Collect_loop items loc gc st))))
        = (length (rewrites gc) + r)%nat.
Proof.
  induction items as [|[[key value] item] rest IH]; intros loc gc st Ht Hd.
  - exists O, O. cbn. rewrite !N.add_0_r, !u32_small by done. done.
  - cbn [Collect_loop].
    destruct (DBImpl_Get (db_ st) key _ _) as [[s enc] vt].
    destruct (negb (ok s) && negb (IsNotFound s)).
    { exists O, O. cbn. rewrite !N.add_0_r, !u32_small by done.
      split; [lia | done]. }
    match goal with |- context [if ?c then _ else _] => destruct c end.
    + match goal with |- context [Collect_loop rest ?l ?g ?s0] =>
        destruct (IH l g s0) as (d & r & Hle & H1 & H2 & H3) end.
      { cbn. apply u32_lt. }
      { cbn. apply u32_lt. }
      exists (S d), r. rewrite H1, H2, H3. cbn [count_discard count_total
        total_entries discard_entries rewrites length].
      rewrite !u32_add_l.
      split; [lia |]. split; [f_equal; lia |]. split; [f_equal; lia | done].
    + match goal with |- context [Collect_loop rest ?l ?g ?s0] =>
        destruct (IH l g s0) as (d & r & Hle & H1 & H2 & H3) end.
      { cbn. apply u32_lt. }
      { cbn. exact Hd. }
      exists d, (S r). rewrite H1, H2, H3. cbn [keep_entry count_total
        total_entries discard_entries rewrites length].
      rewrite !u32_add_l, length_app. cbn [length].
      split; [lia |]. split; [f_equal; lia |]. split; [done | lia].
Qed.

(** X11.  The counters of a fresh collection after [Collect] over a file of
    fewer than 2^32 records: every record counted is either discarded or
    kept for rewriting.  So the test [discard_entries == total_entries] of
    [Rewrite] holds exactly when there is nothing to rewrite. *)
Theorem Collect_accounting (num : N) (st : ValueLogImpl) :
  N.of_nat (length (records_of num st)) < 2 ^ 32 →
  let gc' := snd (fst (Collect (GarbageCollection_new num) st)) in
  total_entries gc' = discard_entries gc' + N.of_nat (length (rewrites gc'))
  ∧ length (vb_records (value_batch gc')) = length (rewrites gc')
  ∧ (discard_entries gc' = total_entries gc' ↔ rewrites gc' = []).
Proof.
  intros Hlen gc'.
  assert (Hp : length (vb_records (value_batch gc')) = length (rewrites gc')).
  { pose proof (Collect_paired (GarbageCollection_new num) st) as Hp.
    eapply Forall2_length, Hp. constructor. }
  assert (Hacc : total_entries gc'
                 = discard_entries gc' + N.of_nat (length (rewrites gc'))).
  { unfold gc', Collect. cbn [number GarbageCollection_new].
    destruct ((CurrentFileNumber st <=? num) || (num =? 0)); [done |].
    unfold records_of in Hlen.
    destruct (NewVLogFileIterator num st) as [items |]; [| done].
    match goal with |- context [Collect_loop ?i ?l ?g ?s0] =>
      destruct (Collect_loop_accounting i l g s0) as (d & r & Hle & H1 & H2 & H3);
      [done | done |];
      destruct (Collect_loop i l g s0) as [[loc1 gc1] st2] end.
    cbn [fst snd] in *. rewrite H1, H2, H3. cbn.
    rewrite !u32_small by lia. lia. }
  split; [exact Hacc |]. split; [exact Hp |].
  split.
  - intros Heq. rewrite Heq in Hacc.
    destruct (rewrites gc'); [done |]. cbn [length] in Hacc. lia.
  - intros Hnil. rewrite Hnil in Hacc. cbn in Hacc. lia.
Qed.

(** ** The faults of a background run *)

Lemma Rewrite_fault (gc : GarbageCollection) (st : ValueLogImpl) (f : Fault) :
  paired (vb_records (value_batch gc)) (rewrites gc) →
  Rewrite gc st = Crash f →
  f = DivisionByZero ∧ (total_size gc = 0 ∨ total_entries gc = 0).
Proof.
  intros Hp Hrun.
  destruct (N.eq_dec (total_size gc) 0) as [Hs | Hs].
  { rewrite Rewrite_zero_total in Hrun by (by left). injection Hrun as <-. auto. }
  destruct (N.eq_dec (total_entries gc) 0) as [He | He].
  { rewrite Rewrite_zero_total in Hrun by (by right). injection Hrun as <-. auto. }
  destruct (below_threshold (options_ st) gc) eqn:Hb.
  - by rewrite Rewrite_below in Hrun.
  - destruct (Rewrite_proceeds gc st Hs He Hp Hb) as (? & ? & ? & ? & ? & Hr & _).
    by rewrite Hr in Hrun.
Qed.

(** X12.  A background run on a store whose file numbers are in range either
    returns or divides by zero; it never leaves [PickGC]'s loop unfinished,
    never runs past the end of [rewrites] and fails no assertion.  It divides
    by zero exactly when the status of [Collect] on the picked file is not
    fatal and a total is zero. *)
Theorem BackgroundGC_only_fault (st : ValueLogImpl) :
  numbers_in_range st →
  (∀ f, BackgroundGC st = Crash f → f = DivisionByZero)
  ∧ (BackgroundGC st = Crash DivisionByZero
     ↔ ∃ gc st1, BackgroundGC_pick st = Some (Some gc, st1)
         ∧ fatal (fst (fst (Collect gc st1))) = false
         ∧ (total_size (snd (fst (Collect gc st1))) = 0
            ∨ total_entries (snd (fst (Collect gc st1))) = 0)).
Proof.
  intros Hrange.
  assert (Hpick : ∃ r st1, BackgroundGC_pick st = Some (r, st1)
                           ∧ match r with
                             | Some gc => gc = GarbageCollection_new (number gc)
                             | None => True
                             end).
  { unfold BackgroundGC_pick. destruct (manual_gc_ st).
    - destruct (PickGC_spec (manual_gc_number st) st Hrange) as (r & -> & Hr).
      eexists _, _. split; [done |]. destruct r; [apply Hr | done].
    - destruct (PickGC_spec (gc_pointer_ st) st Hrange) as (r & -> & Hr).
      eexists _, _. split; [done |]. destruct r; [apply Hr | done]. }
  destruct Hpick as (r & st1 & Hpick & Hr).
  assert (Hchar : ∀ f, BackgroundGC st = Crash f →
            f = DivisionByZero
            ∧ ∃ gc st1, BackgroundGC_pick st = Some (Some gc, st1)
                ∧ fatal (fst (fst (Collect gc st1))) = false
                ∧ (total_size (snd (fst (Collect gc st1))) = 0
                   ∨ total_entries (snd (fst (Collect gc st1))) = 0)).
  { intros f. unfold BackgroundGC. rewrite Hpick.
    destruct r as [gc |]; [| done].
    pose proof (Collect_paired gc st1) as Hp.
    destruct (Collect gc st1) as [[s gc1] st2] eqn:Hc. cbn [fst snd] in Hp.
    destruct (fatal s) eqn:Hf; [done |].
    destruct (Rewrite gc1 st2) as [[[s1 gc2] st3] | f'] eqn:Hrw.
    { by destruct (fatal s1). }
    intros [= <-]. apply Rewrite_fault in Hrw.
    - destruct Hrw as [-> Hz]. split; [done |].
      exists gc, st1. by rewrite Hc.
    - apply Hp. rewrite Hr. constructor. }
  split; [intros f Hf; exact (proj1 (Hchar f Hf)) |].
  split; [intros Hf; exact (proj2 (Hchar _ Hf)) |].
  intros (gc & st1' & Hpick' & Hf & Hz).
  unfold BackgroundGC. rewrite Hpick'.
  destruct (Collect gc st1') as [[s gc1] st2]. cbn [fst snd] in *.
  rewrite Hf. by rewrite Rewrite_zero_total.
Qed.

Lemma collectable_scenario :
  collectable (GarbageCollection_new 1) Scenario.st0.
Proof. split; [reflexivity |]. split; [discriminate |]. by eexists. Defined.

(** File 1 of the scenario: its three keys are looked up in file order. *)
Lemma Collect_only_reads_witness :
  collectable (GarbageCollection_new 1) Scenario.st0
  ∧ snd (Collect (GarbageCollection_new 1) Scenario.st0)
    = set_trace_
        [EvIterOpen 1; EvLSMGet Scenario.key_c; EvLSMGet Scenario.key_b;
         EvLSMGet Scenario.key_a]
        Scenario.st0.
Proof.
  split; [exact collectable_scenario |].
  exact (Collect_only_reads (GarbageCollection_new 1) Scenario.st0 collectable_scenario).
Defined.

(** The last record of file 1 belongs to key [a], which is live. *)
Lemma Collect_status_of_last_lookup_witness :
  collectable (GarbageCollection_new 1) Scenario.st0
  ∧ fst (fst (Collect (GarbageCollection_new 1) Scenario.st0))
    = Get_status (db_ Scenario.st0) Scenario.key_a.
Proof.
  split; [exact collectable_scenario |].
  exact (Collect_status_of_last_lookup (GarbageCollection_new 1) Scenario.st0
           collectable_scenario).
Defined.

(** The file whose last record belongs to the deleted key [c]. *)
Lemma BackgroundGC_stops_after_Collect_witness :
  let st := Scenario.st_deleted_last in
  BackgroundGC_pick st = Some (Some (GarbageCollection_new 1), set_gc_pointer_ 2 st)
  ∧ collectable (GarbageCollection_new 1) st
  ∧ last (looked_up (db_ st) (records_of 1 st)) = Some Scenario.key_c
  ∧ Get_status (db_ st) Scenario.key_c ≠ OK
  ∧ BackgroundGC st
    = Ret (set_bg_error_ NotFound
             (set_trace_
                [EvIterOpen 1; EvLSMGet Scenario.key_b; EvLSMGet Scenario.key_c]
                (set_gc_pointer_ 2 st))).
Proof.
  cbv zeta.
  assert (H1 : BackgroundGC_pick Scenario.st_deleted_last
               = Some (Some (GarbageCollection_new 1),
                       set_gc_pointer_ 2 Scenario.st_deleted_last)) by reflexivity.
  assert (H2 : collectable (GarbageCollection_new 1) Scenario.st_deleted_last).
  { split; [reflexivity |]. split; [discriminate |]. by eexists. }
  assert (H3 : last (looked_up (db_ Scenario.st_deleted_last)
                       (records_of 1 Scenario.st_deleted_last))
               = Some Scenario.key_c) by reflexivity.
  assert (H4 : Get_status (db_ Scenario.st_deleted_last) Scenario.key_c ≠ OK)
    by (vm_compute; discriminate).
  repeat (split; [assumption |]).
  exact (proj1 (BackgroundGC_stops_after_Collect _ _ _ _ H1 H2 H3 H4)).
Defined.

Lemma Collect_accounting_witness :
  N.of_nat (length (records_of 1 Scenario.st0)) < 2 ^ 32
  ∧ total_entries Scenario.collected_1
    = discard_entries Scenario.collected_1
      + N.of_nat (length (rewrites Scenario.collected_1))
  ∧ (discard_entries Scenario.collected_1 = total_entries Scenario.collected_1
     ↔ rewrites Scenario.collected_1 = []).
Proof.
  assert (H1 : N.of_nat (length (records_of 1 Scenario.st0)) < 2 ^ 32)
    by (vm_compute; reflexivity).
  split; [exact H1 |].
  pose proof (Collect_accounting 1 Scenario.st0 H1) as (H2 & _ & H3).
  split; [exact H2 | exact H3].
Defined.

Lemma BackgroundGC_only_fault_witness :
  numbers_in_range Scenario.st0
  ∧ ∀ f, BackgroundGC Scenario.st0 = Crash f → f = DivisionByZero.
Proof.
  assert (H1 : numbers_in_range Scenario.st0)
    by (unfold numbers_in_range; compute_done).
  split; [exact H1 |].
  exact (proj1 (BackgroundGC_only_fault Scenario.st0 H1)).
Defined.

(** ** Rewrite: when the collected file is retired *)

Lemma ok_OK (s : Status) : ok s = true ↔ s = OK.
Proof. by destruct s. Qed.

Lemma LogAndApply_obsolete (fs : list VLogFileMeta) (n seq : N) (st : ValueLogImpl) :
  obsolete_files_ (snd (LogAndApply {| added := fs; deleted := [(n, seq)] |} st))
  = if bool_decide (fst (LogAndApply {| added := fs; deleted := [(n, seq)] |} st) = OK)
    then <[n := seq]> (obsolete_files_ st)
    else obsolete_files_ st.
Proof.
  unfold LogAndApply. destruct (manifest_status (env_ st)); reflexivity.
Qed.

Lemma same_but_lsm_obsolete (st st' : ValueLogImpl) :
  same_but_lsm st st' → obsolete_files_ st' = obsolete_files_ st.
Proof. unfold same_but_lsm. by intros ->. Qed.

Lemma rewrite_to_LSM_obsolete (f : VLogFileMeta) (vb : ValueBatch)
    (gc : GarbageCollection) (st : ValueLogImpl)
    (s : Status) (gc' : GarbageCollection) (st' : ValueLogImpl) :
  rewrite_to_LSM f vb gc st = Ret (s, gc', st') →
  obsolete_files_ st'
  = if bool_decide (s = OK)
    then <[number gc := lsm_sequence (db_ st')]> (obsolete_files_ st)
    else obsolete_files_ st.
Proof.
  unfold rewrite_to_LSM, ValueBatch_Iterate.
  destruct (Iterate_loop _ _ _ st) as [[[h1 rw1] st5] | e] eqn:Hit; [| done].
  apply Iterate_loop_frame, same_but_lsm_obsolete in Hit.
  cbn [ok negb orb].
  destruct (ok (h_s h1)); cbn [negb].
  2:{ intros [= <- <- <-]. by rewrite Hit. }
  destruct (DBImpl_Sync (db_ st5)) eqn:Hsync; cbn [ok negb];
    try (intros [= <- <- <-]; cbn; by rewrite Hit).
  cbn [set_obsolete_sequence number obsolete_sequence set_batches].
  match goal with |- context [LogAndApply ?e ?s0] =>
    pose proof (LogAndApply_obsolete [f] (number gc)
                  (DBImpl_LatestSequence (db_ (emit (EvLSMSync OK) st5)))
                  (emit (EvLSMSync OK) st5)) as Hob;
    pose proof (db_LogAndApply e s0) as Hdb;
    destruct (LogAndApply e s0) as [s3 st7] end.
  cbn [fst snd] in Hob, Hdb. intros [= <- <- <-].
  rewrite Hob, Hdb. cbn [emit set_trace_ obsolete_files_ db_]. by rewrite Hit.
Qed.

Lemma PickGC_not_obsolete (n : N) (st : ValueLogImpl) (r : GarbageCollection) :
  PickGC n st = Some (Some r) → obsolete_files_ st !! number r = None.
Proof. intros H. apply PickGC_in_ro in H. apply H. Qed.

(** X13.  [Rewrite] marks the collected file obsolete exactly when it returns
    OK, with the sequence number the LSM then has; with any other status the
    obsolete files are as before.  Once the file is obsolete, [PickGC] does
    not return it, from whatever number it starts. *)
Theorem Rewrite_retires_on_OK (gc : GarbageCollection) (st : ValueLogImpl)
    (s : Status) (gc' : GarbageCollection) (st' : ValueLogImpl) :
  Rewrite gc st = Ret (s, gc', st') →
  obsolete_files_ st'
  = (if bool_decide (s = OK)
     then <[number gc := lsm_sequence (db_ st')]> (obsolete_files_ st)
     else obsolete_files_ st)
  ∧ (s = OK → ∀ n r, PickGC n st' = Some (Some r) → number r ≠ number gc).
Proof.
  intros Hrun.
  assert (Hob : obsolete_files_ st'
                = (if bool_decide (s = OK)
                   then <[number gc := lsm_sequence (db_ st')]> (obsolete_files_ st)
                   else obsolete_files_ st)).
  { revert Hrun. unfold Rewrite.
    destruct ((total_size gc =? 0) || (total_entries gc =? 0)); [done |].
    destruct (below_threshold (options_ st) gc).
    { by intros [= <- <- <-]. }
    destruct (discard_entries gc =? total_entries gc).
    - cbn [set_obsolete_sequence number obsolete_sequence].
      match goal with |- context [LogAndApply ?e ?s0] =>
        pose proof (LogAndApply_obsolete [] (number gc)
                      (DBImpl_LatestSequence (db_ st)) st) as Hob;
        pose proof (db_LogAndApply e s0) as Hdb;
        destruct (LogAndApply e s0) as [s3 st7] end.
      cbn [fst snd] in Hob, Hdb. intros [= <- <- <-]. by rewrite Hob, Hdb.
    - cbn [NewFileNumber].
      destruct (ok (new_file_status _ _)) eqn:Hnew; cbn [negb].
      2:{ intros [= <- <- <-].
          destruct (new_file_status _ _); [done | by cbn ..]. }
      cbn [write_new_vlog]. intros Hrun.
      by apply rewrite_to_LSM_obsolete in Hrun. }
  split; [exact Hob |].
  intros -> n r Hpick Heq. apply PickGC_not_obsolete in Hpick.
  rewrite Heq, Hob in Hpick.
  rewrite bool_decide_eq_true_2 in Hpick by done.
  by rewrite lookup_insert_eq in Hpick.
Qed.

(** ** Rewrite: the copy that is not followed by the handle rewrites *)

Lemma Rewrite_copy (gc : GarbageCollection) (st : ValueLogImpl) :
  reaches_copy gc st →
  let num := u64 (vlog_file_number_ st + 1) in
  let vb := ValueBatch_Finalize num 0 (value_batch gc) in
  let bytes := u32 (batch_bytes (vb_records (value_batch gc))) in
  let f := {| meta_number := num; file_size := bytes |} in
  ∃ st4,
    Rewrite gc st = rewrite_to_LSM f vb gc st4
    ∧ trace_ st4 = trace_ st ++ copy_events num bytes
    ∧ db_ st4 = db_ st ∧ shutdown_ st4 = shutdown_ st
    ∧ obsolete_files_ st4 = obsolete_files_ st
    ∧ vlog_files_ st4
      = <[num := written (file_outcome (env_ st) num) (vb_records (value_batch gc))]>
          (vlog_files_ st)
    ∧ num ∈ pending_outputs_ st4
    ∧ is_Some (ro_files_ st4 !! num)
    ∧ (∀ k, is_Some (ro_files_ st !! k) → is_Some (ro_files_ st4 !! k))
    ∧ env_ st4 = env_ st.
Proof.
  intros (Hs & He & Hb & Hd & Hnew) num vb bytes f.
  unfold Rewrite.
  destruct (N.eqb_spec (total_size gc) 0); [done |].
  destruct (N.eqb_spec (total_entries gc) 0); [done |].
  cbn [orb]. rewrite Hb.
  destruct (N.eqb_spec (discard_entries gc) (total_entries gc)); [done |].
  cbn [NewFileNumber].
  change (env_ (set_vlog_file_number_ (u64 (vlog_file_number_ st + 1)) st))
    with (env_ st).
  rewrite Hnew. cbn [ok negb write_new_vlog].
  eexists. split; [reflexivity |].
  cbn -[copy_events written]. split; [by rewrite <- !app_assoc |].
  split; [done |]. split; [done |]. split; [done |]. split; [done |].
  split; [apply elem_of_union_l; by apply elem_of_singleton |].
  split; [apply emplace_is_Some |].
  split; [| done].
  intros k Hk. unfold emplace. cbn.
  destruct (ro_files_ st !! u64 (vlog_file_number_ st + 1)) eqn:Hn; [done |].
  destruct (decide (k = u64 (vlog_file_number_ st + 1))) as [-> | Hne];
    [by rewrite lookup_insert_eq | by rewrite lookup_insert_ne].
Qed.

(** X14.  While the engine shuts down, a [Rewrite] that has records to copy
    still makes the calls that write the new file and registers it, but
    rewrites no handle: it
    returns IOError before the first write to the LSM, without sync and
    without version edit.  The LSM and the obsolete files are as before, and
    the new file stays in [pending_outputs_] and [ro_files_]. *)
Theorem Rewrite_during_shutdown (gc : GarbageCollection) (st : ValueLogImpl) :
  shutdown_ st = true →
  reaches_copy gc st →
  vb_records (value_batch gc) ≠ [] →
  let num := u64 (vlog_file_number_ st + 1) in
  let bytes := u32 (batch_bytes (vb_records (value_batch gc))) in
  ∃ gc' st',
    Rewrite gc st = Ret (IOError, gc', st')
    ∧ trace_ st' = trace_ st ++ copy_events num bytes
    ∧ db_ st' = db_ st
    ∧ obsolete_files_ st' = obsolete_files_ st
    ∧ num ∈ pending_outputs_ st'
    ∧ is_Some (ro_files_ st' !! num).
Proof.
  intros Hsh Hreach Hne num bytes.
  destruct (Rewrite_copy gc st Hreach)
    as (st4 & -> & Htr & Hdb & Hsh4 & Hob & Hfiles & Hpend & Hro & _).
  fold num in Htr, Hfiles, Hpend, Hro. fold bytes in Htr.
  unfold rewrite_to_LSM, ValueBatch_Iterate, ValueBatch_handles.
  cbn [ValueBatch_Finalize vb_records vb_number vb_offset].
  destruct (vb_records (value_batch gc)) as [|[k v] recs] eqn:Hrecs; [done |].
  cbn [handles_from Iterate_loop]. unfold RewriteLSMHandler_call.
  rewrite Hsh4, Hsh. cbn [h_s ok negb orb].
  eexists _, st4. by split.
Qed.

(** ** Rewrite: a write the callback rejects *)

Lemma DBImpl_Write_accepted (db : DBImpl) (key value : string)
    (cb : ValueLogGCWriteCallback) :
  Callback cb db = OK → lsm_write_status db = OK →
  DBImpl_Write db [(kTypeValueHandle, key, value)] cb
  = (OK, {| lsm_table := <[key := (kTypeValueHandle, value)]> (lsm_table db);
            lsm_sequence := u64 (lsm_sequence db + 1);
            lsm_read_error := lsm_read_error db;
            lsm_write_status := lsm_write_status db;
            lsm_sync_status := lsm_sync_status db |}).
Proof. intros Hc Hw. unfold DBImpl_Write. by rewrite Hc, Hw. Qed.

(** While the engine's own write succeeds, every call of [Write] reports OK,
    taken or dropped. *)
Lemma DBImpl_Write_reports_OK (db : DBImpl) (updates : WriteBatch)
    (cb : ValueLogGCWriteCallback) :
  lsm_write_status db = OK →
  fst (DBImpl_Write db updates cb) = OK
  ∧ lsm_write_status (snd (DBImpl_Write db updates cb)) = OK
  ∧ lsm_sync_status (snd (DBImpl_Write db updates cb)) = lsm_sync_status db.
Proof.
  intros Hw. unfold DBImpl_Write. rewrite Hw.
  destruct (ok (Callback cb db)); by cbn.
Qed.

Lemma Iterate_loop_all_written :
  ∀ (items : list (string * string * ValueHandle)) (h : RewriteLSMHandler)
    (rw : list (WriteBatch * ValueLogGCWriteCallback)) (st : ValueLogImpl),
    shutdown_ st = false →
    lsm_write_status (db_ st) = OK →
    Forall2 (fun it q => fst q = [] ∧ key_ (snd q) = fst (fst it))
            items (drop (h_iter h) rw) →
    h_s h = OK →
    ∃ h' rw' st',
      Iterate_loop items h rw st = Ret (h', rw', st')
      ∧ h_s h' = OK
      ∧ trace_ st'
        = trace_ st ++ map (fun it => EvLSMWrite (fst (fst it)) (snd it) OK) items
      ∧ same_but_lsm st st'
      ∧ lsm_sync_status (db_ st') = lsm_sync_status (db_ st).
Proof.
  induction items as [|[[key v] hd] rest IH]; intros h rw st Hsh Hws Hp Hs.
  { exists h, rw, st. cbn. rewrite app_nil_r.
    split; [done |]. split; [done |]. split; [done |].
    split; [apply same_but_lsm_refl | done]. }
  apply Forall2_cons_inv_l in Hp as (q & tl & [Hb Hk] & Htl & Hdrop).
  assert (Hq : rw !! h_iter h = Some q).
  { pose proof (lookup_drop rw (h_iter h) 0) as Hl.
    rewrite Hdrop, Nat.add_0_r in Hl. by rewrite <- Hl. }
  destruct q as [batch cb]. cbn in Hb, Hk. subst batch.
  cbn [Iterate_loop]. unfold RewriteLSMHandler_call.
  rewrite Hsh, Hq. cbn [WriteBatchInternal_Put app].
  destruct (DBImpl_Write_reports_OK (db_ st)
              [(kTypeValueHandle, key, EncodeTo hd)] cb Hws) as (Hst & Hws1 & Hsy1).
  destruct (DBImpl_Write (db_ st) [(kTypeValueHandle, key, EncodeTo hd)] cb)
    as [s db1]. cbn [fst snd] in Hst, Hws1, Hsy1. subst s. cbn [ok negb].
  assert (Hd : drop (S (h_iter h)) rw = tl).
  { replace (S (h_iter h)) with (h_iter h + 1)%nat by lia.
    by rewrite <- drop_drop, Hdrop. }
  case_bool_decide as Hend.
  - assert (Hrest : rest = []).
    { rewrite length_insert in Hend. rewrite <- Hd in Htl.
      rewrite drop_ge in Htl by lia. by apply Forall2_nil_inv_r in Htl. }
    subst rest. eexists _, _, _. split; [reflexivity |].
    split; [done |]. split; [done |].
    split; [eapply same_but_lsm_step; apply same_but_lsm_refl | done].
  - match goal with |- context [Iterate_loop rest ?h1 ?rw1 ?st1] =>
      destruct (IH h1 rw1 st1) as (h' & rw' & st' & Hrun & Hs' & Htr & Hsame & Hsy)
    end.
    { done. }
    { done. }
    { cbn [h_iter]. rewrite drop_insert_lt by lia. by rewrite Hd. }
    { done. }
    exists h', rw', st'. split; [exact Hrun |]. split; [exact Hs' |].
    split; [rewrite Htr; cbn; by rewrite <- app_assoc |].
    split; [by eapply same_but_lsm_step |].
    rewrite Hsy. exact Hsy1.
Qed.

(** X15.  A write the callback rejects does not stop the rewrite.  While the
    engine is not shutting down and its own write, its sync and the manifest
    succeed, [Rewrite] calls [Write] once for every record of the batch,
    every call reports OK whatever the callbacks return, and [Rewrite] goes
    on to the sync and the version edit and returns OK: the collected file
    is made obsolete.  A key whose callbacks reject keeps its entry. *)
Theorem Rewrite_skips_rejected_writes (gc : GarbageCollection) (st : ValueLogImpl) :
  reaches_copy gc st →
  paired (vb_records (value_batch gc)) (rewrites gc) →
  shutdown_ st = false →
  lsm_write_status (db_ st) = OK →
  lsm_sync_status (db_ st) = OK →
  manifest_status (env_ st) = OK →
  let num := u64 (vlog_file_number_ st + 1) in
  let bytes := u32 (batch_bytes (vb_records (value_batch gc))) in
  ∃ gc' st' edit,
    Rewrite gc st = Ret (OK, gc', st')
    ∧ trace_ st'
      = trace_ st ++ copy_events num bytes
          ++ map (fun it => EvLSMWrite (fst (fst it)) (snd it) OK)
               (handles_from num 0 (vb_records (value_batch gc)))
          ++ [EvLSMSync OK; EvVersionEdit edit OK]
    ∧ deleted edit = [(number gc, lsm_sequence (db_ st'))]
    ∧ obsolete_files_ st' !! number gc = Some (lsm_sequence (db_ st'))
    ∧ (∀ k, (∀ p, p ∈ rewrites gc → key_ (snd p) = k →
                  Callback (snd p) (db_ st) ≠ OK) →
            lsm_table (db_ st') !! k = lsm_table (db_ st) !! k).
Proof.
  intros Hreach Hp Hsh Hws Hsy Hman num bytes.
  assert (Hkeep : ∀ s gc' st', Rewrite gc st = Ret (s, gc', st') →
            ∀ k, (∀ p, p ∈ rewrites gc → key_ (snd p) = k →
                       Callback (snd p) (db_ st) ≠ OK) →
                 lsm_table (db_ st') !! k = lsm_table (db_ st) !! k).
  { intros s gc' st' Hrun k Hk.
    by destruct (Rewrite_preserves_overwritten k gc st s gc' st' Hp Hk Hrun). }
  destruct (Rewrite_copy gc st Hreach)
    as (st4 & Hrw & Htr & Hdb & Hsh4 & Hob & _ & _ & _ & _ & Henv).
  fold num in Htr, Hrw. fold bytes in Htr, Hrw. rewrite Hrw in Hkeep |- *.
  revert Hkeep. unfold rewrite_to_LSM, ValueBatch_Iterate, ValueBatch_handles.
  cbn [ValueBatch_Finalize vb_records vb_number vb_offset].
  destruct (Iterate_loop_all_written
              (handles_from num 0 (vb_records (value_batch gc)))
              {| h_handle_encoding := EmptyString; h_iter := 0; h_s := OK |}
              (rewrites gc) st4)
    as (h' & rw' & st5 & Hrun & Hs & Htr5 & Hsame & Hsy5);
    [by rewrite Hsh4 | by rewrite Hdb
    | cbn [h_iter drop]; by apply handles_from_paired | done |].
  rewrite Hrun, Hs. cbn [ok negb orb]. unfold DBImpl_Sync.
  rewrite Hsy5, Hdb, Hsy. cbn [ok negb].
  cbn [set_obsolete_sequence number obsolete_sequence set_batches].
  assert (Henv5 : env_ st5 = env_ st).
  { unfold same_but_lsm in Hsame. rewrite Hsame. cbn. exact Henv. }
  match goal with |- context [LogAndApply ?e ?s0] =>
    assert (Hob7 : obsolete_files_ (snd (LogAndApply e s0))
                   = if bool_decide (fst (LogAndApply e s0) = OK)
                     then <[number gc := lsm_sequence (db_ s0)]> (obsolete_files_ s0)
                     else obsolete_files_ s0)
      by exact (LogAndApply_obsolete _ _ _ _);
    pose proof (db_LogAndApply e s0) as Hdb7;
    pose proof (LogAndApply_trace e s0) as Htr7;
    assert (Hst7 : fst (LogAndApply e s0) = OK)
      by (unfold LogAndApply; cbn [emit env_ set_trace_]; by rewrite Henv5, Hman);
    set (edit := e) in *;
    destruct (LogAndApply edit s0) as [s3 st7]
  end.
  cbn [fst snd added] in Hob7, Hdb7, Htr7, Hst7. subst s3.
  intros Hkeep. eexists _, st7, edit. split; [reflexivity |].
  split.
  { rewrite Htr7. cbn [emit trace_ set_trace_]. rewrite Htr5, Htr.
    by rewrite <- !app_assoc. }
  split; [by rewrite Hdb7 |].
  split.
  { rewrite Hob7, bool_decide_eq_true_2 by done.
    rewrite lookup_insert_eq. by rewrite Hdb7. }
  exact (Hkeep _ _ _ eq_refl).
Qed.

(** The rewrite of file 1 of the scenario succeeds and retires it. *)
Lemma Rewrite_retires_on_OK_witness :
  ∃ gc' st',
    Rewrite Scenario.collected_1 Scenario.st0 = Ret (OK, gc', st')
    ∧ obsolete_files_ st' = <[1 := lsm_sequence (db_ st')]> ∅
    ∧ ∀ n r, PickGC n st' = Some (Some r) → number r ≠ 1.
Proof.
  destruct (Rewrite Scenario.collected_1 Scenario.st0) as [[[s gc'] st'] | f] eqn:Hrun.
  - assert (Hs : s = OK) by (vm_compute in Hrun; by injection Hrun as <- _ _).
    subst s. exists gc', st'. split; [reflexivity |].
    destruct (Rewrite_retires_on_OK _ _ _ _ _ Hrun) as [Hob Hpick].
    split; [exact Hob | exact (Hpick eq_refl)].
  - exfalso. vm_compute in Hrun. discriminate Hrun.
Defined.

Lemma Rewrite_during_shutdown_witness :
  shutdown_ Cases.st_shutdown = true
  ∧ reaches_copy Scenario.collected_1 Cases.st_shutdown
  ∧ vb_records (value_batch Scenario.collected_1) ≠ []
  ∧ ∃ gc' st',
      Rewrite Scenario.collected_1 Cases.st_shutdown = Ret (IOError, gc', st')
      ∧ trace_ st' = trace_ Cases.st_shutdown ++ copy_events 3 4
      ∧ db_ st' = db_ Cases.st_shutdown
      ∧ obsolete_files_ st' = obsolete_files_ Cases.st_shutdown
      ∧ 3 ∈ pending_outputs_ st'
      ∧ is_Some (ro_files_ st' !! 3).
Proof.
  assert (H1 : shutdown_ Cases.st_shutdown = true) by reflexivity.
  assert (H2 : reaches_copy Scenario.collected_1 Cases.st_shutdown)
    by (unfold reaches_copy; compute_done).
  assert (H3 : vb_records (value_batch Scenario.collected_1) ≠ [])
    by (vm_compute; discriminate).
  repeat (split; [assumption |]).
  exact (Rewrite_during_shutdown Scenario.collected_1 Cases.st_shutdown H1 H2 H3).
Defined.

(** Key [a] was overwritten between [Collect] and [Rewrite]: the callback of
    the only rewrite rejects, the rewrite goes on and the entry stays. *)
Lemma Rewrite_skips_rejected_writes_witness :
  let gc := Scenario.collected_1 in
  let st := Cases.st_overwritten in
  reaches_copy gc st
  ∧ paired (vb_records (value_batch gc)) (rewrites gc)
  ∧ shutdown_ st = false
  ∧ lsm_write_status (db_ st) = OK
  ∧ lsm_sync_status (db_ st) = OK
  ∧ manifest_status (env_ st) = OK
  ∧ Callback {| key_ := Scenario.key_a; handle_ := Scenario.h_a |} (db_ st)
    = InvalidArgument
  ∧ ∃ gc' st',
      Rewrite gc st = Ret (OK, gc', st')
      ∧ obsolete_files_ st' !! 1 = Some (lsm_sequence (db_ st'))
      ∧ lsm_table (db_ st') !! Scenario.key_a = Some (kTypeValue, "new"%string).
Proof.
  cbv zeta.
  assert (H1 : reaches_copy Scenario.collected_1 Cases.st_overwritten)
    by (unfold reaches_copy; compute_done).
  assert (H2 : paired (vb_records (value_batch Scenario.collected_1))
                      (rewrites Scenario.collected_1))
    by (unfold paired; compute_done).
  assert (H3 : shutdown_ Cases.st_overwritten = false) by reflexivity.
  assert (H4 : lsm_write_status (db_ Cases.st_overwritten) = OK) by reflexivity.
  assert (H5 : lsm_sync_status (db_ Cases.st_overwritten) = OK) by reflexivity.
  assert (H6 : manifest_status (env_ Cases.st_overwritten) = OK) by reflexivity.
  assert (H7 : Callback {| key_ := Scenario.key_a; handle_ := Scenario.h_a |}
                 (db_ Cases.st_overwritten) = InvalidArgument) by reflexivity.
  repeat (split; [assumption |]).
  destruct (Rewrite_skips_rejected_writes Scenario.collected_1 Cases.st_overwritten
              H1 H2 H3 H4 H5 H6) as (gc' & st' & edit & Hrun & _ & _ & Hob & Hkeep).
  exists gc', st'. split; [exact Hrun |]. split; [exact Hob |].
  rewrite (Hkeep Scenario.key_a); [reflexivity |].
  intros p Hin _.
  change (rewrites Scenario.collected_1)
    with [(([] : WriteBatch),
           {| key_ := Scenario.key_a; handle_ := Scenario.h_a |})] in Hin.
  apply list_elem_of_singleton in Hin. subst p.
  cbn [snd]. rewrite H7. discriminate.
Defined.

(** ** What a run does to the entries of the LSM *)

Lemma LogAndApply_files (edit : BlobVersionEdit) (st : ValueLogImpl) :
  vlog_files_ (snd (LogAndApply edit st)) = vlog_files_ st.
Proof. unfold LogAndApply. by destruct (ok (manifest_status (env_ st))). Qed.

Lemma same_but_lsm_files (st st' : ValueLogImpl) :
  same_but_lsm st st' → vlog_files_ st' = vlog_files_ st.
Proof. unfold same_but_lsm. by intros ->. Qed.

Lemma LogAndApply_number (edit : BlobVersionEdit) (st : ValueLogImpl) :
  vlog_file_number_ (snd (LogAndApply edit st)) = vlog_file_number_ st.
Proof. unfold LogAndApply. by destruct (ok (manifest_status (env_ st))). Qed.

Lemma same_but_lsm_number (st st' : ValueLogImpl) :
  same_but_lsm st st' → vlog_file_number_ st' = vlog_file_number_ st.
Proof. unfold same_but_lsm. by intros ->. Qed.

Lemma LogAndApply_env (edit : BlobVersionEdit) (st : ValueLogImpl) :
  env_ (snd (LogAndApply edit st)) = env_ st.
Proof. unfold LogAndApply. by destruct (ok (manifest_status (env_ st))). Qed.

Lemma same_but_lsm_env (st st' : ValueLogImpl) :
  same_but_lsm st st' → env_ st' = env_ st.
Proof. unfold same_but_lsm. by intros ->. Qed.

Lemma Rewrite_env (gc : GarbageCollection) (st : ValueLogImpl)
    (s : Status) (gc' : GarbageCollection) (st' : ValueLogImpl) :
  Rewrite gc st = Ret (s, gc', st') → env_ st' = env_ st.
Proof.
  unfold Rewrite.
  destruct ((total_size gc =? 0) || (total_entries gc =? 0)); [done |].
  destruct (below_threshold (options_ st) gc); [by intros [= <- <- <-] |].
  destruct (discard_entries gc =? total_entries gc).
  { match goal with |- context [LogAndApply ?e ?s0] =>
      pose proof (LogAndApply_env e s0) as He;
      destruct (LogAndApply e s0) as [s3 st7] end.
    cbn [fst snd] in He. by intros [= <- <- <-]. }
  cbn [NewFileNumber].
  destruct (ok (new_file_status _ _)); cbn [negb]; [| by intros [= <- <- <-]].
  cbn [write_new_vlog].
  unfold rewrite_to_LSM, ValueBatch_Iterate, ValueBatch_handles.
  cbn [ValueBatch_Finalize vb_records vb_number vb_offset].
  match goal with |- context [Iterate_loop ?i ?h ?r ?s0] =>
    destruct (Iterate_loop i h r s0) as [[[h1 rw1] st5] | e] eqn:Hit; [| done] end.
  pose proof (same_but_lsm_env _ _ (Iterate_loop_frame _ _ _ _ _ _ _ Hit)) as He5.
  cbn [ok negb orb].
  destruct (ok (h_s h1)); cbn [negb]; [| by intros [= <- <- <-]].
  destruct (ok (DBImpl_Sync (db_ st5))); cbn [negb]; [| by intros [= <- <- <-]].
  match goal with |- context [LogAndApply ?e ?s0] =>
    pose proof (LogAndApply_env e s0) as He;
    destruct (LogAndApply e s0) as [s3 st7] end.
  cbn [fst snd] in He. intros [= <- <- <-]. by rewrite He.
Qed.

(** The two ways in which [Rewrite] returns: without touching the LSM and the
    files, or after the copy and the loop over the finalized batch. *)
Lemma Rewrite_inv (gc : GarbageCollection) (st : ValueLogImpl)
    (s : Status) (gc' : GarbageCollection) (st' : ValueLogImpl) :
  Rewrite gc st = Ret (s, gc', st') →
  let num := u64 (vlog_file_number_ st + 1) in
  (db_ st' = db_ st ∧ vlog_files_ st' = vlog_files_ st
   ∧ (vlog_file_number_ st' = vlog_file_number_ st ∨ vlog_file_number_ st' = num))
  ∨ ∃ st4 h1 rw1 st5,
      db_ st4 = db_ st
      ∧ vlog_files_ st4
        = <[num := written (file_outcome (env_ st) num) (vb_records (value_batch gc))]>
            (vlog_files_ st)
      ∧ Iterate_loop (handles_from num 0 (vb_records (value_batch gc)))
          {| h_handle_encoding := EmptyString; h_iter := 0; h_s := OK |}
          (rewrites gc) st4 = Ret (h1, rw1, st5)
      ∧ db_ st' = db_ st5
      ∧ vlog_files_ st' = vlog_files_ st4
      ∧ vlog_file_number_ st' = num.
Proof.
  intros Hrun num. revert Hrun. unfold Rewrite.
  destruct ((total_size gc =? 0) || (total_entries gc =? 0)); [done |].
  destruct (below_threshold (options_ st) gc).
  { intros [= <- <- <-]. left. auto. }
  destruct (discard_entries gc =? total_entries gc).
  { match goal with |- context [LogAndApply ?e ?s0] =>
      pose proof (LogAndApply_files e s0) as Hf;
      pose proof (db_LogAndApply e s0) as Hdb;
      pose proof (LogAndApply_number e s0) as Hn;
      destruct (LogAndApply e s0) as [s3 st7] end.
    cbn [fst snd] in Hf, Hdb, Hn. intros [= <- <- <-]. left. auto. }
  cbn [NewFileNumber]. fold num.
  destruct (ok (new_file_status _ _)); cbn [negb].
  2:{ intros [= <- <- <-]. left. cbn. auto. }
  cbn [write_new_vlog].
  unfold rewrite_to_LSM, ValueBatch_Iterate, ValueBatch_handles.
  cbn [ValueBatch_Finalize vb_records vb_number vb_offset].
  match goal with |- context [Iterate_loop ?i ?h ?r ?s0] =>
    destruct (Iterate_loop i h r s0) as [[[h1 rw1] st5] | e] eqn:Hit; [| done];
    set (st4 := s0) in * end.
  pose proof (same_but_lsm_files _ _ (Iterate_loop_frame _ _ _ _ _ _ _ Hit)) as Hfiles.
  pose proof (same_but_lsm_number _ _ (Iterate_loop_frame _ _ _ _ _ _ _ Hit)) as Hnum.
  intros Hrun. right. exists st4, h1, rw1, st5.
  split; [done |]. split; [done |]. split; [exact Hit |].
  revert Hrun. cbn [ok negb orb].
  destruct (ok (h_s h1)); cbn [negb].
  2:{ by intros [= <- <- <-]. }
  destruct (ok (DBImpl_Sync (db_ st5))); cbn [negb].
  2:{ by intros [= <- <- <-]. }
  match goal with |- context [LogAndApply ?e ?s0] =>
    pose proof (LogAndApply_files e s0) as Hf;
    pose proof (db_LogAndApply e s0) as Hdb;
    pose proof (LogAndApply_number e s0) as Hn;
    destruct (LogAndApply e s0) as [s3 st7] end.
  cbn [fst snd] in Hf, Hdb, Hn. intros [= <- <- <-]. by rewrite Hf, Hdb, Hn.
Qed.

Lemma Callback_OK_entry (cb : ValueLogGCWriteCallback) (db : DBImpl) :
  Callback cb db = OK → is_Some (lsm_table db !! key_ cb).
Proof.
  cbn. unfold ValueLogGCWriteCallback_Callback, DB_Get, DBImpl_Get.
  destruct (decide (key_ cb ∈ lsm_read_error db)); [done |].
  destruct (lsm_table db !! key_ cb) as [[[] ?] |]; done.
Qed.

Lemma Iterate_loop_moves :
  ∀ (items : list (string * string * ValueHandle)) (h : RewriteLSMHandler)
    (rw : list (WriteBatch * ValueLogGCWriteCallback)) (st : ValueLogImpl)
    h' rw' st' (k : string),
    Forall2 (fun it p => fst p = [] ∧ key_ (snd p) = fst (fst it))
            items (drop (h_iter h) rw) →
    Iterate_loop items h rw st = Ret (h', rw', st') →
    lsm_read_error (db_ st') = lsm_read_error (db_ st)
    ∧ (lsm_table (db_ st') !! k = lsm_table (db_ st) !! k
       ∨ (is_Some (lsm_table (db_ st) !! k)
          ∧ ∃ v hd, (k, v, hd) ∈ items
                    ∧ lsm_table (db_ st') !! k
                      = Some (kTypeValueHandle, EncodeTo hd))).
Proof.
  induction items as [|[[key v] hd] rest IH]; intros h rw st h' rw' st' k Hp Hrun.
  - cbn in Hrun. injection Hrun as _ _ <-. auto.
  - cbn [Iterate_loop] in Hrun. unfold RewriteLSMHandler_call in Hrun.
    destruct (shutdown_ st); [injection Hrun as _ _ <-; by auto |].
    apply Forall2_cons_inv_l in Hp as (p & tl & [Hb Hk] & Htl & Hdrop).
    assert (Hi : rw !! h_iter h = Some p).
    { pose proof (lookup_drop rw (h_iter h) 0) as Hl.
      rewrite Hdrop, Nat.add_0_r in Hl. by rewrite <- Hl. }
    rewrite Hi in Hrun. destruct p as [batch cb]. cbn in Hb, Hk. subst batch.
    cbn [WriteBatchInternal_Put app] in Hrun.
    assert (Hw : ∃ s db1,
               DBImpl_Write (db_ st) [(kTypeValueHandle, key, EncodeTo hd)] cb = (s, db1)
               ∧ lsm_read_error db1 = lsm_read_error (db_ st)
               ∧ (db1 = db_ st
                  ∨ (s = OK ∧ is_Some (lsm_table (db_ st) !! key)
                     ∧ lsm_table db1
                       = <[key := (kTypeValueHandle, EncodeTo hd)]>
                           (lsm_table (db_ st))))).
    { destruct (Status_eq_dec (Callback cb (db_ st)) OK) as [Hc | Hc].
      - destruct (Status_eq_dec (lsm_write_status (db_ st)) OK) as [Hs | Hs].
        + rewrite DBImpl_Write_accepted by done. eexists _, _.
          split; [reflexivity |]. split; [done |]. right.
          split; [done |]. split; [| done].
          rewrite <- Hk. by apply Callback_OK_entry.
        + unfold DBImpl_Write. rewrite Hc. cbn [ok negb].
          destruct (lsm_write_status (db_ st)); [done | ..];
            (eexists _, _; split; [reflexivity |]; split; [done |]; by left).
      - rewrite DBImpl_Write_rejected by done. eexists _, _.
        split; [reflexivity |]. split; [done |]. by left. }
    destruct Hw as (s & db1 & Hw & Herr & Hcase). rewrite Hw in Hrun.
    assert (Hfirst : lsm_table db1 !! k = lsm_table (db_ st) !! k
                     ∨ (is_Some (lsm_table (db_ st) !! k) ∧ k = key
                        ∧ lsm_table db1 !! k = Some (kTypeValueHandle, EncodeTo hd))).
    { destruct Hcase as [-> | (_ & Hsome & ->)]; [by left |].
      destruct (decide (k = key)) as [-> | Hne].
      - right. by rewrite lookup_insert_eq.
      - left. by rewrite lookup_insert_ne. }
    assert (Hstop : lsm_read_error db1 = lsm_read_error (db_ st)
                    ∧ (lsm_table db1 !! k = lsm_table (db_ st) !! k
                       ∨ (is_Some (lsm_table (db_ st) !! k)
                          ∧ ∃ v0 hd0, (k, v0, hd0) ∈ (key, v, hd) :: rest
                              ∧ lsm_table db1 !! k
                                = Some (kTypeValueHandle, EncodeTo hd0)))).
    { split; [done |]. destruct Hfirst as [? | (? & -> & ?)]; [by left |].
      right. split; [done |]. exists v, hd. split; [apply list_elem_of_here | done]. }
    destruct (ok s); cbn [negb] in Hrun.
    2:{ by injection Hrun as _ _ <-. }
    case_bool_decide; [by injection Hrun as _ _ <- |].
    eapply (IH _ _ _ _ _ _ k) in Hrun as [Hr Ht].
    2:{ cbn [h_iter]. rewrite drop_insert_lt by lia.
        assert (Hd : drop (S (h_iter h)) rw = tl).
        { replace (S (h_iter h)) with (h_iter h + 1)%nat by lia.
          by rewrite <- drop_drop, Hdrop. }
        by rewrite Hd. }
    cbn [db_ emit set_db_ set_trace_] in Hr, Ht.
    split; [by rewrite Hr |].
    destruct Ht as [Ht | (Hsome & v0 & hd0 & Hin & Ht)].
    + rewrite Ht. destruct Hstop as [_ Hstop]. exact Hstop.
    + right. split.
      * destruct Hfirst as [Heq | (? & _)]; [by rewrite <- Heq | done].
      * exists v0, hd0. split; [by apply list_elem_of_further | done].
Qed.

(** X16.  [Rewrite] changes an entry of the LSM in one way only: the entry of
    a key that had one becomes the encoded handle that the finalized batch
    gives a record of that key in the new file.  It adds no key, removes
    none, and leaves the keys whose lookup fails as they are. *)
Theorem Rewrite_only_moves_handles (gc : GarbageCollection) (st : ValueLogImpl)
    (s : Status) (gc' : GarbageCollection) (st' : ValueLogImpl) (k : string) :
  paired (vb_records (value_batch gc)) (rewrites gc) →
  Rewrite gc st = Ret (s, gc', st') →
  let num := u64 (vlog_file_number_ st + 1) in
  lsm_read_error (db_ st') = lsm_read_error (db_ st)
  ∧ (is_Some (lsm_table (db_ st') !! k) ↔ is_Some (lsm_table (db_ st) !! k))
  ∧ (lsm_table (db_ st') !! k = lsm_table (db_ st) !! k
     ∨ ∃ v h,
         (k, v, h) ∈ handles_from num 0 (vb_records (value_batch gc))
         ∧ lsm_table (db_ st') !! k = Some (kTypeValueHandle, EncodeTo h)).
Proof.
  intros Hp Hrun num.
  destruct (Rewrite_inv _ _ _ _ _ Hrun)
    as [(Hdb & Hf & _) | (st4 & h1 & rw1 & st5 & Hdb4 & Hf4 & Hit & Hdb & Hf & _)].
  { rewrite Hdb. split; [done |]. split; [done | by left]. }
  fold num in Hf4, Hit.
  eapply (Iterate_loop_moves _ _ _ _ _ _ _ k) in Hit as [Herr Hmove].
  2:{ cbn [h_iter drop]. by apply handles_from_paired. }
  rewrite Hdb4 in Herr, Hmove. rewrite Hdb.
  split; [done |].
  destruct Hmove as [Heq | (Hsome & v & hd & Hin & Hnew)].
  - rewrite Heq. split; [done | by left].
  - split; [by rewrite Hnew |].
    right. by exists v, hd.
Qed.

(** ** A run preserves what the keys resolve to *)

Lemma SizeOfVariant32_loop_ge (fuel : nat) :
  ∀ v size, size ≤ SizeOfVariant32_loop fuel v size.
Proof.
  induction fuel as [|f IH]; intros v size; cbn [SizeOfVariant32_loop]; [lia |].
  destruct (N.shiftr v 7 =? 0); [lia |].
  etransitivity; [| apply IH]. lia.
Qed.

Lemma SizeOf_pos (k v : string) : 0 < SizeOf k v.
Proof.
  unfold SizeOf, SizeOfVariant32.
  pose proof (SizeOfVariant32_loop_ge 5 (u32 (len k)) 1). lia.
Qed.

Lemma handles_from_offsets (num : N) (recs : list (string * string)) :
  ∀ off it,
    off + batch_bytes recs < 2 ^ 32 →
    it ∈ handles_from num off recs →
    table_ (snd it) = num ∧ off ≤ offset_ (snd it).
Proof.
  induction recs as [|[k v] recs IH]; intros off it Hb Hin; cbn [handles_from] in Hin.
  - by apply elem_of_nil in Hin.
  - cbn [batch_bytes] in Hb.
    apply elem_of_cons in Hin as [-> | Hin]; [cbn; split; [done | lia] |].
    rewrite u32_small in Hin by lia.
    apply IH in Hin as [Ht Ho]; [| lia]. split; [done | lia].
Qed.

Lemma handles_from_unique (num : N) (recs : list (string * string)) :
  ∀ off k v k' v' h,
    off + batch_bytes recs < 2 ^ 32 →
    (k, v, h) ∈ handles_from num off recs →
    (k', v', h) ∈ handles_from num off recs →
    k = k' ∧ v = v'.
Proof.
  induction recs as [|[k0 v0] recs IH]; intros off k v k' v' h Hb H1 H2;
    cbn [handles_from] in H1, H2.
  - by apply elem_of_nil in H1.
  - cbn [batch_bytes] in Hb. pose proof (SizeOf_pos k0 v0) as Hpos.
    rewrite (u32_small (off + SizeOf k0 v0)) in H1, H2 by lia.
    apply elem_of_cons in H1 as [H1 | H1]; apply elem_of_cons in H2 as [H2 | H2].
    + injection H1 as -> -> _. injection H2 as -> -> _. done.
    + injection H1 as -> -> ->.
      apply handles_from_offsets in H2 as [_ Ho]; [| lia]. cbn in Ho. lia.
    + injection H2 as -> -> ->.
      apply handles_from_offsets in H1 as [_ Ho]; [| lia]. cbn in Ho. lia.
    + eapply (IH (off + SizeOf k0 v0)); [lia | done | done].
Qed.

Lemma handles_from_records (num : N)
    (L : list (string * string * ValueHandle)) :
  ∀ off k v hd,
    off < 2 ^ 32 → num < 2 ^ 64 →
    (k, v, hd) ∈ handles_from num off (map record_of L) →
    valid_handle hd ∧ table_ hd = num
    ∧ ∃ it, it ∈ L ∧ fst (fst it) = k ∧ snd (fst it) = v.
Proof.
  induction L as [|[[k0 v0] h0] L IH]; intros off k v hd Hoff Hnum Hin;
    cbn [map record_of handles_from fst snd] in Hin.
  - by apply elem_of_nil in Hin.
  - apply elem_of_cons in Hin as [Hin | Hin].
    + injection Hin as -> -> ->. split.
      { unfold valid_handle. cbn. pose proof (u32_lt (SizeOf k0 v0)). done. }
      split; [done |]. exists (k0, v0, h0). split; [apply list_elem_of_here | done].
    + apply IH in Hin as (Hv & Ht & it & Hit & Hk & Hv0); [| apply u32_lt | done].
      split; [done |]. split; [done |].
      exists it. split; [by apply list_elem_of_further | done].
Qed.

Lemma scanned_subset (db : DBImpl) (items : list (string * string * ValueHandle)) :
  ∀ it, it ∈ scanned db items → it ∈ items.
Proof.
  induction items as [|it0 items IH]; intros it Hin; cbn [scanned] in Hin.
  - done.
  - destruct (decide (fst (fst it0) ∈ lsm_read_error db)).
    + by apply elem_of_nil in Hin.
    + apply elem_of_cons in Hin as [-> | Hin];
        [apply list_elem_of_here | by apply list_elem_of_further, IH].
Qed.


Lemma u64_small (x : N) : x < 2 ^ 64 → u64 x = x.
Proof. intros. unfold u64. by apply N.mod_small. Qed.

Lemma batch_bytes_handles_from (num : N) (recs : list (string * string)) :
  ∀ off, batch_bytes (map record_of (handles_from num off recs)) = batch_bytes recs.
Proof.
  induction recs as [|[k v] recs IH]; intros off; cbn; [done |]. by rewrite IH.
Qed.

Lemma batch_bytes_live (f : string * string * ValueHandle → bool) (db : DBImpl)
    (items : list (string * string * ValueHandle)) :
  batch_bytes (map record_of (List.filter f (scanned db items)))
  ≤ batch_bytes (map record_of items).
Proof.
  induction items as [|[[k v] h] items IH]; cbn [scanned]; [done |].
  cbn [fst]. destruct (decide (k ∈ lsm_read_error db)).
  - cbn. lia.
  - cbn [List.filter]. destruct (f (k, v, h)); cbn; lia.
Qed.

(** What [Collect] leaves in a fresh collection: the live records it scanned. *)
Lemma Collect_live (num : N) (st : ValueLogImpl) :
  handles_decodable (db_ st) →
  ∃ L,
    vb_records (value_batch (snd (fst (Collect (GarbageCollection_new num) st))))
    = map record_of L
    ∧ rewrites (snd (fst (Collect (GarbageCollection_new num) st)))
      = map (rewrite_of num) L
    ∧ (∀ it, it ∈ L → live (db_ st) num it = true ∧ it ∈ records_of num st)
    ∧ batch_bytes (map record_of L)
      ≤ match vlog_files_ st !! num with
        | Some recs => batch_bytes recs
        | None => 0
        end.
Proof.
  intros Hdec. unfold Collect. cbn [number GarbageCollection_new].
  destruct ((CurrentFileNumber st <=? num) || (num =? 0)).
  { exists []. split; [done |]. split; [done |]. split; [| cbn; lia].
    intros it Hin. by apply elem_of_nil in Hin. }
  unfold records_of, NewVLogFileIterator.
  destruct (vlog_files_ st !! num) as [recs |].
  2:{ exists []. split; [done |]. split; [done |]. split; [| cbn; lia].
      intros it Hin. by apply elem_of_nil in Hin. }
  match goal with |- context [Collect_loop ?i ?l ?g ?s0] =>
    pose proof (Collect_loop_spec num i l g s0 eq_refl) as Hc;
    destruct (Collect_loop i l g s0) as [[loc1 gc1] st2] end.
  cbn [fst snd] in *.
  destruct Hc as [_ _ _ _ _ _ Hb Hr].
  { unfold counters_in_range. cbn. lia. }
  { exact Hdec. }
  cbn in Hb, Hr.
  exists (List.filter (live (db_ st) num)
            (scanned (db_ st) (handles_from num 0 recs))).
  split; [done |]. split; [done |]. split.
  - intros it Hin. apply list_elem_of_In, filter_In in Hin as [Hin Hlive].
    split; [exact Hlive |]. apply scanned_subset with (db := db_ st).
    by apply list_elem_of_In.
  - etransitivity; [apply batch_bytes_live |].
    by rewrite batch_bytes_handles_from.
Qed.

Lemma live_entry (db : DBImpl) (num : N) (it : string * string * ValueHandle) :
  live db num it = true →
  ∃ e, lsm_table db !! fst (fst it) = Some (kTypeValueHandle, e)
       ∧ parse_handle e = Some (current_of num it).
Proof.
  unfold live, dead.
  destruct (lsm_table db !! fst (fst it)) as [[[] e] |]; try done.
  cbn. rewrite negb_involutive. intros Hd. apply bool_decide_eq_true in Hd.
  by exists e.
Qed.

Lemma keeps_values_same (st st' : ValueLogImpl) :
  db_ st' = db_ st → vlog_files_ st' = vlog_files_ st → keeps_values st st'.
Proof.
  intros Hdb Hf. split.
  - intros k v (e & h & recs & He & Hparse & Hfile & Hin).
    exists e, h, recs. by rewrite Hdb, Hf.
  - intros k _. by rewrite Hdb.
Qed.

Lemma keeps_values_trans (st1 st2 st3 : ValueLogImpl) :
  keeps_values st1 st2 → keeps_values st2 st3 → keeps_values st1 st3.
Proof.
  intros [Hr1 Hi1] [Hr2 Hi2]. split.
  - intros k v Hr. by apply Hr2, Hr1.
  - intros k Hk. rewrite <- (Hi1 k Hk). apply Hi2.
    intros e. rewrite (Hi1 k Hk). apply Hk.
Qed.

Lemma store_ok_same_data (st st' : ValueLogImpl) :
  same_data st st' → store_ok st → store_ok st'.
Proof.
  intros (Hdb & Hf & Hn & _) (H1 & H2 & H3).
  unfold store_ok, files_addressable, disk_below_current.
  by rewrite Hdb, Hf, Hn.
Qed.

(** [Collect] on a fresh collection followed by [Rewrite]. *)
Lemma Collect_Rewrite_preserves (num : N) (st : ValueLogImpl)
    (s1 : Status) (gc2 : GarbageCollection) (st3 : ValueLogImpl) :
  handles_decodable (db_ st) →
  files_addressable st →
  vlog_files_ st !! u64 (vlog_file_number_ st + 1) = None →
  file_calls_ok (file_outcome (env_ st) (u64 (vlog_file_number_ st + 1))) = true →
  Rewrite (snd (fst (Collect (GarbageCollection_new num) st)))
          (snd (Collect (GarbageCollection_new num) st)) = Ret (s1, gc2, st3) →
  keeps_values st st3
  ∧ handles_decodable (db_ st3)
  ∧ files_addressable st3
  ∧ (vlog_file_number_ st + 1 < 2 ^ 64 → disk_below_current st →
     disk_below_current st3
     ∧ vlog_file_number_ st3 ≤ vlog_file_number_ st + 1).
Proof.
  intros Hdec Haddr Hfresh Hcalls Hrun.
  destruct (Collect_live num st Hdec) as (L & Hrecs & Hrw & HL & Hbytes).
  pose proof (Collect_frame (GarbageCollection_new num) st) as Hframe.
  pose proof (Collect_paired (GarbageCollection_new num) st) as Hpaired.
  destruct (Collect (GarbageCollection_new num) st) as [[s gc1] st1].
  cbn [fst snd] in *.
  assert (Hdb1 : db_ st1 = db_ st) by (by rewrite Hframe).
  assert (Hf1 : vlog_files_ st1 = vlog_files_ st) by (by rewrite Hframe).
  assert (Hn1 : vlog_file_number_ st1 = vlog_file_number_ st) by (by rewrite Hframe).
  assert (He1 : env_ st1 = env_ st) by (by rewrite Hframe).
  destruct (Rewrite_inv _ _ _ _ _ Hrun)
    as [(Hdb & Hf & Hn)
       | (st4 & h1 & rw1 & st5 & Hdb4 & Hf4 & Hit & Hdb & Hf & Hn)];
    rewrite Hn1 in Hn.
  { split; [apply keeps_values_same; congruence |].
    split; [by rewrite Hdb, Hdb1 |].
    split; [unfold files_addressable; by rewrite Hf, Hf1 |].
    intros Hbound Hdisk. unfold disk_below_current. rewrite Hf, Hf1.
    rewrite (u64_small (vlog_file_number_ st + 1)) in Hn by lia.
    split; [| lia].
    intros k recs Hk. specialize (Hdisk k recs Hk). cbn in *. lia. }
  rewrite Hn1, He1 in Hf4. unfold written in Hf4. rewrite Hcalls in Hf4.
  rewrite Hn1 in Hit. rewrite Hrecs in Hit, Hf4. rewrite Hf1 in Hf4.
  set (num' := u64 (vlog_file_number_ st + 1)) in *.
  assert (Hnum' : num' < 2 ^ 64) by (apply N.mod_upper_bound; lia).
  assert (Hmoves : ∀ k,
            lsm_table (db_ st3) !! k = lsm_table (db_ st) !! k
            ∨ ∃ v' hd it,
                (k, v', hd) ∈ handles_from num' 0 (map record_of L)
                ∧ lsm_table (db_ st3) !! k = Some (kTypeValueHandle, EncodeTo hd)
                ∧ valid_handle hd ∧ table_ hd = num'
                ∧ it ∈ L ∧ fst (fst it) = k ∧ snd (fst it) = v').
  { intros k.
    eapply (Iterate_loop_moves _ _ _ _ _ _ _ k) in Hit as [_ Hmove].
    2:{ cbn [h_iter drop]. rewrite <- Hrecs. apply handles_from_paired, Hpaired.
        constructor. }
    rewrite Hdb4, Hdb1 in Hmove. rewrite Hdb.
    destruct Hmove as [? | (_ & v' & hd & Hin & Hnew)]; [by left |].
    right.
    destruct (handles_from_records num' L 0 k v' hd) as (Hv & Ht & it & HitL & Hk & Hv');
      [lia | done | done |].
    by exists v', hd, it. }
  assert (Hsmall : batch_bytes (map record_of L) < 2 ^ 32).
  { destruct (vlog_files_ st !! num) as [recs0 |] eqn:Hfile0; [| lia].
    pose proof (Haddr num recs0 Hfile0) as Hs. cbn in Hs. lia. }
  split; [split |].
  - intros k v (e & h & recs & He & Hparse & Hfile & Hin).
    destruct (Hmoves k)
      as [Heq | (v' & hd & it & Hnew & Hentry & Hvalid & Ht & HitL & Hk & Hv')].
    + exists e, h, recs. rewrite Heq. split; [done |]. split; [done |].
      split; [| done]. rewrite Hf, Hf4. rewrite lookup_insert_ne; [done |].
      intros Heq'. rewrite <- Heq' in Hfile. congruence.
    + destruct (HL it HitL) as [Hlive Hrec].
      apply live_entry in Hlive as (e' & He' & Hparse').
      rewrite Hk, He in He'. injection He' as <-.
      rewrite Hparse in Hparse'. injection Hparse' as ->.
      unfold records_of, NewVLogFileIterator in Hrec.
      destruct (vlog_files_ st !! num) as [recs0 |] eqn:Hfile0;
        [| by apply elem_of_nil in Hrec].
      pose proof (Haddr num recs0 Hfile0) as Hs0. cbn in Hs0.
      destruct (handles_from_offsets num recs0 0 it) as [Htab _]; [lia | done |].
      assert (Hcur : current_of num it = snd it).
      { unfold current_of. destruct it as [[? ?] []]. cbn in *. by subst. }
      rewrite Hcur in Hfile, Hin. rewrite Htab in Hfile, Hin.
      rewrite Hfile0 in Hfile. injection Hfile as <-.
      destruct it as [[k0 v0] h0]. cbn [fst snd] in *. subst k0 v0.
      destruct (handles_from_unique num recs0 0 k v k v' h0) as [_ ->];
        [lia | done | done |].
      exists (EncodeTo hd), hd, (map record_of L).
      split; [done |]. split; [by apply parse_handle_EncodeTo |].
      rewrite Ht. split; [| done].
      by rewrite Hf, Hf4, lookup_insert_eq.
  - intros k Hnot.
    destruct (Hmoves k) as [Heq | (v' & hd & it & _ & _ & _ & _ & HitL & Hk & _)];
      [done |].
    destruct (HL it HitL) as [Hlive _].
    apply live_entry in Hlive as (e' & He' & _). rewrite Hk in He'.
    by apply Hnot in He'.
  - split; [| split].
    + intros k e Hk Hty.
      destruct (Hmoves k) as [Heq | (v' & hd & it & _ & Hentry & Hvalid & _)].
      * rewrite Heq in Hk. by apply (Hdec k e).
      * rewrite Hentry in Hk. injection Hk as <-. cbn.
        by rewrite parse_handle_EncodeTo.
    + unfold files_addressable. rewrite Hf, Hf4.
      by apply map_Forall_insert_2.
    + intros Hbound Hdisk. unfold disk_below_current. rewrite Hf, Hf4, Hn.
      assert (Hnew : num' = vlog_file_number_ st + 1).
      { unfold num'. apply u64_small. lia. }
      split; [| lia].
      apply map_Forall_insert_2; [cbn; lia |].
      intros k recs Hk. specialize (Hdisk k recs Hk). cbn in *. lia.
Qed.

Lemma PickGC_fresh (n : N) (st : ValueLogImpl) (gc : GarbageCollection) :
  PickGC n st = Some (Some gc) → gc = GarbageCollection_new (number gc).
Proof.
  unfold PickGC. destruct (PickGC_loop _ _ _ _) as [[k |] |]; [| done | done].
  by intros [= <-].
Qed.

(** A run that returns has either left the LSM, the files and the counter
    alone, or gone through [Collect] on a fresh collection and [Rewrite]. *)
Lemma BackgroundGC_shape (st st' : ValueLogImpl) :
  BackgroundGC st = Ret st' →
  same_data st st'
  ∨ ∃ num st1 s1 gc2 st3,
      same_data st st1
      ∧ Rewrite (snd (fst (Collect (GarbageCollection_new num) st1)))
                (snd (Collect (GarbageCollection_new num) st1)) = Ret (s1, gc2, st3)
      ∧ same_data st3 st'.
Proof.
  unfold BackgroundGC.
  destruct (BackgroundGC_pick st) as [[r st1] |] eqn:Hpick; [| done].
  destruct (BackgroundGC_pick_frame _ _ _ Hpick) as (Hdb & _ & Hfiles & Hnum).
  assert (Henv : env_ st1 = env_ st).
  { by destruct (BackgroundGC_pick_state _ _ _ Hpick) as [(_ & -> & _) | (_ & _ & ->)]. }
  assert (Hpicked : same_data st st1) by (by repeat split).
  destruct r as [gc |].
  2:{ intros [= <-]. left. by repeat split. }
  assert (Hgc : gc = GarbageCollection_new (number gc)).
  { destruct (BackgroundGC_pick_state _ _ _ Hpick) as [(_ & _ & Hp) | (_ & Hp & _)];
      by apply PickGC_fresh in Hp. }
  pose proof (Collect_frame gc st1) as Hframe.
  destruct (Collect gc st1) as [[s gc1] st2] eqn:Hcol. cbn [fst snd] in *.
  destruct (fatal s).
  { intros [= <-]. left. rewrite Hframe. by repeat split. }
  destruct (Rewrite gc1 st2) as [[[s1 gc2] st3] | f] eqn:Hrun; [| done].
  intros Hret. right. exists (number gc), st1, s1, gc2, st3.
  split; [exact Hpicked |]. rewrite <- Hgc, Hcol. cbn [fst snd].
  split; [exact Hrun |].
  destruct (fatal s1); injection Hret as <-; by repeat split.
Qed.

(** X17.  A background run that returns preserves the value of every key,
    provided the calls that write the new file succeed ([Rewrite] does not
    look at what they report).  On a store whose Handle entries decode, whose
    files are shorter than 2^32 bytes and where the next file number is not
    yet on disk: a key that
    resolved to a value (its entry is a handle, and the record at that handle
    is the key with that value) resolves to the same value afterwards,
    whatever the run did and however it ended; and the entries that are not
    handles (inline values, deletions, absent keys) are as before. *)
Theorem BackgroundGC_preserves_values (st st' : ValueLogImpl) :
  handles_decodable (db_ st) →
  files_addressable st →
  vlog_files_ st !! u64 (vlog_file_number_ st + 1) = None →
  file_calls_ok (file_outcome (env_ st) (u64 (vlog_file_number_ st + 1))) = true →
  BackgroundGC st = Ret st' →
  keeps_values st st'.
Proof.
  intros Hdec Haddr Hfresh Hcalls Hrun.
  destruct (BackgroundGC_shape _ _ Hrun)
    as [(Hdb & Hf & _)
       | (num & st1 & s1 & gc2 & st3 & (Hdb & Hf & Hn & He) & Hrw & (Hdb' & Hf' & _))].
  { by apply keeps_values_same. }
  apply (keeps_values_trans st st1); [by apply keeps_values_same |].
  apply (keeps_values_trans st1 st3); [| by apply keeps_values_same].
  eapply Collect_Rewrite_preserves; [| | | | exact Hrw].
  - by rewrite Hdb.
  - unfold files_addressable. by rewrite Hf.
  - by rewrite Hf, Hn.
  - by rewrite He, Hn.
Qed.

(** ** Any number of background calls *)

Lemma MaybeScheduleGC_same_data (st : ValueLogImpl) :
  same_data st (MaybeScheduleGC st).
Proof. by destruct (MaybeScheduleGC_cases st) as [-> | ->]. Qed.

Lemma same_data_trans (st1 st2 st3 : ValueLogImpl) :
  same_data st1 st2 → same_data st2 st3 → same_data st1 st3.
Proof. intros (? & ? & ? & ?) (? & ? & ? & ?). repeat split; congruence. Qed.

(** The calls that write a new file succeed, whatever its number. *)
Lemma file_calls_same_data (st st' : ValueLogImpl) :
  same_data st st' →
  (∀ n, file_calls_ok (file_outcome (env_ st) n) = true) →
  ∀ n, file_calls_ok (file_outcome (env_ st') n) = true.
Proof. intros (_ & _ & _ & ->) H. exact H. Qed.

Lemma disk_below_current_fresh (st : ValueLogImpl) :
  disk_below_current st → vlog_file_number_ st + 1 < 2 ^ 64 →
  vlog_files_ st !! u64 (vlog_file_number_ st + 1) = None.
Proof.
  intros Hdisk Hb. rewrite u64_small by lia.
  destruct (vlog_files_ st !! (vlog_file_number_ st + 1)) as [recs |] eqn:Hf; [| done].
  specialize (Hdisk _ _ Hf). cbn in Hdisk. lia.
Qed.

Lemma BGCall_step (st st' : ValueLogImpl) :
  store_ok st →
  vlog_file_number_ st + 1 < 2 ^ 64 →
  file_calls_ok (file_outcome (env_ st) (u64 (vlog_file_number_ st + 1))) = true →
  BGCall st = Ret st' →
  keeps_values st st' ∧ store_ok st'
  ∧ vlog_file_number_ st' ≤ vlog_file_number_ st + 1
  ∧ env_ st' = env_ st.
Proof.
  intros Hok Hb Hcalls. unfold BGCall.
  destruct (negb (bg_garbage_collection_ st)); [done |].
  assert (Htriv : ∀ st1, same_data st st1 →
            keeps_values st st1 ∧ store_ok st1
            ∧ vlog_file_number_ st1 ≤ vlog_file_number_ st + 1
            ∧ env_ st1 = env_ st).
  { intros st1 Hs. split; [destruct Hs as (? & ? & ?); by apply keeps_values_same |].
    split; [by apply (store_ok_same_data st) |].
    destruct Hs as (_ & _ & -> & ->). split; [lia | done]. }
  assert (Hlast : ∀ st1,
            keeps_values st st1 ∧ store_ok st1
            ∧ vlog_file_number_ st1 ≤ vlog_file_number_ st + 1
            ∧ env_ st1 = env_ st →
            keeps_values st (MaybeScheduleGC (set_bg_garbage_collection_ false st1))
            ∧ store_ok (MaybeScheduleGC (set_bg_garbage_collection_ false st1))
            ∧ vlog_file_number_ (MaybeScheduleGC (set_bg_garbage_collection_ false st1))
              ≤ vlog_file_number_ st + 1
            ∧ env_ (MaybeScheduleGC (set_bg_garbage_collection_ false st1)) = env_ st).
  { intros st1 (Hk & Hs & Hn & He).
    pose proof (MaybeScheduleGC_same_data (set_bg_garbage_collection_ false st1)) as Hsd.
    assert (Hsd1 : same_data st1 (MaybeScheduleGC (set_bg_garbage_collection_ false st1))).
    { destruct Hsd as (H1 & H2 & H3 & H4). by repeat split. }
    split; [apply (keeps_values_trans st st1); [done |];
            destruct Hsd1 as (? & ? & ?); by apply keeps_values_same |].
    split; [by apply (store_ok_same_data st1) |].
    destruct Hsd1 as (_ & _ & -> & ->). by split. }
  destruct (shutdown_ st).
  { intros [= <-]. apply Hlast, Htriv. by repeat split. }
  destruct (fatal (bg_error_ st)).
  { intros [= <-]. apply Hlast, Htriv. by repeat split. }
  destruct (BackgroundGC st) as [st1 | f] eqn:Hrun; [| done].
  intros [= <-]. apply Hlast.
  destruct (BackgroundGC_shape _ _ Hrun)
    as [Hs | (num & st1' & s1 & gc2 & st3 & Hs1 & Hrw & Hs3)].
  { by apply Htriv. }
  destruct Hok as (Hdec & Haddr & Hdisk).
  pose proof (store_ok_same_data st st1' Hs1 (conj Hdec (conj Haddr Hdisk)))
    as (Hdec1 & Haddr1 & Hdisk1).
  assert (Hn1 : vlog_file_number_ st1' = vlog_file_number_ st) by apply Hs1.
  assert (He1 : env_ st1' = env_ st) by apply Hs1.
  destruct (Collect_Rewrite_preserves num st1' s1 gc2 st3)
    as (Hk & Hdec3 & Haddr3 & Hrest); [done | done | | | done |].
  { apply disk_below_current_fresh; [done | lia]. }
  { by rewrite He1, Hn1. }
  destruct Hrest as [Hdisk3 Hn3]; [lia | done |].
  assert (He3 : env_ st3 = env_ st).
  { apply Rewrite_env in Hrw. rewrite Hrw.
    rewrite Collect_frame. cbn [env_ set_trace_]. exact He1. }
  split.
  { apply (keeps_values_trans st st1');
      [destruct Hs1 as (? & ? & ?); by apply keeps_values_same |].
    apply (keeps_values_trans st1' st3); [done |].
    destruct Hs3 as (? & ? & ?); by apply keeps_values_same. }
  split; [by apply (store_ok_same_data st3) |].
  destruct Hs3 as (_ & _ & -> & ->). split; [lia | done].
Qed.

(** X18.  However many manual requests and background calls follow one
    another, every key keeps its value, and the store stays well formed:
    Handle entries decode, files are shorter than 2^32 bytes, and no file on
    disk is numbered above the file-number counter.  The calls that write a
    new file succeed ([Rewrite] does not look at what they report), and the
    counter has room for one new file per request. *)
Theorem requests_keep_values (rs : list Request) (st st' : ValueLogImpl) :
  store_ok st →
  (∀ n, file_calls_ok (file_outcome (env_ st) n) = true) →
  vlog_file_number_ st + N.of_nat (length rs) < 2 ^ 64 →
  requests rs st = Ret st' →
  keeps_values st st' ∧ store_ok st'.
Proof.
  revert st. induction rs as [|r rs IH]; intros st Hok Hcalls Hb Hrun.
  - cbn in Hrun. injection Hrun as <-.
    split; [by apply keeps_values_same | done].
  - cbn [requests length] in Hrun, Hb.
    assert (Hstep : ∀ st1, request_step r st = Ret st1 →
              keeps_values st st1 ∧ store_ok st1
              ∧ vlog_file_number_ st1 ≤ vlog_file_number_ st + 1
              ∧ env_ st1 = env_ st).
    { intros st1. destruct r as [num |]; cbn [request_step].
      - intros [= <-].
        assert (Hs : same_data st (ManualGC num st)).
        { unfold ManualGC.
          by destruct (MaybeScheduleGC_cases
                         (set_manual_gc_number num (set_manual_gc_ true st)))
            as [-> | ->]. }
        split; [destruct Hs as (? & ? & ?); by apply keeps_values_same |].
        split; [by apply (store_ok_same_data st) |].
        destruct Hs as (_ & _ & -> & ->). split; [lia | done].
      - intros Hcall. apply BGCall_step; [done | lia | apply Hcalls | done]. }
    destruct (request_step r st) as [st1 | f]; [| done].
    destruct (Hstep st1 eq_refl) as (Hk1 & Hok1 & Hn1 & He1).
    destruct (IH st1 Hok1) as [Hk Hok']; [by rewrite He1 | lia | done |].
    split; [by apply (keeps_values_trans st st1) | done].
Qed.

(** In the scenario the entry of key [a] moves to file 3. *)
Lemma Rewrite_only_moves_handles_witness :
  paired (vb_records (value_batch Scenario.collected_1))
         (rewrites Scenario.collected_1)
  ∧ ∃ s gc' st',
      Rewrite Scenario.collected_1 Scenario.st0 = Ret (s, gc', st')
      ∧ lsm_read_error (db_ st') = lsm_read_error (db_ Scenario.st0)
      ∧ (is_Some (lsm_table (db_ st') !! Scenario.key_a)
         ↔ is_Some (lsm_table (db_ Scenario.st0) !! Scenario.key_a)).
Proof.
  assert (H1 : paired (vb_records (value_batch Scenario.collected_1))
                      (rewrites Scenario.collected_1))
    by (unfold paired; compute_done).
  split; [exact H1 |].
  destruct (Rewrite Scenario.collected_1 Scenario.st0) as [[[s gc'] st'] | f] eqn:Hrun.
  - exists s, gc', st'. split; [reflexivity |].
    destruct (Rewrite_only_moves_handles _ _ _ _ _ Scenario.key_a H1 Hrun)
      as (H2 & H3 & _).
    split; [exact H2 | exact H3].
  - exfalso. vm_compute in Hrun. discriminate Hrun.
Defined.

Lemma resolves_scenario : resolves Scenario.st0 Scenario.key_a "x".
Proof.
  exists (EncodeTo Scenario.h_a), Scenario.h_a, Scenario.file_1.
  split; [reflexivity |]. split; [reflexivity |]. split; [reflexivity |].
  vm_compute. do 2 apply list_elem_of_further. apply list_elem_of_here.
Defined.

Lemma store_ok_scenario : store_ok Scenario.st0.
Proof.
  split; [unfold handles_decodable; compute_done |].
  split; [unfold files_addressable; compute_done |].
  unfold disk_below_current; compute_done.
Defined.

(** The run of the scenario moves key [a] to file 3; it still resolves to
    its value. *)
Lemma BackgroundGC_preserves_values_witness :
  handles_decodable (db_ Scenario.st0)
  ∧ files_addressable Scenario.st0
  ∧ vlog_files_ Scenario.st0 !! u64 (vlog_file_number_ Scenario.st0 + 1) = None
  ∧ file_calls_ok
      (file_outcome (env_ Scenario.st0) (u64 (vlog_file_number_ Scenario.st0 + 1)))
    = true
  ∧ ∃ st', BackgroundGC Scenario.st0 = Ret st'
           ∧ resolves st' Scenario.key_a "x".
Proof.
  assert (H1 : handles_decodable (db_ Scenario.st0)) by apply store_ok_scenario.
  assert (H2 : files_addressable Scenario.st0) by apply store_ok_scenario.
  assert (H3 : vlog_files_ Scenario.st0 !! u64 (vlog_file_number_ Scenario.st0 + 1)
               = None) by reflexivity.
  assert (H4 : file_calls_ok
                 (file_outcome (env_ Scenario.st0)
                    (u64 (vlog_file_number_ Scenario.st0 + 1))) = true)
    by reflexivity.
  repeat (split; [assumption |]).
  destruct (BackgroundGC Scenario.st0) as [st' | f] eqn:Hrun.
  - exists st'. split; [reflexivity |].
    exact (proj1 (BackgroundGC_preserves_values _ _ H1 H2 H3 H4 Hrun) _ _
             resolves_scenario).
  - exfalso. vm_compute in Hrun. discriminate Hrun.
Defined.

(** A manual request for file 1 is served, then one for file 9, which picks
    nothing. *)
Lemma requests_keep_values_witness :
  let rs := [ReqManualGC 1; ReqBGCall; ReqManualGC 9; ReqBGCall] in
  store_ok Scenario.st_idle
  ∧ (∀ n, file_calls_ok (file_outcome (env_ Scenario.st_idle) n) = true)
  ∧ vlog_file_number_ Scenario.st_idle + N.of_nat (length rs) < 2 ^ 64
  ∧ ∃ st', requests rs Scenario.st_idle = Ret st'
           ∧ resolves st' Scenario.key_a "x"
           ∧ store_ok st'.
Proof.
  cbv zeta.
  assert (H1 : store_ok Scenario.st_idle) by exact store_ok_scenario.
  assert (H2 : vlog_file_number_ Scenario.st_idle
               + N.of_nat (length [ReqManualGC 1; ReqBGCall; ReqManualGC 9; ReqBGCall])
               < 2 ^ 64)
    by (vm_compute; reflexivity).
  assert (H3 : ∀ n, file_calls_ok (file_outcome (env_ Scenario.st_idle) n) = true)
    by (intros n; reflexivity).
  split; [exact H1 |]. split; [exact H3 |]. split; [exact H2 |].
  destruct (requests [ReqManualGC 1; ReqBGCall; ReqManualGC 9; ReqBGCall]
              Scenario.st_idle) as [st' | f] eqn:Hrun.
  - exists st'. split; [reflexivity |].
    destruct (requests_keep_values _ _ _ H1 H3 H2 Hrun) as [Hk Hok].
    split; [exact (proj1 Hk _ _ resolves_scenario) | exact Hok].
  - exfalso. vm_compute in Hrun. discriminate Hrun.
Defined.

(** ** A file without garbage *)

Lemma size_sum_handles_from (num : N) (recs : list (string * string)) :
  ∀ off,
    batch_bytes recs < 2 ^ 32 →
    size_sum (handles_from num off recs) = batch_bytes recs
    ∧ N.of_nat (length recs) ≤ batch_bytes recs.
Proof.
  induction recs as [|[k v] recs IH]; intros off Hb; cbn [handles_from size_sum
    batch_bytes length]; [done |].
  cbn [batch_bytes] in Hb. pose proof (SizeOf_pos k v).
  destruct (IH (u32 (off + SizeOf k v))) as [-> Hlen]; [lia |].
  cbn [snd size_]. rewrite u32_small by lia. lia.
Qed.

Lemma filter_dead_live (db : DBImpl) (num : N)
    (items : list (string * string * ValueHandle)) :
  Forall (fun it => live db num it = true) items →
  List.filter (dead db num) items = [].
Proof.
  induction 1 as [|it items Hl _ IH]; [done |].
  cbn [List.filter]. unfold live in Hl.
  destruct (dead db num it); [done | exact IH].
Qed.

Lemma looked_up_all (db : DBImpl) (items : list (string * string * ValueHandle)) :
  lsm_read_error db = ∅ →
  looked_up db items = map (fun it => fst (fst it)) items.
Proof.
  intros He. induction items as [|it items IH]; [done |].
  cbn [looked_up map]. rewrite decide_False by (rewrite He; apply not_elem_of_empty).
  by rewrite IH.
Qed.

Lemma last_map {A B} (f : A → B) (l : list A) :
  last (map f l) = option_map f (last l).
Proof.
  induction l as [|x [|y l] IH]; [done | done |].
  cbn [map]. rewrite !last_cons_cons. exact IH.
Qed.

Lemma live_Get_status (db : DBImpl) (num : N) (it : string * string * ValueHandle) :
  lsm_read_error db = ∅ → live db num it = true → Get_status db (fst (fst it)) = OK.
Proof.
  intros He Hl. apply live_entry in Hl as (e & Hentry & _).
  unfold Get_status, DBImpl_Get.
  rewrite decide_False by (rewrite He; apply not_elem_of_empty).
  by rewrite Hentry.
Qed.

Lemma Collect_clean (num : N) (st : ValueLogImpl) (recs : list (string * string)) :
  collectable (GarbageCollection_new num) st →
  vlog_files_ st !! num = Some recs →
  batch_bytes recs < 2 ^ 32 →
  handles_decodable (db_ st) →
  lsm_read_error (db_ st) = ∅ →
  Forall (fun it => live (db_ st) num it = true) (handles_from num 0 recs) →
  fst (fst (Collect (GarbageCollection_new num) st)) = OK
  ∧ total_size (snd (fst (Collect (GarbageCollection_new num) st))) = batch_bytes recs
  ∧ total_entries (snd (fst (Collect (GarbageCollection_new num) st)))
    = N.of_nat (length recs)
  ∧ discard_size (snd (fst (Collect (GarbageCollection_new num) st))) = 0
  ∧ discard_entries (snd (fst (Collect (GarbageCollection_new num) st))) = 0.
Proof.
  intros Hcol Hfile Hb Hdec Herr Hlive.
  destruct (size_sum_handles_from num recs 0 Hb) as [Hsum Hlen].
  split.
  { rewrite (proj2 (Collect_run _ _ Hcol)). cbn [number GarbageCollection_new].
    unfold records_of, NewVLogFileIterator. rewrite Hfile.
    rewrite looked_up_all by done.
    destruct (last (map _ (handles_from num 0 recs))) as [k |] eqn:Hlast; [| done].
    rewrite last_map in Hlast.
    destruct (last (handles_from num 0 recs)) as [it |] eqn:Hit; [| done].
    injection Hlast as <-. apply (live_Get_status _ num); [done |].
    apply last_Some_elem_of in Hit.
    by apply (proj1 (Forall_forall _ _) Hlive). }
  destruct Hcol as (Hlt & Hnz & _). cbn [number GarbageCollection_new] in Hlt, Hnz.
  unfold Collect. cbn [number GarbageCollection_new].
  destruct (N.leb_spec (CurrentFileNumber st) num); [lia |].
  destruct (N.eqb_spec num 0); [done |]. cbn [orb].
  unfold NewVLogFileIterator. rewrite Hfile.
  match goal with |- context [Collect_loop ?i ?l ?g ?s0] =>
    pose proof (Collect_loop_spec num i l g s0 eq_refl) as Hc;
    destruct (Collect_loop i l g s0) as [[loc1 gc1] st2] end.
  cbn [fst snd] in *.
  destruct Hc as [_ _ Hte Hts Hde Hds _ _].
  { unfold counters_in_range. cbn. lia. }
  { exact Hdec. }
  rewrite scanned_all in Hte, Hts, Hde, Hds by done.
  rewrite filter_dead_live in Hde, Hds by done.
  cbn in Hte, Hts, Hde, Hds. unfold count in Hte.
  rewrite length_handles_from in Hte. rewrite Hsum in Hts.
  rewrite u32_small in Hte, Hts by lia.
  by rewrite Hte, Hts, Hde, Hds.
Qed.

(** X19.  A run over a file without garbage changes nothing.  When every
    record of the picked file is live, no lookup fails and both thresholds
    are positive, the run reads the file, finds both discard ratios at zero
    and ends with NonFatal: no file is created, nothing is written to the LSM
    or the manifest, and [gc_last_run_] is refreshed. *)
Theorem BackgroundGC_leaves_clean_file (st st1 : ValueLogImpl)
    (gc : GarbageCollection) (recs : list (string * string)) :
  BackgroundGC_pick st = Some (Some gc, st1) →
  number gc < CurrentFileNumber st →
  number gc ≠ 0 →
  vlog_files_ st !! number gc = Some recs →
  recs ≠ [] →
  batch_bytes recs < 2 ^ 32 →
  handles_decodable (db_ st) →
  lsm_read_error (db_ st) = ∅ →
  Forall (fun it => live (db_ st) (number gc) it = true)
         (handles_from (number gc) 0 recs) →
  0 < blob_gc_size_discard_threshold (options_ st) →
  0 < blob_gc_num_discard_threshold (options_ st) →
  BackgroundGC st
  = Ret (set_bg_error_ NonFatal
           (set_gc_last_run_ (now (env_ st))
              (set_trace_
                 (trace_ st ++ EvIterOpen (number gc)
                    :: map (fun it => EvLSMGet (fst (fst it)))
                         (handles_from (number gc) 0 recs))
                 st1))).
Proof.
  intros Hpick Hlt Hnz Hfile Hne Hb Hdec Herr Hlive Hts Hte.
  destruct (BackgroundGC_pick_frame _ _ _ Hpick) as (Hdb & Htr & Hfiles & Hnum).
  assert (Hopt : options_ st1 = options_ st ∧ env_ st1 = env_ st).
  { by destruct (BackgroundGC_pick_state _ _ _ Hpick) as [(_ & -> & _) | (_ & _ & ->)]. }
  destruct Hopt as [Hopt Henv].
  assert (Hgc : gc = GarbageCollection_new (number gc)).
  { destruct (BackgroundGC_pick_state _ _ _ Hpick) as [(_ & _ & Hp) | (_ & Hp & _)];
      by apply PickGC_fresh in Hp. }
  assert (Hcol : collectable (GarbageCollection_new (number gc)) st1).
  { unfold collectable, CurrentFileNumber in *. cbn [number GarbageCollection_new].
    rewrite Hfiles, Hnum, Hfile. split; [done |]. split; [done | by eexists]. }
  destruct (Collect_clean (number gc) st1 recs)
    as (Hs & Htotal & Hentries & Hds & Hde);
    [done | by rewrite Hfiles | done | by rewrite Hdb | by rewrite Hdb
    | by rewrite Hdb |].
  pose proof (Collect_frame (GarbageCollection_new (number gc)) st1) as Hframe.
  pose proof (proj1 (Collect_run _ _ Hcol)) as Htrace.
  cbn [number GarbageCollection_new] in Htrace.
  unfold records_of, NewVLogFileIterator in Htrace.
  rewrite Hfiles, Hfile, Hdb, Htr, looked_up_all in Htrace by done.
  rewrite map_map in Htrace.
  unfold BackgroundGC. rewrite Hpick, Hgc.
  destruct (Collect (GarbageCollection_new (number gc)) st1) as [[s gc1] st2].
  cbn [fst snd] in *. subst s. cbn [fatal ok negb andb].
  destruct (size_sum_handles_from (number gc) recs 0 Hb) as [_ Hlen].
  assert (Hpos : 0 < N.of_nat (length recs)) by (destruct recs; [done | cbn; lia]).
  rewrite Rewrite_below.
  - cbn [fatal ok negb andb IsNonFatal]. rewrite Hframe, Htrace. cbn.
    by rewrite Henv.
  - lia.
  - lia.
  - rewrite Hframe. cbn [options_ set_trace_]. rewrite Hopt.
    unfold below_threshold, discard_percent. rewrite Hds, Hde.
    cbn [N.mul]. change (u32 0) with 0.
    rewrite !N.Div0.div_0_l.
    apply andb_true_intro. split; apply N.ltb_lt; done.
Qed.

Lemma BackgroundGC_leaves_clean_file_witness :
  let st := Cases.st_clean in
  let recs := [(Scenario.key_a, "x"%string)] in
  BackgroundGC_pick st = Some (Some (GarbageCollection_new 1), set_gc_pointer_ 2 st)
  ∧ vlog_files_ st !! 1 = Some recs
  ∧ batch_bytes recs < 2 ^ 32
  ∧ handles_decodable (db_ st)
  ∧ lsm_read_error (db_ st) = ∅
  ∧ Forall (fun it => live (db_ st) 1 it = true) (handles_from 1 0 recs)
  ∧ 0 < blob_gc_size_discard_threshold (options_ st)
  ∧ 0 < blob_gc_num_discard_threshold (options_ st)
  ∧ BackgroundGC st
    = Ret (set_bg_error_ NonFatal
             (set_gc_last_run_ 1000
                (set_trace_ [EvIterOpen 1; EvLSMGet Scenario.key_a]
                   (set_gc_pointer_ 2 st)))).
Proof.
  cbv zeta.
  assert (H1 : BackgroundGC_pick Cases.st_clean
               = Some (Some (GarbageCollection_new 1), set_gc_pointer_ 2 Cases.st_clean))
    by reflexivity.
  assert (H2 : number (GarbageCollection_new 1) < CurrentFileNumber Cases.st_clean)
    by reflexivity.
  assert (H3 : number (GarbageCollection_new 1) ≠ 0) by discriminate.
  assert (H4 : vlog_files_ Cases.st_clean !! 1 = Some [(Scenario.key_a, "x"%string)])
    by reflexivity.
  assert (H5 : [(Scenario.key_a, "x"%string)] ≠ []) by discriminate.
  assert (H6 : batch_bytes [(Scenario.key_a, "x"%string)] < 2 ^ 32)
    by (vm_compute; reflexivity).
  assert (H7 : handles_decodable (db_ Cases.st_clean))
    by (unfold handles_decodable; compute_done).
  assert (H8 : lsm_read_error (db_ Cases.st_clean) = ∅) by reflexivity.
  assert (H9 : Forall (fun it => live (db_ Cases.st_clean) 1 it = true)
                 (handles_from 1 0 [(Scenario.key_a, "x"%string)]))
    by (constructor; [vm_compute; reflexivity | constructor]).
  assert (H10 : 0 < blob_gc_size_discard_threshold (options_ Cases.st_clean))
    by (vm_compute; reflexivity).
  assert (H11 : 0 < blob_gc_num_discard_threshold (options_ Cases.st_clean))
    by (vm_compute; reflexivity).
  repeat (split; [assumption |]).
  exact (BackgroundGC_leaves_clean_file _ _ _ _ H1 H2 H3 H4 H5 H6 H7 H8 H9 H10 H11).
Defined.
